(** * solnet: the SRS frame decoder, the combiner and the gain rectifier

    A shallow embedding of [solnet/data.py] and [solnet/util.py].

    Conventions of the embedding:
    - Python exceptions are values of [exn]; a computation yields an
      [outcome]: a value, a raised exception, or [OutOfFuel] when a loop
      bound of the model itself is exhausted (shown not to happen for the
      bounds the definitions pick).
    - UNIX timestamps are integers: the decoder builds them from calendar
      fields with a zero sub-second component, and integers of that size
      are exact in a double.
    - Doubles that hold powers, weights and frequencies are exact
      rationals, plus a not-a-number value for powers ([f64]).  Decoded
      powers are small integers, so the sums, differences and medians the
      code takes of them are exact in double precision as well.
    - numpy arrays that are only read are lists; the rows that
      [rectify_combined] updates in place live in a store ([heap]). *)

From Stdlib Require Import String Ascii.
From Stdlib.Strings Require Import Byte.
From Stdlib Require Import List Sorted ZArith QArith Qabs Bool Lia Lqa Arith.
Import ListNotations.

Local Open Scope string_scope.
Local Open Scope list_scope.
Local Open Scope Z_scope.

(** ** Exceptions and outcomes *)

Inductive exn : Type :=
| IndexError
| KeyError (key : Z)
| ValueError
| NameError (name : string)
| AttributeError (attr : string)
| RuntimeError (msg : string).

Inductive outcome (A : Type) : Type :=
| Ok (a : A)
| Raise (e : exn)
| OutOfFuel.

Arguments Ok {A} a.
Arguments Raise {A} e.
Arguments OutOfFuel {A}.

Definition bind {A B : Type} (m : outcome A) (k : A -> outcome B) : outcome B :=
  match m with
  | Ok a => k a
  | Raise e => Raise e
  | OutOfFuel => OutOfFuel
  end.

Notation "x <- m ;; k" := (bind m (fun x => k))
  (at level 61, m at next level, right associativity).
Notation "' p <- m ;; k" := (bind m (fun p => k))
  (at level 61, p pattern, m at next level, right associativity).

(** One turn of a [while] loop either goes round again or leaves the loop. *)
Inductive turn (S : Type) : Type :=
| Next (s : S)
| Done (s : S).

Arguments Next {S} s.
Arguments Done {S} s.

Fixpoint while {S : Type} (fuel : nat) (body : S -> outcome (turn S)) (s : S)
  : outcome S :=
  match fuel with
  | O => OutOfFuel
  | Datatypes.S fuel' =>
      match body s with
      | Ok (Next s') => while fuel' body s'
      | Ok (Done s') => Ok s'
      | Raise e => Raise e
      | OutOfFuel => OutOfFuel
      end
  end.

(** ** Doubles *)

Inductive f64 : Type :=
| Fin (q : Q)
| NaN.

Definition f64_add (x y : f64) : f64 :=
  match x, y with
  | Fin a, Fin b => Fin (Qred (a + b))
  | _, _ => NaN
  end.

Definition f64_sub (x y : f64) : f64 :=
  match x, y with
  | Fin a, Fin b => Fin (Qred (a - b))
  | _, _ => NaN
  end.

Definition is_nan (x : f64) : bool :=
  match x with NaN => true | Fin _ => false end.

(** ** The container: [data.py] *)

Definition _SITE_ID_TO_NAME (site_id : Z) : option string :=
  match site_id with
  | 1 => Some "Palehau"
  | 2 => Some "Holloman"
  | 3 => Some "Learmonth"
  | 4 => Some "San Vito"
  | 5 => Some "Sagamore Hill"
  | _ => None
  end.

Definition site_name (site_id : Z) : outcome string :=
  match _SITE_ID_TO_NAME site_id with
  | Some name => Ok name
  | None => Raise (KeyError site_id)
  end.

(** [freq_range] is declared a list of floats, and [from_file] does start
    from the Python list [[]]; every use of it ([.size]) needs a numpy
    array, which is what [from_file] stores once a header has been read. *)
Inductive axis : Type :=
| PyList (xs : list Q)
| NdArray (xs : list Q).

Definition axis_values (a : axis) : list Q :=
  match a with PyList xs => xs | NdArray xs => xs end.

Definition axis_size (a : axis) : outcome nat :=
  match a with
  | NdArray xs => Ok (length xs)
  | PyList _ => Raise (AttributeError "size")
  end.

(** A source label of a combined spectrogram: the index of the contributing
    input, or [np.nan]. *)
Inductive label : Type :=
| Site (i : nat)
| Missing.

(** The attributes of a [SolarRadioSpectrograph].  [D] is what [_data]
    holds: the rows themselves where they are only read, a reference into
    the store where they are updated in place.  [_data_source] and
    [_data_adjustments] are the attributes that [combine_srs] and
    [rectify_combined] add; [None] stands for an attribute that is not set. *)
Record SolarRadioSpectrograph (D : Type) : Type := mkSRS {
  site_id : Z;
  site : string;
  freq_range : axis;
  time_range : list Z;
  _data : D;
  _data_source : option (list label);
  _data_adjustments : option (list (label * f64))
}.

Arguments mkSRS {D}.
Arguments site_id {D}.
Arguments site {D}.
Arguments freq_range {D}.
Arguments time_range {D}.
Arguments _data {D}.
Arguments _data_source {D}.
Arguments _data_adjustments {D}.

Definition row : Type := list f64.
Definition spectrogram : Type := SolarRadioSpectrograph (list row).

(** [__init__], for the calls of the sources, which pass neither
    [time_range] nor [data]. *)
Definition __init__ (site_id : Z) (frequency_range : axis) : outcome spectrogram :=
  name <- site_name site_id ;;
  Ok (mkSRS site_id name frequency_range [] [] None None).

(** [append] and [extend] update [self] in place: they are state passing,
    and give the container as it is when they return or raise.  The
    message of the length check is an f-string over [data], a name that
    neither the method nor the module binds, so that branch raises
    [NameError] while it builds its [RuntimeError]. *)
Definition append (timestamp : Z) (spec : row) (self : spectrogram)
  : spectrogram * outcome unit :=
  match axis_size (freq_range self) with
  | Ok n =>
      if negb (length spec =? n)%nat then (self, Raise (NameError "data"))
      else
        (mkSRS (site_id self) (site self) (freq_range self)
               (time_range self ++ [timestamp]) (_data self ++ [spec])
               (_data_source self) (_data_adjustments self),
         Ok tt)
  | Raise e => (self, Raise e)
  | OutOfFuel => (self, OutOfFuel)
  end.

(** The [for s in specs] check of [extend]. *)
Fixpoint check_specs (specs : list row) (self : spectrogram) : outcome unit :=
  match specs with
  | [] => Ok tt
  | s :: specs' =>
      n <- axis_size (freq_range self) ;;
      if negb (length s =? n)%nat then Raise (NameError "data")
      else check_specs specs' self
  end.

(** After its checks [extend] reads [self.time_ranges]; the attribute of
    the class is [time_range], so the read raises before anything is
    appended. *)
Definition extend (timestamps : list Z) (specs : list row) (self : spectrogram)
  : spectrogram * outcome unit :=
  if negb (length timestamps =? length specs)%nat then
    (self, Raise (RuntimeError "Different numbers of timestamps and spectra"))
  else
    match check_specs specs self with
    | Ok _ => (self, Raise (AttributeError "time_ranges"))
    | Raise e => (self, Raise e)
    | OutOfFuel => (self, OutOfFuel)
    end.

(** ** Calendar time: [datetime(...)] and [.timestamp()] *)

Definition is_leap (y : Z) : bool :=
  (y mod 4 =? 0) && (negb (y mod 100 =? 0) || (y mod 400 =? 0)).

Definition days_in_month (y m : Z) : Z :=
  match m with
  | 1 => 31 | 2 => if is_leap y then 29 else 28 | 3 => 31 | 4 => 30
  | 5 => 31 | 6 => 30 | 7 => 31 | 8 => 31
  | 9 => 30 | 10 => 31 | 11 => 30 | 12 => 31
  | _ => 0
  end.

Definition days_before_month (y m : Z) : Z :=
  let before :=
    match m with
    | 1 => 0 | 2 => 31 | 3 => 59 | 4 => 90 | 5 => 120 | 6 => 151
    | 7 => 181 | 8 => 212 | 9 => 243 | 10 => 273 | 11 => 304 | 12 => 334
    | _ => 0
    end in
  if (2 <? m) && is_leap y then before + 1 else before.

Definition days_before_year (y : Z) : Z :=
  let y1 := y - 1 in y1 * 365 + y1 / 4 - y1 / 100 + y1 / 400.

Definition ymd2ord (y m d : Z) : Z :=
  days_before_year y + days_before_month y m + d.

Record datetime_t : Type := mkDatetime {
  year : Z; month : Z; day : Z; hour : Z; minute : Z; second : Z
}.

Definition valid_date (y mo d h mi s : Z) : bool :=
  (1 <=? y) && (y <=? 9999) && (1 <=? mo) && (mo <=? 12)
  && (1 <=? d) && (d <=? days_in_month y mo)
  && (0 <=? h) && (h <=? 23) && (0 <=? mi) && (mi <=? 59)
  && (0 <=? s) && (s <=? 59).

Definition datetime (y mo d h mi s : Z) : outcome datetime_t :=
  if valid_date y mo d h mi s then Ok (mkDatetime y mo d h mi s)
  else Raise ValueError.

(** Seconds since 1970-01-01T00:00:00 UTC of a UTC-aware instant. *)
Definition timestamp (dt : datetime_t) : Z :=
  (ymd2ord (year dt) (month dt) (day dt) - ymd2ord 1970 1 1) * 86400
  + hour dt * 3600 + minute dt * 60 + second dt.

(** ** The frame decoder: [SolarRadioSpectrograph.from_file] *)

Definition byte_val (b : byte) : Z := Z.of_N (Byte.to_N b).

(** [fh.read(n)]: up to [n] bytes, and the rest of the stream. *)
Definition read (n : nat) (fh : list byte) : list byte * list byte :=
  (firstn n fh, skipn n fh).

(** [struct.unpack] for big-endian formats over [B] and [H]. *)
Inductive fmt : Type := B | H.

Fixpoint unpack (f : list fmt) (bs : list byte) : list Z :=
  match f, bs with
  | B :: f', b :: bs' => byte_val b :: unpack f' bs'
  | H :: f', b1 :: b2 :: bs' => (byte_val b1 * 256 + byte_val b2) :: unpack f' bs'
  | _, _ => []
  end.

(** ['>BBBBBBBBHHHBBHHHBB'] *)
Definition header_format : list fmt :=
  [B; B; B; B; B; B; B; B; H; H; H; B; B; H; H; H; B; B].

Definition linspace (start stop : Q) (num : nat) : list Q :=
  match num with
  | O => []
  | 1%nat => [start]
  | S div =>
      let step := ((stop - start) / inject_Z (Z.of_nat div))%Q in
      map (fun i => (inject_Z (Z.of_nat i) * step + start)%Q) (seq 0 div) ++ [stop]
  end.

(** [freq*1e6] *)
Definition to_Hz (freq : list Q) : list Q :=
  map (fun f => (f * inject_Z 1000000)%Q) freq.

(** [np.frombuffer(block, dtype=np.uint8)*1.0 + ref + atten] *)
Definition correct_block (block : list byte) (ref atten : Z) : row :=
  map (fun b => Fin (inject_Z (byte_val b + ref + atten))) block.

(** The fields of an unpacked header. *)
Definition field (header : list Z) (i : nat) : Z := nth i header 0.

Definition year_offset (header : list Z) : Z :=
  if 50 <? field header 0 then 1900 else 2000.

(** The complete frequency list of a first frame, in Hz. *)
Definition frequency_list (header : list Z) : list Q :=
  let f1B := field header 8 in
  let f1E := field header 9 in
  let freq1 := linspace (inject_Z f1B) (inject_Z f1E) 401 in
  let f2B := field header 13 in
  let f2E := field header 14 in
  let freq2 := linspace (inject_Z f2B) (inject_Z f2E) 401 in
  let freq := freq1 ++ freq2 in
  to_Hz freq.

(** [if first_frame:] saves the site and the frequency list. *)
Definition save_first_frame (header : list Z) (srs : spectrogram)
  : outcome spectrogram :=
  let site_id := field header 6 in
  name <- site_name site_id ;;
  Ok (mkSRS site_id name (NdArray (frequency_list header)) (time_range srs)
            (_data srs) (_data_source srs) (_data_adjustments srs)).

Definition header_datetime (header : list Z) : outcome datetime_t :=
  datetime (field header 0 + year_offset header) (field header 1)
           (field header 2) (field header 3) (field header 4) (field header 5).

(** The loop state: the container being filled, [first_frame], and what is
    left of the stream. *)
Definition decoder_state : Type := (spectrogram * bool * list byte)%type.

(** One turn of [while True]. *)
Definition frame (st : decoder_state) : outcome (turn decoder_state) :=
  let '(srs, first_frame, fh) := st in
  let '(header, fh) := read 24 fh in
  if (length header <? 24)%nat then Ok (Done (srs, first_frame, fh))
  else
    let header := unpack header_format header in
    '(srs, first_frame) <-
       (if first_frame : bool
        then srs <- save_first_frame header srs ;; Ok (srs, false)
        else Ok (srs, first_frame)) ;;
    dt <- header_datetime header ;;
    let f1Ref := field header 11 in
    let f1Atten := field header 12 in
    let f2Ref := field header 16 in
    let f2Atten := field header 17 in
    let '(data0, fh) := read 401 fh in
    if (length data0 <? 401)%nat then Ok (Done (srs, first_frame, fh))
    else
      let data0 := correct_block data0 f1Ref f1Atten in
      let '(data1, fh) := read 401 fh in
      if (length data1 <? 401)%nat then Ok (Done (srs, first_frame, fh))
      else
        let data1 := correct_block data1 f2Ref f2Atten in
        match append (timestamp dt) (data0 ++ data1) srs with
        | (srs, Ok _) => Ok (Next (srs, first_frame, fh))
        | (_, Raise e) => Raise e
        | (_, OutOfFuel) => OutOfFuel
        end.

(** [from_file] on the bytes that the opened (and, for [.gz], decompressed)
    file yields.  Every turn that goes round again has consumed 1226
    bytes, so the length of the stream bounds the number of turns. *)
Definition from_file (fh : list byte) : outcome spectrogram :=
  srs <- __init__ 1 (PyList []) ;;
  '(srs, _, _) <- while (S (length fh)) frame (srs, true, fh) ;;
  Ok srs.

Definition load_srs_data (fh : list byte) : outcome spectrogram := from_file fh.

(** ** numpy helpers used by [util.py] *)

(** [np.where(p(xs))[0]]: the indices at which [p] holds, in order. *)
Fixpoint where_from {A : Type} (p : A -> bool) (i : nat) (xs : list A) : list nat :=
  match xs with
  | [] => []
  | x :: xs' => if p x then i :: where_from p (S i) xs' else where_from p (S i) xs'
  end.

Definition np_where {A : Type} (p : A -> bool) (xs : list A) : list nat :=
  where_from p 0 xs.

(** [xs[i]] for a non-negative [i]. *)
Definition getitem {A : Type} (xs : list A) (i : nat) : outcome A :=
  match nth_error xs i with
  | Some x => Ok x
  | None => Raise IndexError
  end.

(** [xs[idx]] for an index array [idx]. *)
Fixpoint take {A : Type} (xs : list A) (idx : list nat) : outcome (list A) :=
  match idx with
  | [] => Ok []
  | i :: idx' =>
      x <- getitem xs i ;;
      rest <- take xs idx' ;;
      Ok (x :: rest)
  end.

(** [xs[-1]] *)
Definition getitem_last {A : Type} (xs : list A) : outcome A :=
  match xs with
  | [] => Raise IndexError
  | x :: xs' => Ok (last xs' x)
  end.

Definition Qlt_bool (x y : Q) : bool := negb (Qle_bool y x).

(** [np.argmax]: the index of the first occurrence of the maximum. *)
Fixpoint argmax_from (best : nat) (best_w : Q) (i : nat) (w : list Q) : nat :=
  match w with
  | [] => best
  | x :: w' =>
      if Qlt_bool best_w x then argmax_from i x (S i) w'
      else argmax_from best best_w (S i) w'
  end.

Definition np_argmax (w : list Q) : outcome nat :=
  match w with
  | [] => Raise ValueError
  | x :: w' => Ok (argmax_from 0 x 1 w')
  end.

Definition np_min (ts : list Z) : outcome Z :=
  match ts with
  | [] => Raise ValueError
  | t :: ts' => Ok (fold_left Z.min ts' t)
  end.

Definition np_max (ts : list Z) : outcome Z :=
  match ts with
  | [] => Raise ValueError
  | t :: ts' => Ok (fold_left Z.max ts' t)
  end.

(** A two-dimensional array is its rows and their common length; the array
    that [np.array] makes of no rows is one-dimensional, of shape [(0,)]. *)
Inductive shape : Type :=
| Flat
| Columns (n : nat).

Definition shape_eqb (a b : shape) : bool :=
  match a, b with
  | Flat, Flat => true
  | Columns n, Columns m => (n =? m)%nat
  | _, _ => false
  end.

Record ndarray2 : Type := mkArray { arr_shape : shape; arr_rows : list row }.

(** The [data] property, [np.array(self._data)]; rows of unequal lengths
    do not make an array. *)
Definition data (self : spectrogram) : outcome ndarray2 :=
  match _data self with
  | [] => Ok (mkArray Flat [])
  | r :: rs =>
      if forallb (fun r' => (length r' =? length r)%nat) rs
      then Ok (mkArray (Columns (length r)) (r :: rs))
      else Raise ValueError
  end.

(** [np.concatenate] along the first axis. *)
Definition concatenate_rows (arrays : list ndarray2) : outcome ndarray2 :=
  match arrays with
  | [] => Raise ValueError
  | a :: rest =>
      if forallb (fun b => shape_eqb (arr_shape b) (arr_shape a)) rest
      then Ok (mkArray (arr_shape a) (concat (map arr_rows arrays)))
      else Raise ValueError
  end.

(** [data[match,:]] *)
Definition take_rows (a : ndarray2) (idx : list nat) : outcome (list row) :=
  match arr_shape a with
  | Flat => Raise IndexError
  | Columns _ => take (arr_rows a) idx
  end.

(** [data.shape[-1]] *)
Definition last_dim (a : ndarray2) : nat :=
  match arr_shape a with
  | Flat => 0
  | Columns n => n
  end.

(** ** The combiner: [combine_srs] *)

Definition mismatch (what : string) : exn :=
  RuntimeError
    (String.append "Cannot combine SolarRadioSpectrograph instances - mis-matched frequency "
                   what).

(** The check for a compatible frequency range, [for srs in args]. *)
Fixpoint check_freq_range (freq_range0 : axis) (args : list spectrogram)
  : outcome unit :=
  match args with
  | [] => Ok tt
  | srs :: rest =>
      n <- axis_size (freq_range srs) ;;
      n0 <- axis_size freq_range0 ;;
      if negb (n =? n0)%nat then Raise (mismatch "axis")
      else
        f <- getitem (axis_values (freq_range srs)) 0 ;;
        f0 <- getitem (axis_values freq_range0) 0 ;;
        if negb (Qeq_bool f f0) then Raise (mismatch "start")
        else
          l <- getitem_last (axis_values (freq_range srs)) ;;
          l0 <- getitem_last (axis_values freq_range0) ;;
          if negb (Qeq_bool l l0) then Raise (mismatch "stop")
          else check_freq_range freq_range0 rest
  end.

(** [1 - |t - middle_t| / 86400] *)
Definition weight (middle_t t : Z) : Q :=
  (1 - Qabs (inject_Z t - inject_Z middle_t) / inject_Z 86400)%Q.

(** The per-input lists built by [for i,srs in enumerate(args)]. *)
Record sources_t : Type := mkSources {
  src_data_sources : list (list nat);
  src_time_ranges : list (list Z);
  src_weights : list (list Q);
  src_data : list ndarray2
}.

Fixpoint load (i : nat) (args : list spectrogram) : outcome sources_t :=
  match args with
  | [] => Ok (mkSources [] [] [] [])
  | srs :: rest =>
      let tr := time_range srs in
      middle_t <- getitem tr (length tr / 2) ;;
      d <- data srs ;;
      acc <- load (S i) rest ;;
      Ok (mkSources (repeat i (length tr) :: src_data_sources acc)
                    (tr :: src_time_ranges acc)
                    (map (weight middle_t) tr :: src_weights acc)
                    (d :: src_data acc))
  end.

(** The flat pool after the four [np.concatenate] calls. *)
Record pool_t : Type := mkPool {
  data_sources : list nat;
  time_ranges : list Z;
  weights : list Q;
  pooled : ndarray2
}.

Record walk_t : Type := mkWalk {
  walk_t0 : Z;
  combined_data_sources : list label;
  combined_time_range : list Z;
  combined_data : list row
}.

(** One turn of [while t0 <= t1]. *)
Definition walk_step (p : pool_t) (t1 : Z) (st : walk_t) : outcome (turn walk_t) :=
  let t0 := walk_t0 st in
  if t0 <=? t1 then
    let match_ := np_where (fun t => Z.abs (t - t0) <? 5) (time_ranges p) in
    if (0 <? length match_)%nat then
      s <- take (data_sources p) match_ ;;
      t <- take (time_ranges p) match_ ;;
      w <- take (weights p) match_ ;;
      d <- take_rows (pooled p) match_ ;;
      best <- np_argmax w ;;
      s_best <- getitem s best ;;
      t_best <- getitem t best ;;
      d_best <- getitem d best ;;
      Ok (Next (mkWalk (t0 + 10)
                       (combined_data_sources st ++ [Site s_best])
                       (combined_time_range st ++ [t_best])
                       (combined_data st ++ [d_best])))
    else
      Ok (Next (mkWalk (t0 + 10)
                       (combined_data_sources st ++ [Missing])
                       (combined_time_range st ++ [t0])
                       (combined_data st ++ [repeat NaN (last_dim (pooled p))])))
  else Ok (Done st).

(** The number of grid steps from [t0] to [t1]. *)
Definition grid_steps (t0 t1 : Z) : nat := Z.to_nat ((t1 - t0) / 10 + 1).

(** [combined.site_id] and [combined.site] *)
Fixpoint combined_site_id (i : nat) (args : list spectrogram) : Z :=
  match args with
  | [] => 0
  | srs :: rest => site_id srs * 10 ^ Z.of_nat i + combined_site_id (S i) rest
  end.

Fixpoint drop_last (s : string) : string :=
  match s with
  | EmptyString => EmptyString
  | String c EmptyString => EmptyString
  | String c s' => String c (drop_last s')
  end.

Definition combined_site (args : list spectrogram) : string :=
  drop_last
    (fold_left (fun acc srs => String.append acc (String.append (site srs) "+"))
               args "").

Definition combine_srs (args : list spectrogram) : outcome spectrogram :=
  first <- getitem args 0 ;;
  let freq_range0 := freq_range first in
  _ <- check_freq_range freq_range0 args ;;
  src <- load 0 args ;;
  d <- concatenate_rows (src_data src) ;;
  let p := mkPool (concat (src_data_sources src)) (concat (src_time_ranges src))
                  (concat (src_weights src)) d in
  t0 <- np_min (time_ranges p) ;;
  t1 <- np_max (time_ranges p) ;;
  st <- while (S (grid_steps t0 t1)) (walk_step p t1) (mkWalk t0 [] [] []) ;;
  combined <- __init__ 1 freq_range0 ;;
  Ok (mkSRS (combined_site_id 0 args) (combined_site args) (freq_range combined)
            (combined_time_range st) (combined_data st)
            (Some (combined_data_sources st)) None).

(** ** The store

    [rectify_combined] works on the list object behind [srs._data] and on
    the numpy arrays that list refers to, so both are objects of a store,
    named by their address.  Reading an address outside the store gives an
    empty object; no operation below makes such an address. *)

Definition loc : Type := nat.

Record heap : Type := mkHeap {
  arrays : list row;
  lists : list (list loc)
}.

Definition object : Type := SolarRadioSpectrograph loc.

Definition array_at (h : heap) (a : loc) : row := nth a (arrays h) [].
Definition list_at (h : heap) (l : loc) : list loc := nth l (lists h) [].

Fixpoint update {A : Type} (xs : list A) (i : nat) (x : A) : list A :=
  match xs, i with
  | [], _ => []
  | _ :: xs', O => x :: xs'
  | y :: xs', S i' => y :: update xs' i' x
  end.

(** The rows that a [_data] reference reaches: the power matrix. *)
Definition rows_of (h : heap) (l : loc) : list row :=
  map (array_at h) (list_at h l).

(** [copy.deepcopy] of the list of rows: a new list object of new arrays. *)
Definition deepcopy_data (h : heap) (l : loc) : heap * loc :=
  let rows := rows_of h l in
  let base := length (arrays h) in
  (mkHeap (arrays h ++ rows) (lists h ++ [seq base (length rows)]),
   length (lists h)).

(** ** Medians *)

Fixpoint insert_sorted (x : Q) (xs : list Q) : list Q :=
  match xs with
  | [] => [x]
  | y :: xs' => if Qle_bool x y then x :: y :: xs' else y :: insert_sorted x xs'
  end.

Definition sort (xs : list Q) : list Q := fold_right insert_sorted [] xs.

Fixpoint finite_values (xs : row) : option (list Q) :=
  match xs with
  | [] => Some []
  | Fin q :: xs' =>
      match finite_values xs' with Some qs => Some (q :: qs) | None => None end
  | NaN :: _ => None
  end.

(** [np.median]: not-a-number for no values or when one is; the middle of
    the sorted values, or the mean of the two middle ones. *)
Definition np_median (xs : row) : f64 :=
  match finite_values xs with
  | None => NaN
  | Some [] => NaN
  | Some qs =>
      let sorted := sort qs in
      let n := length qs in
      if Nat.even n
      then Fin (Qred ((nth (n / 2 - 1) sorted 0 + nth (n / 2) sorted 0) / 2))%Q
      else Fin (nth (n / 2) sorted 0%Q)
  end.

(** [r[200:401]] *)
Definition reference_band (r : row) : row := firstn 201 (skipn 200 r).

(** ** Labels *)

Definition isfinite (l : label) : bool :=
  match l with Site _ => true | Missing => false end.

(** [x in processed]: membership by identity or equality.  Two numbers
    are equal when they are the same; [np.nan] equals nothing, but every
    marker written by [combine_srs] is the one object [np.nan], which the
    identity test finds. *)
Definition label_eqb (a b : label) : bool :=
  match a, b with
  | Site i, Site j => (i =? j)%nat
  | Missing, Missing => true
  | _, _ => false
  end.

Definition label_in (x : label) (xs : list label) : bool :=
  existsb (label_eqb x) xs.

(** [np.diff(data_source) != 0]: a difference with a not-a-number on either
    side is not-a-number, which is different from zero. *)
Definition changed (a b : label) : bool :=
  match a, b with
  | Site i, Site j => negb (i =? j)%nat
  | _, _ => true
  end.

Fixpoint changes_nonzero (data_source : list label) : list bool :=
  match data_source with
  | a :: (b :: _) as rest => changed a b :: changes_nonzero rest
  | _ => []
  end.

(** [np.unique]: the distinct values in increasing order. *)
Fixpoint insert_unique (x : nat) (xs : list nat) : list nat :=
  match xs with
  | [] => [x]
  | y :: xs' =>
      if (x <? y)%nat then x :: y :: xs'
      else if (x =? y)%nat then y :: xs'
      else y :: insert_unique x xs'
  end.

Definition np_unique (xs : list nat) : list nat := fold_right insert_unique [] xs.

Fixpoint clean (data_source : list label) : list nat :=
  match data_source with
  | [] => []
  | Site i :: rest => i :: clean rest
  | Missing :: rest => clean rest
  end.

(** [adjustments[key] = value] on a dict kept as an association list. *)
Fixpoint dict_set (d : list (label * f64)) (key : label) (value : f64)
  : list (label * f64) :=
  match d with
  | [] => [(key, value)]
  | (k, v) :: d' =>
      if label_eqb k key then (k, value) :: d' else (k, v) :: dict_set d' key value
  end.

Fixpoint dict_get (d : list (label * f64)) (key : label) : option f64 :=
  match d with
  | [] => None
  | (k, v) :: d' => if label_eqb k key then Some v else dict_get d' key
  end.

(** ** The gain rectifier: [rectify_combined]

    The loop changes [attemps], [processed], [adjustments] and, through
    [_data[i] += ...], the arrays of the store; an exception leaves what
    was changed before it. *)

Record rect_t : Type := mkRect {
  attemps : nat;
  processed : list label;
  adjustments : list (label * f64);
  store : heap
}.

Definition rect (A : Type) : Type := rect_t -> rect_t * outcome A.

Definition rret {A : Type} (a : A) : rect A := fun st => (st, Ok a).

Definition rbind {A B : Type} (m : rect A) (k : A -> rect B) : rect B :=
  fun st =>
    match m st with
    | (st', Ok a) => k a st'
    | (st', Raise e) => (st', Raise e)
    | (st', OutOfFuel) => (st', OutOfFuel)
    end.

Definition lift {A : Type} (o : outcome A) : rect A := fun st => (st, o).

Notation "x <~ m ;; k" := (rbind m (fun x => k))
  (at level 61, m at next level, right associativity).

Definition get_processed : rect (list label) := fun st => (st, Ok (processed st)).

(** [processed.append(s)] and [adjustments[s] = offset] *)
Definition mark_processed (s : label) (offset : f64) : rect unit :=
  fun st =>
    (mkRect (attemps st) (processed st ++ [s])
            (dict_set (adjustments st) s offset) (store st),
     Ok tt).

(** [_data[i]]: the address of row [i]. *)
Definition row_ref (_data : loc) (i : nat) : rect loc :=
  fun st => (st, getitem (list_at (store st) _data) i).

(** [np.median(_data[i][200:401])] *)
Definition band_median (_data : loc) (i : nat) : rect f64 :=
  a <~ row_ref _data i ;;
  fun st => (st, Ok (np_median (reference_band (array_at (store st) a)))).

(** [_data[i] += offset]: the array is updated where it is. *)
Definition iadd (_data : loc) (i : nat) (offset : f64) : rect unit :=
  a <~ row_ref _data i ;;
  fun st =>
    let h := store st in
    let r := map (fun x => f64_add x offset) (array_at h a) in
    (mkRect (attemps st) (processed st) (adjustments st)
            (mkHeap (update (arrays h) a r) (lists h)),
     Ok tt).

Fixpoint iadd_all (_data : loc) (source_set : list nat) (offset : f64) : rect unit :=
  match source_set with
  | [] => rret tt
  | i :: rest => _ <~ iadd _data i offset ;; iadd_all _data rest offset
  end.

(** [len(data_sources)]: the function binds [data_source]; no
    [data_sources] is bound in it or in the module. *)
Definition len_data_sources : rect nat := lift (Raise (NameError "data_sources")).

(** The body of [for s in sources]. *)
Definition adjust (data_source : list label) (_data : loc) (s : nat) : rect unit :=
  done <~ get_processed ;;
  if label_in (Site s) done then rret tt
  else
    let source_set := np_where (label_eqb (Site s)) data_source in
    first <~ lift (getitem source_set 0) ;;
    if (0 <? first)%nat then
      source_before <~ lift (getitem data_source (first - 1)) ;;
      if label_in source_before done then
        bd <~ band_median _data (first - 1) ;;
        cu <~ band_median _data first ;;
        _ <~ iadd_all _data source_set (f64_sub bd cu) ;;
        mark_processed (Site s) (f64_sub bd cu)
      else rret tt
    else
      last_ <~ lift (getitem_last source_set) ;;
      n <~ len_data_sources ;;
      if (last_ <? n - 1)%nat then
        source_after <~ lift (getitem data_source (last_ + 1)) ;;
        if label_in source_after done then
          cu <~ band_median _data last_ ;;
          af <~ band_median _data (last_ + 1) ;;
          _ <~ iadd_all _data source_set (f64_sub af cu) ;;
          mark_processed (Site s) (f64_sub af cu)
        else rret tt
      else rret tt.

Fixpoint scan (data_source : list label) (_data : loc) (sources : list nat)
  : rect unit :=
  match sources with
  | [] => rret tt
  | s :: rest => _ <~ adjust data_source _data s ;; scan data_source _data rest
  end.

Definition stalled : exn := RuntimeError "Failed to adjust all sites, aborting".

(** One turn of [while len(processed) < len(sources)]; [true] goes round
    again. *)
Definition attempt (data_source : list label) (_data : loc) (sources : list nat)
  : rect bool :=
  fun st =>
    if (length (processed st) <? length sources)%nat then
      let st := mkRect (S (attemps st)) (processed st) (adjustments st) (store st) in
      if (5 * length sources <? attemps st)%nat then (st, Raise stalled)
      else
        match scan data_source _data sources st with
        | (st', Ok _) => (st', Ok true)
        | (st', Raise e) => (st', Raise e)
        | (st', OutOfFuel) => (st', OutOfFuel)
        end
    else (st, Ok false).

Fixpoint rect_while (fuel : nat) (body : rect bool) : rect unit :=
  fun st =>
    match fuel with
    | O => (st, OutOfFuel)
    | S fuel' =>
        match body st with
        | (st', Ok true) => rect_while fuel' body st'
        | (st', Ok false) => (st', Ok tt)
        | (st', Raise e) => (st', Raise e)
        | (st', OutOfFuel) => (st', OutOfFuel)
        end
    end.

(** The reference data source:
    [data_source[np.where(changes != 0)[0][0]]]. *)
Definition pick_reference (data_source : list label) : outcome label :=
  i <- getitem (np_where (fun c : bool => c) (changes_nonzero data_source)) 0 ;;
  getitem data_source i.

Definition not_combined : exn :=
  RuntimeError "SolarRadioSpectrograph instance does not appear to be combined".

(** [rectify_combined]: the store it leaves and what it returns.  At most
    [5*len(sources)] turns scan before the turn that raises, so
    [5*len(sources) + 2] turns are enough. *)
Definition rectify_combined (srs : object) (h : heap) : heap * outcome object :=
  match _data_source srs with
  | None => (h, Raise not_combined)
  | Some data_source =>
      let _data := _data srs in
      let sources := np_unique (clean data_source) in
      match pick_reference data_source with
      | Ok ref =>
          match rect_while (5 * length sources + 2)
                           (attempt data_source _data sources)
                           (mkRect 0 [ref] [(ref, Fin 0)] h) with
          | (st, Ok _) =>
              let '(h', copied) := deepcopy_data (store st) _data in
              let new_srs :=
                mkSRS (site_id srs) (site srs) (freq_range srs) (time_range srs)
                      copied (_data_source srs) (_data_adjustments srs) in
              (h', Ok (mkSRS (site_id new_srs) (site new_srs) (freq_range new_srs)
                             (time_range new_srs) _data (_data_source new_srs)
                             (Some (adjustments st))))
          | (st, Raise e) => (store st, Raise e)
          | (st, OutOfFuel) => (store st, OutOfFuel)
          end
      | Raise e => (h, Raise e)
      | OutOfFuel => (h, OutOfFuel)
      end
  end.

(** ** Predicates of the statements *)

(** The frame size: a 24-byte header and two blocks of 401 bytes. *)
Definition frame_size : nat := 24 + 401 + 401.

(** What a header must carry for [frame] to get past it: a site of the
    vocabulary on the first frame, and a calendar date. *)
Definition header_ok (first_frame : bool) (header : list byte) : bool :=
  let header := unpack header_format header in
  (if first_frame
   then match _SITE_ID_TO_NAME (field header 6) with Some _ => true | None => false end
   else true)
  && valid_date (field header 0 + year_offset header) (field header 1)
                (field header 2) (field header 3) (field header 4) (field header 5).

(** Every header that [from_file] reads in a stream of [n] whole frames
    is good: those of the [n] frames, and that of the cut frame behind
    them when 24 bytes of it are there. *)
Fixpoint headers_ok (n : nat) (first_frame : bool) (fh : list byte) : bool :=
  match n with
  | O => (length fh <? 24)%nat || header_ok first_frame (firstn 24 fh)
  | S n' =>
      header_ok first_frame (firstn 24 fh)
      && headers_ok n' false (skipn frame_size fh)
  end.

Fixpoint strictly_increasing (xs : list Q) : bool :=
  match xs with
  | a :: (b :: _) as rest => Qlt_bool a b && strictly_increasing rest
  | _ => true
  end.

(** The invariants of a spectrogram with at least one row: its frequency
    axis is a non-empty array, there is one timestamp per row, and every
    row is as long as the axis. *)
Definition well_formed (srs : spectrogram) : bool :=
  match freq_range srs with
  | PyList _ => false
  | NdArray xs =>
      (0 <? length xs)%nat
      && (0 <? length (time_range srs))%nat
      && (length (_data srs) =? length (time_range srs))%nat
      && forallb (fun r : row => (length r =? length xs)%nat) (_data srs)
  end.

(** Agreement of two frequency axes in length, first value and last
    value. *)
Definition agrees (freq_range0 : axis) (srs : spectrogram) : bool :=
  let xs := axis_values (freq_range srs) in
  let xs0 := axis_values freq_range0 in
  (length xs =? length xs0)%nat
  && Qeq_bool (hd 0%Q xs) (hd 0%Q xs0)
  && Qeq_bool (last xs 0%Q) (last xs0 0%Q).

Definition compatible (args : list spectrogram) : bool :=
  match args with
  | [] => true
  | first :: _ => forallb (agrees (freq_range first)) args
  end.

Definition all_times (args : list spectrogram) : list Z :=
  concat (map time_range args).

(** The reference site in the words of the specification: among the
    rows with a finite label, the label of the first row whose label is
    not that of the row before it. *)
Fixpoint first_change (previous : nat) (finite : list nat) : option nat :=
  match finite with
  | [] => None
  | s :: rest => if (s =? previous)%nat then first_change s rest else Some s
  end.

Definition reference_as_specified (data_source : list label) : option label :=
  match clean data_source with
  | [] => None
  | s :: rest => option_map Site (first_change s rest)
  end.

(** ** Invariants of the combiner *)

(** An input that [load] accepts: it has a row, one timestamp per row,
    and rows of [columns] values. *)
Definition input_ok (columns : nat) (srs : spectrogram) : Prop :=
  time_range srs <> []
  /\ length (_data srs) = length (time_range srs)
  /\ Forall (fun r : row => length r = columns) (_data srs).

Definition has_array (srs : spectrogram) : Prop :=
  exists xs, freq_range srs = NdArray xs.

(** The pool holds one label, one timestamp, one weight and one row of
    [columns] values per sample. *)
Definition pool_ok (p : pool_t) (columns : nat) : Prop :=
  length (data_sources p) = length (time_ranges p)
  /\ length (weights p) = length (time_ranges p)
  /\ length (arr_rows (pooled p)) = length (time_ranges p)
  /\ arr_shape (pooled p) = Columns columns.

(** Output rows against the grid that starts at [t0]: row after row, the
    timestamp is less than 5 s from the grid time; a gap row carries the
    grid time and not-a-numbers, a row of a site the timestamp of a pooled
    sample. *)
Fixpoint on_grid (pool : list Z) (columns : nat) (t0 : Z)
         (labels : list label) (times : list Z) (rows : list row) : Prop :=
  match labels, times, rows with
  | [], [], [] => True
  | l :: labels', t :: times', r :: rows' =>
      Z.abs (t - t0) < 5
      /\ match l with
         | Missing => t = t0 /\ r = repeat NaN columns
         | Site _ => In t pool
         end
      /\ on_grid pool columns (t0 + 10) labels' times' rows'
  | _, _, _ => False
  end.

(** The uniform grid: [n] times, 10 s apart, from [t0]. *)
Fixpoint grid (t0 : Z) (n : nat) : list Z :=
  match n with
  | O => []
  | S n' => t0 :: grid (t0 + 10) n'
  end.

(** ** Invariants of the decoder loop *)

Arguments frequency_list : simpl never.

(** Once a first frame has been read the container has its 802
    frequencies. *)
Definition has_axis (srs : spectrogram) : Prop :=
  exists xs, freq_range srs = NdArray xs /\ length xs = 802%nat.

Definition turn_state {S : Type} (t : turn S) : S :=
  match t with Next s => s | Done s => s end.

(** ** Invariants of the rectifier loop *)

(** Two states with the same bookkeeping: only the arrays may differ. *)
Definition same_books (st st' : rect_t) : Prop :=
  attemps st' = attemps st
  /\ processed st' = processed st
  /\ adjustments st' = adjustments st
  /\ lists (store st') = lists (store st).

(** A visit of site [s] either leaves the bookkeeping alone, or finds [s]
    unprocessed and records it with some offset. *)
Definition visited (s : nat) (st st' : rect_t) : Prop :=
  attemps st' = attemps st
  /\ lists (store st') = lists (store st)
  /\ ((processed st' = processed st /\ adjustments st' = adjustments st)
      \/ (label_in (Site s) (processed st) = false
          /\ processed st' = processed st ++ [Site s]
          /\ exists offset,
               adjustments st' = dict_set (adjustments st) (Site s) offset)).

(** The reference site stays processed, with a zero offset. *)
Definition kept (ref : label) (st : rect_t) : Prop :=
  label_in ref (processed st) = true
  /\ dict_get (adjustments st) ref = Some (Fin 0).

(** ** Sample inputs *)

Definition byte_of_Z (z : Z) : byte :=
  match Byte.of_N (Z.to_N z) with Some b => b | None => x00 end.

(** San Vito, 2024-10-01 04:52:36, bands 25-75 MHz and 75-180 MHz. *)
Definition sample_header : list byte :=
  map byte_of_Z [24; 10; 1; 4; 52; 36; 4; 0;  0; 25; 0; 75; 0; 0;  3; 2;
                 0; 75; 0; 180; 0; 0;  1; 1].

Definition sample_frame : list byte := sample_header ++ repeat (byte_of_Z 7) 802.

(** The same frame with bands 25-75 MHz and 76-180 MHz. *)
Definition apart_frame : list byte :=
  map byte_of_Z [24; 10; 1; 4; 52; 36; 4; 0;  0; 25; 0; 75; 0; 0;  3; 2;
                 0; 76; 0; 180; 0; 0;  1; 1]
  ++ repeat (byte_of_Z 7) 802.

(** Four whole frames and 374 bytes of a fifth: 3 * 1226 bytes. *)
Definition sample_stream : list byte :=
  sample_frame ++ sample_frame ++ sample_frame ++ sample_frame
  ++ firstn 374 sample_frame.

Definition sample_axis : axis := NdArray [25000000; 180000000]%Q.

Definition sample_srs (site_id : Z) (name : string) (times : list Z) (level : Z)
  : spectrogram :=
  mkSRS site_id name sample_axis times
        (map (fun t => [Fin (inject_Z level); Fin (inject_Z level)]) times)
        None None.

(** Two rows of one site, 13 s apart. *)
Definition uneven_srs : spectrogram := sample_srs 4 "San Vito" [0; 13] 7.

(** Two inputs whose axes differ in an interior value only. *)
Definition interior_a : spectrogram :=
  mkSRS 4 "San Vito" (NdArray [25; 75; 180]%Q) [0] [[Fin 1; Fin 2; Fin 3]] None None.
Definition interior_b : spectrogram :=
  mkSRS 3 "Learmonth" (NdArray [25; 80; 180]%Q) [10] [[Fin 4; Fin 5; Fin 6]] None None.

Definition flat_row (level : Z) : row := repeat (Fin (inject_Z level)) 802.

(** A combined spectrogram of two rows, of sites 0 and 1 or of site 0 alone,
    over a store that holds its list of rows at address 0. *)
Definition two_rows : heap := mkHeap [flat_row 5; flat_row 9] [[0; 1]%nat].

Definition combined_of (labels : list label) (times : list Z) : object :=
  mkSRS 34 "San Vito+Learmonth" sample_axis times 0%nat (Some labels) None.

Definition two_sites : object := combined_of [Site 0; Site 1] [0; 10].
Definition one_site : object := combined_of [Site 0; Site 0] [0; 10].

(** Sites 0, 0, 1, 1. *)
Definition four_rows : heap :=
  mkHeap [flat_row 5; flat_row 5; flat_row 9; flat_row 9] [[0; 1; 2; 3]%nat].
Definition late_change : object :=
  combined_of [Site 0; Site 0; Site 1; Site 1] [0; 10; 20; 30].

(** Site 0, a gap, site 2, site 1, site 0: what [combine_srs] makes of
    input 0 with rows at 0 s and 40 s, input 1 with a row at 30 s and
    input 2 with a row at 20 s. *)
Definition five_rows : heap :=
  mkHeap [flat_row 5; repeat NaN 802; flat_row 7; flat_row 9; flat_row 6]
         [[0; 1; 2; 3; 4]%nat].
Definition gap_then_sites : object :=
  combined_of [Site 0; Missing; Site 2; Site 1; Site 0] [0; 10; 20; 30; 40].

(** ** The frames of a stream *)

(** The row and the timestamp that [frame] decodes from the frame at the
    head of a stream. *)
Definition frame_row (fh : list byte) : row :=
  let header := unpack header_format (firstn 24 fh) in
  correct_block (firstn 401 (skipn 24 fh)) (field header 11) (field header 12)
  ++ correct_block (firstn 401 (skipn 401 (skipn 24 fh)))
                   (field header 16) (field header 17).

Definition frame_timestamp (fh : list byte) : Z :=
  let header := unpack header_format (firstn 24 fh) in
  timestamp (mkDatetime (field header 0 + year_offset header) (field header 1)
                        (field header 2) (field header 3) (field header 4)
                        (field header 5)).

(** The rows and the timestamps of the first [n] frames. *)
Fixpoint decoded_rows (n : nat) (fh : list byte) : list row :=
  match n with
  | O => []
  | S n' => frame_row fh :: decoded_rows n' (skipn frame_size fh)
  end.

Fixpoint decoded_times (n : nat) (fh : list byte) : list Z :=
  match n with
  | O => []
  | S n' => frame_timestamp fh :: decoded_times n' (skipn frame_size fh)
  end.

(** The site byte of the first header. *)
Definition first_site (fh : list byte) : Z :=
  field (unpack header_format (firstn 24 fh)) 6.

(** A calibrated power: a whole number from 0 to 3 * 255. *)
Definition calibrated (v : f64) : Prop :=
  exists z, v = Fin (inject_Z z) /\ 0 <= z <= 765.

(** ** The pool of a collection of inputs *)

(** The four pooled arrays, as [combine_srs] builds them from its inputs:
    the index of its input for every sample, the timestamps, the weights
    against the middle timestamp of each input, and the rows. *)
Fixpoint pool_labels (i : nat) (args : list spectrogram) : list nat :=
  match args with
  | [] => []
  | srs :: rest => repeat i (length (time_range srs)) ++ pool_labels (S i) rest
  end.

Definition middle_timestamp (srs : spectrogram) : Z :=
  nth (length (time_range srs) / 2) (time_range srs) 0.

Definition pool_weights (args : list spectrogram) : list Q :=
  concat (map (fun srs => map (weight (middle_timestamp srs)) (time_range srs)) args).

Definition pool_rows (args : list spectrogram) : list row :=
  concat (map _data args).

Definition pool_of (args : list spectrogram) (columns : nat) : pool_t :=
  mkPool (pool_labels 0 args) (all_times args) (pool_weights args)
         (mkArray (Columns columns) (pool_rows args)).

(** One output row against the pool, at grid time [t0]: a gap row when
    no pooled timestamp is less than 5 s away; otherwise the label, the
    timestamp and the row of one pooled sample less than 5 s away, whose
    weight no other such sample exceeds, and no earlier one equals. *)
Definition step_exact (p : pool_t) (columns : nat) (t0 : Z)
           (l : label) (t : Z) (r : row) : Prop :=
  match l with
  | Missing =>
      Forall (fun x => 5 <= Z.abs (x - t0)) (time_ranges p)
      /\ t = t0 /\ r = repeat NaN columns
  | Site s =>
      exists j w,
        nth_error (data_sources p) j = Some s
        /\ nth_error (time_ranges p) j = Some t
        /\ nth_error (weights p) j = Some w
        /\ nth_error (arr_rows (pooled p)) j = Some r
        /\ Z.abs (t - t0) < 5
        /\ forall j' t' w',
             nth_error (time_ranges p) j' = Some t' ->
             Z.abs (t' - t0) < 5 ->
             nth_error (weights p) j' = Some w' ->
             (w' <= w)%Q /\ ((j' < j)%nat -> (w' < w)%Q)
  end.

Fixpoint steps_exact (p : pool_t) (columns : nat) (t0 : Z)
         (labels : list label) (times : list Z) (rows : list row) : Prop :=
  match labels, times, rows with
  | [], [], [] => True
  | l :: labels', t :: times', r :: rows' =>
      step_exact p columns t0 l t r
      /\ steps_exact p columns (t0 + 10) labels' times' rows'
  | _, _, _ => False
  end.

(** A sample of input [s]: the timestamp and the row at one index. *)
Definition sample_of (args : list spectrogram) (s : nat) (t : Z) (r : row) : Prop :=
  exists srs k,
    nth_error args s = Some srs
    /\ nth_error (time_range srs) k = Some t
    /\ nth_error (_data srs) k = Some r.

(** ** Spectrograms in the store *)

(** The object whose attributes are those of a spectrogram and whose
    [_data] is the list object at [l]. *)
Definition as_object (srs : spectrogram) (l : loc) : object :=
  mkSRS (site_id srs) (site srs) (freq_range srs) (time_range srs) l
        (_data_source srs) (_data_adjustments srs).

(** The bookkeeping of the loop when the first label is a site: the
    processed labels are distinct sites among [sources], each with a
    recorded offset. *)
Definition sites_recorded (sources : list nat) (st : rect_t) : Prop :=
  exists done,
    processed st = map Site done
    /\ NoDup done
    /\ incl done sources
    /\ forall s, In s done -> dict_get (adjustments st) (Site s) <> None.

(** A store against an earlier one: the same list objects, the same
    arrays, each of the length it had. *)
Definition same_shape (h h' : heap) : Prop :=
  lists h' = lists h
  /\ length (arrays h') = length (arrays h)
  /\ forall a, length (array_at h' a) = length (array_at h a).

(** A step of the loop that relates the state it leaves to the state it
    finds, whatever its outcome. *)
Definition preserves {A : Type} (R : rect_t -> rect_t -> Prop) (m : rect A) : Prop :=
  forall st st' o, m st = (st', o) -> R st st'.

(** A row of label [lab] after rectification against [ref], from the
    row before it: the row of a gap and of the reference site as it was,
    the row of another site with the offset recorded for the site added
    to every value. *)
Definition row_after (adj : list (label * f64)) (ref lab : label) (r : row) : row :=
  match lab with
  | Missing => r
  | Site _ =>
      if label_eqb lab ref then r
      else match dict_get adj lab with
           | Some offset => map (fun x => f64_add x offset) r
           | None => r
           end
  end.

(** The rows of the list [addresses], labelled by [data_source], in the
    state [st] of the loop, against the store [h0] that the loop started
    from. *)
Definition rows_offset (h0 : heap) (addresses : list loc) (data_source : list label)
           (ref : label) (st : rect_t) : Prop :=
  (forall s, label_in (Site s) (processed st) = false ->
             dict_get (adjustments st) (Site s) = None)
  /\ forall i a lab,
       nth_error addresses i = Some a ->
       nth_error data_source i = Some lab ->
       array_at (store st) a
       = row_after (adjustments st) ref lab (array_at h0 a).

(** ** Site selection of [download_data] (access.py)

    Text is a string of characters below U+0100.  The list of URLs is
    what [check_data_availability] answers from the network; it is an
    argument here, and so is the text of the date in the error message. *)

Definition _NOAA_URL : string :=
  "https://www.ngdc.noaa.gov/stp/space-weather/solar-data/solar-features/solar-radio/rstn-spectral/".

Definition _NOAA_SITES : list (string * string) :=
  [("HO", "holloman");
   ("LM", "learmonth");
   ("PA", "palehua");
   ("KP", "palehua");
   ("K7", "sagamore-hill");
   ("sv", "san-vito")].

Definition _WDC_SITES : list (string * string) := [("LM", "learmonth")].

(** [str.lower] on one character: the capital letters of ASCII and of
    Latin-1 have their small letter 32 places further. *)
Definition lower_char (c : ascii) : ascii :=
  let n := nat_of_ascii c in
  if ((65 <=? n) && (n <=? 90)
      || (192 <=? n) && (n <=? 222) && negb (n =? 215))%nat
  then ascii_of_nat (n + 32) else c.

Fixpoint lower (s : string) : string :=
  match s with
  | EmptyString => EmptyString
  | String c rest => String (lower_char c) (lower rest)
  end.

(** [s.replace(old, new)] for single characters. *)
Fixpoint replace (old new : ascii) (s : string) : string :=
  match s with
  | EmptyString => EmptyString
  | String c rest => String (if Ascii.eqb c old then new else c) (replace old new rest)
  end.

(** [s.find(sub)]: the lowest index where [sub] starts in [s], or -1. *)
Fixpoint find_from (i : Z) (s sub : string) : Z :=
  if prefix sub s then i
  else match s with
       | EmptyString => -1
       | String _ rest => find_from (i + 1) rest sub
       end.

Definition find (s sub : string) : Z := find_from 0 s sub.

(** [sites: Union[List[str], str]] *)
Inductive sites_arg : Type :=
| Name (site : string)
| Names (sites : list string).

(** [if name == lsite: codes_to_keep.append(code); found = True] *)
Definition match_code (lsite : string) (acc : list string * bool)
           (item : string * string) : list string * bool :=
  let '(codes_to_keep, found) := acc in
  let '(code, name) := item in
  if String.eqb name lsite then (codes_to_keep ++ [code], true)
  else (codes_to_keep, found).

(** [for code,name in data_sites.items()] *)
Definition match_codes (lsite : string) (acc : list string * bool)
           (data_sites : list (string * string)) : list string * bool :=
  fold_left (match_code lsite) data_sites acc.

(** [for site in sites], from the codes kept so far. *)
Fixpoint find_codes (sites : list string) (codes_to_keep : list string)
  : outcome (list string) :=
  match sites with
  | [] => Ok codes_to_keep
  | site :: rest =>
      if String.eqb site "all" then
        find_codes rest ((codes_to_keep ++ map fst _NOAA_SITES) ++ map fst _WDC_SITES)
      else
        let lsite := replace " " "-" (lower site) in
        let '(codes_to_keep, found) :=
          fold_left (match_codes lsite) [_NOAA_SITES; _WDC_SITES]
                    (codes_to_keep, false) in
        if found then find_codes rest codes_to_keep else Raise ValueError
  end.

(** [for code in codes_to_keep], with its [break]. *)
Fixpoint weed_url (url : string) (codes_to_keep clean_urls : list string)
  : list string :=
  match codes_to_keep with
  | [] => clean_urls
  | code :: rest =>
      if negb (find url (lower code) =? -1) || negb (find url code =? -1)
      then clean_urls ++ [url]
      else weed_url url rest clean_urls
  end.

(** [for url in urls] *)
Definition weed (urls codes_to_keep : list string) : list string :=
  fold_left (fun clean_urls url => weed_url url codes_to_keep clean_urls) urls [].

(** [download_data] down to the list of URLs it goes on to fetch. *)
Definition download_urls (utc_date : string) (urls : list string)
           (sites : sites_arg) : outcome (list string) :=
  if (length urls =? 0)%nat
  then Raise (RuntimeError (String.append "No data avaliable for " utc_date))
  else
    let sites := match sites with Name site => [site] | Names sites => sites end in
    codes_to_keep <- find_codes sites [] ;;
    Ok (weed urls codes_to_keep).

(** [sub] occurs in [s]. *)
Definition occurs (sub s : string) : Prop :=
  exists pre post, s = String.append pre (String.append sub post).

(** The table entries of both hosts. *)
Definition known_sites : list (string * string) := _NOAA_SITES ++ _WDC_SITES.

(** The name [download_data] looks up for [site]. *)
Definition lsite_of (site : string) : string := replace " " "-" (lower site).

(** ** Further sample inputs *)

(** The sample frame with the site byte 9, a site outside the vocabulary. *)
Definition foreign_frame : list byte :=
  map byte_of_Z [24; 10; 1; 4; 52; 36; 9; 0;  0; 25; 0; 75; 0; 0;  3; 2;
                 0; 75; 0; 180; 0; 0;  1; 1]
  ++ repeat (byte_of_Z 7) 802.

(** A header and 350 bytes of its frame. *)
Definition short_stream : list byte := firstn 374 sample_frame.

(** Rows at 0 s and 20 s, nothing near 10 s. *)
Definition gapped_srs : spectrogram := sample_srs 4 "San Vito" [0; 20] 7.

(** Rows at 0 s, 10 s and 20 s. *)
Definition even_srs : spectrogram := sample_srs 3 "Learmonth" [0; 10; 20] 7.

(** The San Vito file of 2024-10-01 at NOAA. *)
Definition sample_url : string :=
  String.append _NOAA_URL "/san-vito/2024/10/sv241001.SRS.gz".

(** * Properties *)

Ltac inv_pair H := injection H as ? ?; subst.

(** ** The container *)

Lemma check_specs_outcome (specs : list row) (self : spectrogram) :
  check_specs specs self = Ok tt \/ exists e, check_specs specs self = Raise e.
Proof.
  induction specs as [|s specs IH]; simpl.
  - now left.
  - destruct (freq_range self) as [xs|xs]; simpl.
    + right. now eexists.
    + destruct (length s =? length xs)%nat; simpl.
      * exact IH.
      * right. now eexists.
Qed.

(** Whatever it is given, [extend] raises and leaves the container as it
    was. *)
Lemma extend_raises (timestamps : list Z) (specs : list row) (self : spectrogram) :
  exists e, extend timestamps specs self = (self, Raise e).
Proof.
  unfold extend.
  destruct (length timestamps =? length specs)%nat; simpl.
  - destruct (check_specs_outcome specs self) as [E|[e E]]; rewrite E; now eexists.
  - now eexists.
Qed.

(** C9: [extend], given one timestamp and one row as long as the
    frequency axis, appends nothing: it raises [AttributeError] on
    [time_ranges]; given a row of another length it raises [NameError] on
    [data] and not the length error it was building. *)
Theorem extend_matching_row_raises :
  extend [20] [[Fin 1; Fin 2]] uneven_srs
    = (uneven_srs, Raise (AttributeError "time_ranges"))
  /\ extend [20] [[Fin 1]] uneven_srs = (uneven_srs, Raise (NameError "data")).
Proof. split; reflexivity. Qed.

(** ** The decoder on an empty stream *)

(** C10: an empty stream decodes to the placeholder container: no row, no
    timestamp, an empty frequency list, site 1, Palehau. *)
Theorem from_file_empty :
  from_file [] = Ok (mkSRS 1 "Palehau" (PyList []) [] [] None None).
Proof. reflexivity. Qed.

(** ** The rectifier on sample inputs *)

(** C2: on two rows of two sites the rows of the input are changed in the
    store, and what is returned refers to the very list of rows of the
    input. *)
Theorem rectify_changes_its_input :
  exists h' out,
    rectify_combined two_sites two_rows = (h', Ok out)
    /\ rows_of two_rows (_data two_sites) = [flat_row 5; flat_row 9]
    /\ rows_of h' (_data two_sites) = [flat_row 5; flat_row 5]
    /\ _data out = _data two_sites.
Proof.
  destruct (rectify_combined two_sites two_rows) as [h' o] eqn:E.
  vm_compute in E. injection E as <- <-.
  do 2 eexists. split; [reflexivity|]. repeat split; vm_compute; reflexivity.
Qed.

(** C5: two rows of the one site 0, without a gap: no reference site is
    found and [IndexError] is raised. *)
Theorem rectify_single_site_raises :
  rectify_combined one_site two_rows = (two_rows, Raise IndexError).
Proof. vm_compute. reflexivity. Qed.

(** C7: site 1 is followed by a row of the reference site 0, and preceded
    by a row of site 2, which has a gap before it.  Neither is ever
    adjusted, and the rectifier gives up. *)
Theorem rectify_following_row_unused :
  rectify_combined gap_then_sites five_rows = (five_rows, Raise stalled).
Proof. vm_compute. reflexivity. Qed.

(** ** Labels and the reference site *)

Lemma label_eqb_eq (a b : label) : label_eqb a b = true <-> a = b.
Proof.
  destruct a as [i|], b as [j|]; simpl; split; intros E;
    try discriminate; try reflexivity.
  - apply Nat.eqb_eq in E. now subst.
  - injection E as ->. apply Nat.eqb_refl.
Qed.

Lemma label_in_In (x : label) (xs : list label) : label_in x xs = true <-> In x xs.
Proof.
  unfold label_in. rewrite existsb_exists. split.
  - intros [y [Hy E]]. apply label_eqb_eq in E. now subst.
  - intros H. exists x. split; [exact H | now apply label_eqb_eq].
Qed.

Lemma changed_false (a b : label) : changed a b = false -> a = b.
Proof.
  destruct a as [i|], b as [j|]; simpl; try discriminate.
  intros E. apply negb_false_iff, Nat.eqb_eq in E. now subst.
Qed.

Lemma where_from_S {A : Type} (p : A -> bool) (i : nat) (xs : list A) :
  where_from p (S i) xs = map S (where_from p i xs).
Proof.
  revert i. induction xs as [|x xs IH]; intros i; simpl.
  - reflexivity.
  - rewrite IH. now destruct (p x).
Qed.

Lemma where_from_none {A : Type} (p : A -> bool) (i : nat) (xs : list A) :
  forallb (fun x => negb (p x)) xs = true -> where_from p i xs = [].
Proof.
  revert i. induction xs as [|x xs IH]; intros i; simpl.
  - reflexivity.
  - intros H. apply andb_true_iff in H as [Hx Hxs].
    apply negb_true_iff in Hx. rewrite Hx. now apply IH.
Qed.

Lemma changes_nonzero_constant_cons (i n : nat) :
  forallb (fun c : bool => negb c)
          (changes_nonzero (Site i :: repeat (Site i) n)) = true.
Proof.
  induction n as [|n IH].
  - reflexivity.
  - change (forallb (fun c : bool => negb c)
                    (changed (Site i) (Site i)
                     :: changes_nonzero (Site i :: repeat (Site i) n)) = true).
    cbn [forallb]. rewrite IH.
    simpl. now rewrite Nat.eqb_refl.
Qed.

Lemma changes_nonzero_constant (i n : nat) :
  forallb (fun c : bool => negb c) (changes_nonzero (repeat (Site i) n)) = true.
Proof.
  destruct n as [|n].
  - reflexivity.
  - apply changes_nonzero_constant_cons.
Qed.

(** A label sequence that never changes has no reference site. *)
Lemma pick_reference_constant (i n : nat) :
  pick_reference (repeat (Site i) n) = Raise IndexError.
Proof.
  unfold pick_reference, np_where.
  rewrite where_from_none by apply changes_nonzero_constant.
  reflexivity.
Qed.

Lemma changes_nonzero_cons (a b : label) (rest : list label) :
  changes_nonzero (a :: b :: rest) = changed a b :: changes_nonzero (b :: rest).
Proof. reflexivity. Qed.

(** The reference site is the label of the first row. *)
Lemma pick_reference_first (data_source : list label) (ref : label) :
  pick_reference data_source = Ok ref -> hd_error data_source = Some ref.
Proof.
  unfold pick_reference, np_where, getitem. revert ref.
  induction data_source as [|a rest IH]; intros ref.
  - simpl. discriminate.
  - destruct rest as [|b rest].
    + simpl. discriminate.
    + rewrite changes_nonzero_cons. cbn [where_from].
      destruct (changed a b) eqn:C.
      * simpl. now intros [= ->].
      * apply changed_false in C. subst b.
        rewrite where_from_S.
        destruct (where_from (fun c : bool => c) 0 (changes_nonzero (a :: rest)))
          as [|j js] eqn:W.
        -- simpl. discriminate.
        -- intros H. specialize (IH ref).
           simpl in IH. simpl in H. apply IH in H. exact H.
Qed.

Lemma pick_reference_total (data_source : list label) :
  existsb (fun c : bool => c) (changes_nonzero data_source) = true ->
  exists ref, pick_reference data_source = Ok ref.
Proof.
  unfold pick_reference, np_where, getitem.
  induction data_source as [|a rest IH].
  - simpl. discriminate.
  - destruct rest as [|b rest].
    + simpl. discriminate.
    + rewrite changes_nonzero_cons. cbn [where_from existsb].
      destruct (changed a b) eqn:C.
      * intros _. exists a. reflexivity.
      * simpl orb. intros H. apply IH in H as [ref H].
        rewrite where_from_S.
        destruct (where_from (fun c : bool => c) 0 (changes_nonzero (b :: rest)))
          as [|j js] eqn:W.
        -- simpl in H. discriminate.
        -- exists ref. simpl in H. simpl. exact H.
Qed.

(** ** What a scan changes *)

Lemma same_books_refl (st : rect_t) : same_books st st.
Proof. now repeat split. Qed.

Lemma same_books_trans (a b c : rect_t) :
  same_books a b -> same_books b c -> same_books a c.
Proof.
  intros (A1 & A2 & A3 & A4) (B1 & B2 & B3 & B4).
  repeat split; congruence.
Qed.

Lemma iadd_books (_data : loc) (i : nat) (offset : f64) (st st' : rect_t)
      (o : outcome unit) :
  iadd _data i offset st = (st', o) -> same_books st st' /\ o <> OutOfFuel.
Proof.
  unfold iadd, rbind, row_ref, getitem.
  destruct (nth_error (list_at (store st) _data) i); intros H; inv_pair H;
    (split; [now repeat split | discriminate]).
Qed.

Lemma iadd_all_books (_data : loc) (source_set : list nat) (offset : f64)
      (st st' : rect_t) (o : outcome unit) :
  iadd_all _data source_set offset st = (st', o) ->
  same_books st st' /\ o <> OutOfFuel.
Proof.
  revert st. induction source_set as [|i rest IH]; intros st; simpl.
  - unfold rret. intros H. inv_pair H. split; [apply same_books_refl | discriminate].
  - unfold rbind. destruct (iadd _data i offset st) as [st1 o1] eqn:E.
    apply iadd_books in E as [B1 N1].
    destruct o1 as [[]|e|].
    + intros H. apply IH in H as [B2 N2].
      split; [eapply same_books_trans; eassumption | exact N2].
    + intros H. inv_pair H. split; [exact B1 | discriminate].
    + contradiction.
Qed.

Lemma band_median_state (_data : loc) (i : nat) (st st' : rect_t) (o : outcome f64) :
  band_median _data i st = (st', o) -> st' = st /\ o <> OutOfFuel.
Proof.
  unfold band_median, rbind, row_ref, getitem.
  destruct (nth_error (list_at (store st) _data) i); intros H; inv_pair H;
    (split; [reflexivity | discriminate]).
Qed.

Lemma same_books_visited (s : nat) (st st' : rect_t) :
  same_books st st' -> visited s st st'.
Proof. intros (A1 & A2 & A3 & A4). repeat split; auto. Qed.

Lemma lift_state {A : Type} (x : outcome A) (st st' : rect_t) (o : outcome A) :
  lift x st = (st', o) -> st' = st /\ o = x.
Proof. unfold lift. intros H. now inv_pair H. Qed.

Lemma getitem_outcome {A : Type} (xs : list A) (i : nat) :
  getitem xs i <> OutOfFuel.
Proof. unfold getitem. now destruct (nth_error xs i). Qed.

Lemma getitem_last_outcome {A : Type} (xs : list A) :
  getitem_last xs <> OutOfFuel.
Proof. unfold getitem_last. now destruct xs. Qed.

(** The tail of [adjust] once an offset is known. *)
Lemma apply_offset_visited (_data : loc) (source_set : list nat) (s : nat)
      (offset : f64) (st st' : rect_t) (o : outcome unit) :
  label_in (Site s) (processed st) = false ->
  (_ <~ iadd_all _data source_set offset ;; mark_processed (Site s) offset) st
    = (st', o) ->
  visited s st st' /\ o <> OutOfFuel.
Proof.
  intros U. unfold rbind.
  destruct (iadd_all _data source_set offset st) as [st1 o1] eqn:E.
  apply iadd_all_books in E as [(B1 & B2 & B3 & B4) N].
  destruct o1 as [[]|e|].
  - unfold mark_processed. intros H. inv_pair H. split; [|discriminate].
    unfold visited; simpl. repeat split; auto.
    right. rewrite B2, B3. repeat split; auto. now exists offset.
  - intros H. inv_pair H. split; [|discriminate].
    apply same_books_visited. now repeat split.
  - contradiction.
Qed.

Lemma adjust_visited (data_source : list label) (_data : loc) (s : nat)
      (st st' : rect_t) (o : outcome unit) :
  adjust data_source _data s st = (st', o) -> visited s st st' /\ o <> OutOfFuel.
Proof.
  unfold adjust, get_processed. unfold rbind at 1.
  destruct (label_in (Site s) (processed st)) eqn:U.
  { unfold rret. intros H. inv_pair H.
    split; [apply same_books_visited, same_books_refl | discriminate]. }
  unfold rbind at 1.
  destruct (lift (getitem (np_where (label_eqb (Site s)) data_source) 0) st)
    as [st1 o1] eqn:E1.
  apply lift_state in E1 as [-> ->].
  pose proof (getitem_outcome (np_where (label_eqb (Site s)) data_source) 0) as N1.
  destruct (getitem (np_where (label_eqb (Site s)) data_source) 0) as [first|e|];
    [| intros H; inv_pair H;
       split; [apply same_books_visited, same_books_refl | discriminate]
     | contradiction].
  destruct (0 <? first)%nat.
  - unfold rbind at 1.
    destruct (lift (getitem data_source (first - 1)) st) as [st1 o1] eqn:E2.
    apply lift_state in E2 as [-> ->].
    pose proof (getitem_outcome data_source (first - 1)) as N2.
    destruct (getitem data_source (first - 1)) as [source_before|e|];
      [| intros H; inv_pair H;
         split; [apply same_books_visited, same_books_refl | discriminate]
       | contradiction].
    destruct (label_in source_before (processed st)).
    + unfold rbind at 1.
      destruct (band_median _data (first - 1) st) as [st1 o1] eqn:E3.
      apply band_median_state in E3 as [-> N3].
      destruct o1 as [bd|e|];
        [| intros H; inv_pair H;
           split; [apply same_books_visited, same_books_refl | discriminate]
         | contradiction].
      unfold rbind at 1.
      destruct (band_median _data first st) as [st1 o1] eqn:E4.
      apply band_median_state in E4 as [-> N4].
      destruct o1 as [cu|e|];
        [| intros H; inv_pair H;
           split; [apply same_books_visited, same_books_refl | discriminate]
         | contradiction].
      now apply apply_offset_visited.
    + unfold rret. intros H. inv_pair H.
      split; [apply same_books_visited, same_books_refl | discriminate].
  - unfold rbind at 1.
    destruct (lift (getitem_last (np_where (label_eqb (Site s)) data_source)) st)
      as [st1 o1] eqn:E2.
    apply lift_state in E2 as [-> ->].
    pose proof (getitem_last_outcome (np_where (label_eqb (Site s)) data_source)) as N2.
    destruct (getitem_last (np_where (label_eqb (Site s)) data_source)) as [last_|e|];
      [| intros H; inv_pair H;
         split; [apply same_books_visited, same_books_refl | discriminate]
       | contradiction].
    unfold rbind at 1, len_data_sources, lift.
    intros H. inv_pair H.
    split; [apply same_books_visited, same_books_refl | discriminate].
Qed.

Lemma scan_outcome (data_source : list label) (_data : loc) (sources : list nat)
      (st st' : rect_t) (o : outcome unit) :
  scan data_source _data sources st = (st', o) ->
  attemps st' = attemps st /\ o <> OutOfFuel.
Proof.
  revert st. induction sources as [|s rest IH]; intros st; simpl.
  - unfold rret. intros H. inv_pair H. split; [reflexivity | discriminate].
  - unfold rbind.
    destruct (adjust data_source _data s st) as [st1 o1] eqn:E.
    apply adjust_visited in E as [(A & _) N].
    destruct o1 as [[]|e|].
    + intros H. apply IH in H as [A' N']. split; [congruence | exact N'].
    + intros H. inv_pair H. split; [exact A | discriminate].
    + contradiction.
Qed.

(** The bound on the turns of the loop is never what ends it. *)
Lemma rect_while_fuel (data_source : list label) (_data : loc) (sources : list nat)
      (fuel : nat) (st : rect_t) :
  (attemps st <= 5 * length sources)%nat ->
  (5 * length sources + 2 <= fuel + attemps st)%nat ->
  snd (rect_while fuel (attempt data_source _data sources) st) <> OutOfFuel.
Proof.
  revert st. induction fuel as [|fuel IH]; intros st Hle Hfuel.
  - lia.
  - cbn [rect_while]. unfold attempt at 1.
    destruct (length (processed st) <? length sources)%nat; [|simpl; discriminate].
    cbn [attemps].
    destruct (5 * length sources <? S (attemps st))%nat eqn:L; [simpl; discriminate|].
    apply Nat.ltb_ge in L.
    destruct (scan data_source _data sources
                   (mkRect (S (attemps st)) (processed st) (adjustments st) (store st)))
      as [st1 o1] eqn:E.
    apply scan_outcome in E as [A N]. cbn [attemps] in A.
    destruct o1 as [[]|e|]; [| simpl; discriminate | contradiction].
    apply IH; lia.
Qed.

(** ** The offset of the reference site *)

Lemma dict_get_set_other (d : list (label * f64)) (key key' : label) (value : f64) :
  key <> key' -> dict_get (dict_set d key value) key' = dict_get d key'.
Proof.
  intros D. induction d as [|[k v] d IH]; simpl.
  - destruct (label_eqb key key') eqn:E; [|reflexivity].
    apply label_eqb_eq in E. contradiction.
  - destruct (label_eqb k key) eqn:E; simpl.
    + apply label_eqb_eq in E. subst k.
      destruct (label_eqb key key') eqn:E'; [|reflexivity].
      apply label_eqb_eq in E'. contradiction.
    + destruct (label_eqb k key'); [reflexivity | exact IH].
Qed.

Lemma visited_kept (ref : label) (s : nat) (st st' : rect_t) :
  visited s st st' -> kept ref st -> kept ref st'.
Proof.
  intros (_ & _ & [[P A]|(U & P & offset & A)]) [K1 K2]; unfold kept.
  - now rewrite P, A.
  - rewrite P, A. split.
    + unfold label_in in *. rewrite existsb_app, K1. reflexivity.
    + rewrite dict_get_set_other; [exact K2|].
      intros <-. rewrite K1 in U. discriminate.
Qed.

Lemma scan_kept (ref : label) (data_source : list label) (_data : loc)
      (sources : list nat) (st st' : rect_t) (o : outcome unit) :
  scan data_source _data sources st = (st', o) -> kept ref st -> kept ref st'.
Proof.
  revert st. induction sources as [|s rest IH]; intros st; simpl.
  - unfold rret. intros H. now inv_pair H.
  - unfold rbind.
    destruct (adjust data_source _data s st) as [st1 o1] eqn:E.
    apply adjust_visited in E as [V _]. intros H K.
    pose proof (visited_kept ref s st st1 V K) as K1.
    destruct o1 as [[]|e|].
    + eapply IH; eassumption.
    + now inv_pair H.
    + now inv_pair H.
Qed.

Lemma rect_while_kept (ref : label) (data_source : list label) (_data : loc)
      (sources : list nat) (fuel : nat) (st st' : rect_t) (o : outcome unit) :
  rect_while fuel (attempt data_source _data sources) st = (st', o) ->
  kept ref st -> kept ref st'.
Proof.
  revert st. induction fuel as [|fuel IH]; intros st; cbn [rect_while].
  - intros H. now inv_pair H.
  - unfold attempt at 1.
    destruct (length (processed st) <? length sources)%nat;
      [| intros H; now inv_pair H].
    cbn [attemps].
    destruct (5 * length sources <? S (attemps st))%nat;
      [intros H K; inv_pair H; exact K|].
    destruct (scan data_source _data sources
                   (mkRect (S (attemps st)) (processed st) (adjustments st) (store st)))
      as [st1 o1] eqn:E.
    intros H K.
    assert (K1 : kept ref st1) by (eapply scan_kept; [exact E | exact K]).
    destruct o1 as [[]|e|].
    + eapply IH; eassumption.
    + now inv_pair H.
    + now inv_pair H.
Qed.

(** What is returned refers to the list of rows of the input, and carries
    the time axis and the source labels of the input. *)
Lemma rectify_shares_rows (srs out : object) (h h' : heap) :
  rectify_combined srs h = (h', Ok out) ->
  _data out = _data srs
  /\ time_range out = time_range srs
  /\ _data_source out = _data_source srs
  /\ freq_range out = freq_range srs.
Proof.
  unfold rectify_combined.
  destruct (_data_source srs) as [data_source|]; [|discriminate].
  destruct (pick_reference data_source) as [ref|e|]; try discriminate.
  destruct (rect_while _ _ _) as [st [[]|e|]]; try discriminate.
  unfold deepcopy_data. intros H. inv_pair H. now repeat split.
Qed.

(** The bound on the turns never ends [rectify_combined]. *)
Lemma rectify_outcome (srs : object) (h : heap) :
  snd (rectify_combined srs h) <> OutOfFuel.
Proof.
  unfold rectify_combined.
  destruct (_data_source srs) as [data_source|]; [|simpl; discriminate].
  destruct (pick_reference data_source) as [ref|e|] eqn:P; simpl; try discriminate.
  - assert (F : snd (rect_while (5 * length (np_unique (clean data_source)) + 2)
                              (attempt data_source (_data srs)
                                       (np_unique (clean data_source)))
                              (mkRect 0 [ref] [(ref, Fin 0)] h)) <> OutOfFuel)
      by (apply rect_while_fuel; cbn [attemps]; lia).
    destruct (rect_while _ _ _) as [st [[]|e|]]; simpl; try discriminate.
    exfalso. now apply F.
  - unfold pick_reference in P.
    pose proof (getitem_outcome
                  (np_where (fun c : bool => c) (changes_nonzero data_source)) 0) as N.
    destruct (getitem (np_where (fun c : bool => c) (changes_nonzero data_source)) 0)
      as [i|e|]; simpl in P; try discriminate; try contradiction.
    now apply getitem_outcome in P.
Qed.

(** C6, amended: when the label sequence has a change (a gap marker next
    to a row counts as one), the reference site is the label of the rows
    before the first change, which is the label of the first row; a
    rectification that returns records the offset 0.0 for it. *)
Theorem reference_is_first_label (data_source : list label) :
  existsb (fun c : bool => c) (changes_nonzero data_source) = true ->
  exists ref,
    pick_reference data_source = Ok ref
    /\ hd_error data_source = Some ref
    /\ forall (srs out : object) (h h' : heap),
         _data_source srs = Some data_source ->
         rectify_combined srs h = (h', Ok out) ->
         exists adj,
           _data_adjustments out = Some adj /\ dict_get adj ref = Some (Fin 0).
Proof.
  intros C. destruct (pick_reference_total data_source C) as [ref P].
  exists ref. split; [exact P|]. split; [now apply pick_reference_first|].
  intros srs out h h' S. unfold rectify_combined. rewrite S, P.
  destruct (rect_while _ _ _) as [st o] eqn:W.
  apply (rect_while_kept ref) in W.
  - destruct o as [[]|e|]; try discriminate.
    unfold deepcopy_data. intros H. inv_pair H.
    exists (adjustments st). split; [reflexivity | apply W].
  - split; simpl.
    + assert (E : label_eqb ref ref = true) by now apply label_eqb_eq.
      now rewrite E.
    + assert (E : label_eqb ref ref = true) by now apply label_eqb_eq.
      now rewrite E.
Qed.

(** The rows of sites 0, 0, 1, 1 have a change, and the reference is 0. *)
Lemma reference_is_first_label_witness :
  existsb (fun c : bool => c)
          (changes_nonzero [Site 0; Site 0; Site 1; Site 1]) = true
  /\ exists ref,
       pick_reference [Site 0; Site 0; Site 1; Site 1] = Ok ref
       /\ hd_error [Site 0; Site 0; Site 1; Site 1] = Some ref
       /\ forall (srs out : object) (h h' : heap),
            _data_source srs = Some [Site 0; Site 0; Site 1; Site 1] ->
            rectify_combined srs h = (h', Ok out) ->
            exists adj,
              _data_adjustments out = Some adj /\ dict_get adj ref = Some (Fin 0).
Proof.
  split; [reflexivity|].
  apply (reference_is_first_label [Site 0; Site 0; Site 1; Site 1]).
  reflexivity.
Defined.

(** C6 as stated fails: for rows of sites 0, 0, 1, 1 the site after the
    change is 1, and the rectifier takes 0 as its reference and gives
    site 1 the offset -4; and a gap inside the rows of one site makes a
    reference where no label changes. *)
Lemma reference_precedes_change :
  reference_as_specified [Site 0; Site 0; Site 1; Site 1] = Some (Site 1)
  /\ pick_reference [Site 0; Site 0; Site 1; Site 1] = Ok (Site 0)
  /\ (exists h' out,
        rectify_combined late_change four_rows = (h', Ok out)
        /\ _data_adjustments out = Some [(Site 0, Fin 0); (Site 1, Fin (-4))])
  /\ reference_as_specified [Site 0; Missing; Site 0] = None
  /\ pick_reference [Site 0; Missing; Site 0] = Ok (Site 0).
Proof.
  split; [reflexivity|]. split; [reflexivity|]. split; [|split; reflexivity].
  destruct (rectify_combined late_change four_rows) as [h' o] eqn:E.
  vm_compute in E. injection E as <- <-.
  do 2 eexists. split; reflexivity.
Qed.

(** ** Runs that start after the first row *)

(** When the row before the run of an unprocessed site is not of a
    processed site, the visit does nothing, whatever follows the run. *)
Lemma adjust_ignores_following_row (data_source : list label) (_data : loc)
      (s first : nat) (source_before : label) (st : rect_t) :
  label_in (Site s) (processed st) = false ->
  getitem (np_where (label_eqb (Site s)) data_source) 0 = Ok first ->
  (0 < first)%nat ->
  getitem data_source (first - 1) = Ok source_before ->
  label_in source_before (processed st) = false ->
  adjust data_source _data s st = (st, Ok tt).
Proof.
  intros U F P B N.
  unfold adjust, get_processed. unfold rbind at 1. rewrite U.
  unfold rbind at 1, lift. rewrite F.
  apply Nat.ltb_lt in P. rewrite P.
  unfold rbind at 1. rewrite B. rewrite N. reflexivity.
Qed.

(** A run that starts at the first row, of a site not yet processed, ends
    the visit with [NameError]. *)
Lemma adjust_first_run_raises (data_source : list label) (_data : loc)
      (s : nat) (st : rect_t) :
  label_in (Site s) (processed st) = false ->
  hd_error data_source = Some (Site s) ->
  adjust data_source _data s st = (st, Raise (NameError "data_sources")).
Proof.
  intros U F. destruct data_source as [|a rest]; [discriminate|].
  injection F as ->.
  unfold adjust, get_processed. unfold rbind at 1. rewrite U.
  unfold np_where. cbn [where_from]. cbn [label_eqb]. rewrite Nat.eqb_refl.
  unfold rbind at 1, lift. cbn [getitem nth_error].
  cbn [Nat.ltb Nat.leb]. unfold rbind at 1. cbn [getitem_last].
  unfold rbind at 1, len_data_sources, lift. reflexivity.
Qed.

(** A spectrogram of one site and no gap is not rectified. *)
Lemma rectify_constant_labels (srs : object) (h : heap) (i n : nat) :
  _data_source srs = Some (repeat (Site i) n) ->
  rectify_combined srs h = (h, Raise IndexError).
Proof.
  intros S. unfold rectify_combined. rewrite S, pick_reference_constant.
  reflexivity.
Qed.

(** ** The decoder, frame by frame *)

Lemma linspace_two_more (start stop : Q) (n : nat) :
  linspace start stop (S (S n))
  = map (fun i => (inject_Z (Z.of_nat i)
                   * ((stop - start) / inject_Z (Z.of_nat (S n))) + start)%Q)
        (seq 0 (S n)) ++ [stop].
Proof. reflexivity. Qed.

Lemma linspace_length (start stop : Q) (num : nat) :
  length (linspace start stop num) = num.
Proof.
  destruct num as [|[|n]]; try reflexivity.
  rewrite linspace_two_more, length_app, length_map, length_seq. simpl. lia.
Qed.

Lemma frequency_list_length (header : list Z) :
  length (frequency_list header) = 802%nat.
Proof.
  unfold frequency_list, to_Hz.
  rewrite length_map, length_app, !linspace_length. reflexivity.
Qed.

Lemma append_row (timestamp : Z) (spec : row) (self : spectrogram) (xs : list Q) :
  freq_range self = NdArray xs ->
  length spec = length xs ->
  append timestamp spec self
  = (mkSRS (site_id self) (site self) (freq_range self)
           (time_range self ++ [timestamp]) (_data self ++ [spec])
           (_data_source self) (_data_adjustments self),
     Ok tt).
Proof.
  intros F L. unfold append. rewrite F. simpl axis_size. cbv iota.
  rewrite L, Nat.eqb_refl. reflexivity.
Qed.

Lemma header_ok_site (header : list byte) :
  header_ok true header = true ->
  exists name, site_name (field (unpack header_format header) 6) = Ok name.
Proof.
  unfold header_ok, site_name. intros H. apply andb_true_iff in H as [H _].
  destruct (_SITE_ID_TO_NAME _) as [name|]; [now exists name | discriminate].
Qed.

Lemma header_ok_datetime (first_frame : bool) (header : list byte) :
  header_ok first_frame header = true ->
  exists dt, header_datetime (unpack header_format header) = Ok dt.
Proof.
  unfold header_ok, header_datetime, datetime. intros H.
  apply andb_true_iff in H as [_ H]. rewrite H. now eexists.
Qed.

Lemma correct_block_length (block : list byte) (ref atten : Z) :
  length (correct_block block ref atten) = length block.
Proof. unfold correct_block. apply length_map. Qed.

(** A whole frame with a good header adds one row and one timestamp. *)
Lemma frame_whole (srs : spectrogram) (first_frame : bool) (fh : list byte) :
  (frame_size <= length fh)%nat ->
  header_ok first_frame (firstn 24 fh) = true ->
  (first_frame = false -> has_axis srs) ->
  exists srs',
    frame (srs, first_frame, fh) = Ok (Next (srs', false, skipn frame_size fh))
    /\ length (_data srs') = S (length (_data srs))
    /\ length (time_range srs') = S (length (time_range srs))
    /\ has_axis srs'.
Proof.
  unfold frame_size. intros L H A.
  destruct (header_ok_datetime first_frame (firstn 24 fh) H) as [dt D].
  assert (L0 : length (firstn 24 fh) = 24%nat) by (apply firstn_length_le; lia).
  assert (L1 : length (firstn 401 (skipn 24 fh)) = 401%nat)
    by (apply firstn_length_le; rewrite length_skipn; lia).
  assert (L2 : length (firstn 401 (skipn 401 (skipn 24 fh))) = 401%nat)
    by (apply firstn_length_le; rewrite !length_skipn; lia).
  assert (K : skipn 401 (skipn 401 (skipn 24 fh)) = skipn (24 + 401 + 401) fh)
    by (rewrite !skipn_skipn; reflexivity).
  unfold frame. cbv beta iota delta [read].
  rewrite L0. change (24 <? 24)%nat with false. cbv iota.
  assert (S' : exists srs0,
             (if first_frame
              then srs1 <- save_first_frame (unpack header_format (firstn 24 fh)) srs ;;
                   Ok (srs1, false)
              else Ok (srs, first_frame)) = Ok (srs0, false)
             /\ _data srs0 = _data srs /\ time_range srs0 = time_range srs
             /\ has_axis srs0).
  { destruct first_frame.
    - destruct (header_ok_site (firstn 24 fh) H) as [name N].
      unfold save_first_frame. rewrite N. cbn [bind].
      eexists. split; [reflexivity|]. cbn [_data time_range freq_range].
      repeat split. eexists. split; [reflexivity | apply frequency_list_length].
    - exists srs. repeat split. now apply A. }
  destruct S' as (srs0 & -> & E1 & E2 & xs & F & Lx).
  cbn [bind]. rewrite D. cbn [bind].
  rewrite L1, L2. change (401 <? 401)%nat with false. cbv iota.
  rewrite (append_row _ _ _ xs F)
    by (rewrite length_app, !correct_block_length, L1, L2, Lx; reflexivity).
  rewrite K. eexists. split; [reflexivity|].
  cbn [_data time_range freq_range]. rewrite !length_app, E1, E2. simpl.
  repeat split; try lia. exists xs. now split.
Qed.

(** A cut frame adds nothing. *)
Lemma frame_cut (srs : spectrogram) (first_frame : bool) (fh : list byte) :
  (length fh < frame_size)%nat ->
  (length fh <? 24)%nat || header_ok first_frame (firstn 24 fh) = true ->
  exists srs' first_frame' fh',
    frame (srs, first_frame, fh) = Ok (Done (srs', first_frame', fh'))
    /\ _data srs' = _data srs
    /\ time_range srs' = time_range srs.
Proof.
  unfold frame_size. intros L H.
  unfold frame. cbv beta iota delta [read].
  destruct (length fh <? 24)%nat eqn:L0.
  - apply Nat.ltb_lt in L0. rewrite firstn_all2 by lia.
    apply Nat.ltb_lt in L0. rewrite L0. now do 3 eexists.
  - simpl in H. apply Nat.ltb_ge in L0.
    rewrite firstn_length_le by lia. change (24 <? 24)%nat with false. cbv iota.
    destruct (header_ok_datetime first_frame (firstn 24 fh) H) as [dt D].
    assert (S' : exists srs0 first0,
               (if first_frame
                then srs1 <- save_first_frame (unpack header_format (firstn 24 fh)) srs ;;
                     Ok (srs1, false)
                else Ok (srs, first_frame)) = Ok (srs0, first0)
               /\ _data srs0 = _data srs /\ time_range srs0 = time_range srs).
    { destruct first_frame.
      - destruct (header_ok_site (firstn 24 fh) H) as [name N].
        unfold save_first_frame. rewrite N. cbn [bind].
        do 2 eexists. split; [reflexivity|]. now split.
      - exists srs, false. now repeat split. }
    destruct S' as (srs0 & first0 & -> & E1 & E2).
    cbn [bind]. rewrite D. cbn [bind].
    destruct (length (firstn 401 (skipn 24 fh)) <? 401)%nat eqn:L1.
    + now do 3 eexists.
    + apply Nat.ltb_ge in L1. rewrite length_firstn, length_skipn in L1.
      assert (L2 : (length (firstn 401 (skipn 401 (skipn 24 fh))) <? 401)%nat = true)
        by (apply Nat.ltb_lt; rewrite length_firstn, !length_skipn; lia).
      rewrite L2. now do 3 eexists.
Qed.

(** The loop over a stream of [n] whole frames and less than one more. *)
Lemma while_frames (n fuel : nat) (srs : spectrogram) (first_frame : bool)
      (fh : list byte) :
  (frame_size * n <= length fh < frame_size * n + frame_size)%nat ->
  headers_ok n first_frame fh = true ->
  (n < fuel)%nat ->
  (first_frame = false -> has_axis srs) ->
  exists srs' first_frame' fh',
    while fuel frame (srs, first_frame, fh) = Ok (srs', first_frame', fh')
    /\ length (_data srs') = (length (_data srs) + n)%nat
    /\ length (time_range srs') = (length (time_range srs) + n)%nat.
Proof.
  revert fuel srs first_frame fh.
  induction n as [|n IH]; intros fuel srs first_frame fh L H F A.
  - destruct fuel as [|fuel]; [lia|]. cbn [while].
    destruct (frame_cut srs first_frame fh) as (srs' & f' & fh' & -> & E1 & E2).
    + lia.
    + exact H.
    + exists srs', f', fh'. rewrite E1, E2. repeat split; lia.
  - destruct fuel as [|fuel]; [lia|]. cbn [while].
    cbn [headers_ok] in H. apply andb_true_iff in H as [H0 H].
    destruct (frame_whole srs first_frame fh) as (srs1 & -> & E1 & E2 & A1);
      [lia | exact H0 | exact A |].
    destruct (IH fuel srs1 false (skipn frame_size fh))
      as (srs' & f' & fh' & W & R1 & R2).
    + rewrite length_skipn. lia.
    + exact H.
    + lia.
    + intros _. exact A1.
    + exists srs', f', fh'. split; [exact W|]. rewrite R1, R2, E1, E2. lia.
Qed.

(** C3, amended: a stream of [n] whole frames of 826 bytes, alone or
    followed by less than a frame, whose headers carry a site of the
    vocabulary (the first) and calendar dates, decodes without an error to
    exactly [n] rows and [n] timestamps. *)
Theorem from_file_rows (fh : list byte) (n : nat) :
  (frame_size * n <= length fh < frame_size * n + frame_size)%nat ->
  headers_ok n true fh = true ->
  exists srs,
    from_file fh = Ok srs
    /\ length (_data srs) = n
    /\ length (time_range srs) = n.
Proof.
  intros L H. unfold from_file. cbn [__init__ site_name _SITE_ID_TO_NAME bind].
  destruct (while_frames n (S (length fh))
                         (mkSRS 1 "Palehau" (PyList []) [] [] None None) true fh)
    as (srs & f & fh' & -> & E1 & E2).
  - exact L.
  - exact H.
  - unfold frame_size in L. lia.
  - discriminate.
  - cbn [bind]. exists srs. now repeat split.
Qed.

(** Four whole frames and 374 bytes of a fifth decode to four rows. *)
Lemma from_file_rows_witness :
  (frame_size * 4 <= length sample_stream < frame_size * 4 + frame_size)%nat
  /\ headers_ok 4 true sample_stream = true
  /\ exists srs,
       from_file sample_stream = Ok srs
       /\ length (_data srs) = 4%nat
       /\ length (time_range srs) = 4%nat.
Proof.
  assert (L : (frame_size * 4 <= length sample_stream
               < frame_size * 4 + frame_size)%nat).
  { split; [apply Nat.leb_le | apply Nat.ltb_lt]; vm_compute; reflexivity. }
  assert (H : headers_ok 4 true sample_stream = true) by (vm_compute; reflexivity).
  split; [exact L|]. split; [exact H|].
  exact (from_file_rows sample_stream 4 L H).
Defined.

(** C3 as stated fails: a stream of 3 * 1226 bytes holds four frames of
    826 bytes and decodes to four rows, not three. *)
Lemma three_times_1226_bytes_four_rows :
  length sample_stream = (3 * 1226)%nat
  /\ exists srs,
       from_file sample_stream = Ok srs
       /\ length (_data srs) = 4%nat
       /\ length (_data srs) <> 3%nat.
Proof.
  split; [vm_compute; reflexivity|].
  destruct (from_file sample_stream) as [srs|e|] eqn:E;
    [| vm_compute in E; discriminate | vm_compute in E; discriminate].
  exists srs. split; [reflexivity|].
  vm_compute in E. injection E as <-. split; [reflexivity | discriminate].
Qed.

(** A header with a site outside the vocabulary, or with no calendar
    date, does raise. *)
Lemma from_file_bad_header :
  from_file (repeat x00 1226) = Raise (KeyError 0)
  /\ from_file (map byte_of_Z [24; 13; 1; 0; 0; 0; 4; 0] ++ repeat x00 818)
     = Raise ValueError.
Proof. split; vm_compute; reflexivity. Qed.

(** ** The frequency axis *)

Lemma Qlt_bool_iff (x y : Q) : Qlt_bool x y = true <-> (x < y)%Q.
Proof.
  unfold Qlt_bool. rewrite negb_true_iff. split.
  - intros H. apply Qnot_le_lt. intros L. apply Qle_bool_iff in L. congruence.
  - intros H. destruct (Qle_bool y x) eqn:E; [|reflexivity].
    apply Qle_bool_iff in E. apply Qlt_not_le in H. contradiction.
Qed.

Lemma increasing_cons (a b : Q) (rest : list Q) :
  strictly_increasing (a :: b :: rest)
  = Qlt_bool a b && strictly_increasing (b :: rest).
Proof. reflexivity. Qed.

Lemma increasing_app (xs ys : list Q) :
  strictly_increasing xs = true ->
  strictly_increasing ys = true ->
  (forall y, xs <> [] -> hd_error ys = Some y -> (last xs 0 < y)%Q) ->
  strictly_increasing (xs ++ ys) = true.
Proof.
  induction xs as [|a xs IH]; intros X Y B.
  - exact Y.
  - destruct xs as [|b xs].
    + destruct ys as [|y ys]; [reflexivity|].
      change ([a] ++ y :: ys) with (a :: y :: ys).
      rewrite increasing_cons, Y, andb_true_r.
      apply Qlt_bool_iff. now apply (B y).
    + change ((a :: b :: xs) ++ ys) with (a :: b :: (xs ++ ys)).
      rewrite increasing_cons in *. apply andb_true_iff in X as [X1 X2].
      rewrite X1. apply IH; [exact X2 | exact Y |].
      intros y _ Hy. apply (B y); [discriminate | exact Hy].
Qed.

Lemma increasing_map_seq (g : nat -> Q) (a n : nat) :
  (forall i, (g i < g (S i))%Q) ->
  strictly_increasing (map g (seq a n)) = true.
Proof.
  intros G. revert a. induction n as [|n IH]; intros a.
  - reflexivity.
  - destruct n as [|n]; [reflexivity|].
    change (map g (seq a (S (S n)))) with (g a :: g (S a) :: map g (seq (S (S a)) n)).
    rewrite increasing_cons. specialize (IH (S a)).
    change (map g (seq (S a) (S n))) with (g (S a) :: map g (seq (S (S a)) n)) in IH.
    rewrite IH, andb_true_r. apply Qlt_bool_iff, G.
Qed.

Lemma increasing_scale (c : Q) (xs : list Q) :
  (0 < c)%Q ->
  strictly_increasing xs = true ->
  strictly_increasing (map (fun f => (f * c)%Q) xs) = true.
Proof.
  intros C. induction xs as [|a xs IH]; [reflexivity|].
  destruct xs as [|b xs]; [reflexivity|].
  change (map (fun f => (f * c)%Q) (a :: b :: xs))
    with ((a * c)%Q :: map (fun f => (f * c)%Q) (b :: xs)).
  change (map (fun f => (f * c)%Q) (b :: xs))
    with ((b * c)%Q :: map (fun f => (f * c)%Q) xs) at 1.
  rewrite !increasing_cons. intros H. apply andb_true_iff in H as [H1 H2].
  change ((b * c)%Q :: map (fun f => (f * c)%Q) xs)
    with (map (fun f => (f * c)%Q) (b :: xs)).
  rewrite (IH H2), andb_true_r.
  apply Qlt_bool_iff. apply Qlt_bool_iff in H1.
  now apply Qmult_lt_r.
Qed.

Lemma last_cons_cons {A : Type} (a b d : A) (l : list A) :
  last (a :: b :: l) d = last (b :: l) d.
Proof. reflexivity. Qed.

Lemma last_map_seq (g : nat -> Q) (a n : nat) (d : Q) :
  last (map g (seq a (S n))) d = g (a + n)%nat.
Proof.
  revert a. induction n as [|n IH]; intros a.
  - simpl. now rewrite Nat.add_0_r.
  - change (map g (seq a (S (S n)))) with (g a :: map g (seq (S a) (S n))).
    change (map g (seq (S a) (S n))) with (g (S a) :: map g (seq (S (S a)) n)) at 1.
    rewrite last_cons_cons.
    change (g (S a) :: map g (seq (S (S a)) n)) with (map g (seq (S a) (S n))).
    rewrite IH. f_equal. lia.
Qed.

Lemma inject_Z_succ (i : nat) :
  (inject_Z (Z.of_nat (S i)) == inject_Z (Z.of_nat i) + 1)%Q.
Proof. rewrite Nat2Z.inj_succ. unfold Z.succ. now rewrite inject_Z_plus. Qed.

Lemma inject_Z_nat_pos (n : nat) : (0 < inject_Z (Z.of_nat (S n)))%Q.
Proof.
  change 0%Q with (inject_Z 0). rewrite <- Zlt_Qlt. lia.
Qed.

(** A sweep from a lower to a higher frequency is strictly increasing. *)
Lemma linspace_increasing (start stop : Q) (n : nat) :
  (start < stop)%Q ->
  strictly_increasing (linspace start stop (S (S n))) = true.
Proof.
  intros H. rewrite linspace_two_more.
  pose proof (inject_Z_nat_pos n) as D.
  set (div := inject_Z (Z.of_nat (S n))) in *.
  set (step := ((stop - start) / div)%Q).
  assert (P : (0 < step)%Q).
  { unfold step. apply Qlt_shift_div_l; [exact D | lra]. }
  assert (M : (div * step == stop - start)%Q).
  { unfold step. apply Qmult_div_r. lra. }
  apply increasing_app.
  - apply increasing_map_seq. intros i. rewrite inject_Z_succ. lra.
  - reflexivity.
  - intros y _ [= <-]. rewrite last_map_seq. cbn [Nat.add].
    unfold div in M. rewrite inject_Z_succ in M. nra.
Qed.

Lemma frequency_list_increasing (header : list Z) :
  field header 8 < field header 9 ->
  field header 9 < field header 13 ->
  field header 13 < field header 14 ->
  strictly_increasing (frequency_list header) = true.
Proof.
  intros H1 H2 H3. rewrite Zlt_Qlt in H1, H2, H3.
  unfold frequency_list, to_Hz.
  apply increasing_scale; [reflexivity|].
  change 401%nat with (S (S 399)).
  apply increasing_app.
  - now apply linspace_increasing.
  - now apply linspace_increasing.
  - intros y _. rewrite !linspace_two_more, last_last.
    change (seq 0 (S 399)) with (0%nat :: seq 1 399).
    cbn [map app hd_error]. intros [= <-].
    change (inject_Z (Z.of_nat 0)) with 0%Q.
    rewrite Qmult_0_l, Qplus_0_l. exact H2.
Qed.

Lemma append_axis (timestamp : Z) (spec : row) (self self' : spectrogram)
      (o : outcome unit) :
  append timestamp spec self = (self', o) -> freq_range self' = freq_range self.
Proof.
  unfold append. destruct (axis_size (freq_range self)) as [n|e|].
  - destruct (negb (length spec =? n)%nat); intros H; now inv_pair H.
  - intros H. now inv_pair H.
  - intros H. now inv_pair H.
Qed.

(** A first frame sets the frequencies from its header; later frames
    leave them. *)
Lemma frame_axis (srs : spectrogram) (first_frame : bool) (fh : list byte)
      (t : turn decoder_state) :
  frame (srs, first_frame, fh) = Ok t ->
  (first_frame = false ->
   freq_range (fst (fst (turn_state t))) = freq_range srs
   /\ snd (fst (turn_state t)) = false)
  /\ (first_frame = true -> (24 <= length fh)%nat ->
      freq_range (fst (fst (turn_state t)))
      = NdArray (frequency_list (unpack header_format (firstn 24 fh)))
      /\ snd (fst (turn_state t)) = false).
Proof.
  unfold frame. cbv beta iota delta [read].
  destruct (length (firstn 24 fh) <? 24)%nat eqn:L0.
  { intros [= <-]. cbn [turn_state fst snd]. split.
    - intros ->. now split.
    - intros _ L. apply Nat.ltb_lt in L0. rewrite firstn_length_le in L0; lia. }
  assert (S' : forall r,
             (if first_frame
              then srs1 <- save_first_frame (unpack header_format (firstn 24 fh)) srs ;;
                   Ok (srs1, false)
              else Ok (srs, first_frame)) = Ok r ->
             snd r = false
             /\ (first_frame = false -> freq_range (fst r) = freq_range srs)
             /\ (first_frame = true ->
                 freq_range (fst r)
                 = NdArray (frequency_list (unpack header_format (firstn 24 fh))))).
  { intros r. destruct first_frame.
    - unfold save_first_frame. destruct (site_name _) as [name|e|]; try discriminate.
      cbn [bind]. intros [= <-]. cbn [fst snd freq_range]. now repeat split.
    - intros [= <-]. now repeat split. }
  destruct (if first_frame
            then srs1 <- save_first_frame (unpack header_format (firstn 24 fh)) srs ;;
                 Ok (srs1, false)
            else Ok (srs, first_frame)) as [[srs0 first0]|e|]; try discriminate.
  destruct (S' _ eq_refl) as (F0 & A0 & A1). cbn [fst snd] in F0, A0, A1. subst first0.
  cbn [bind]. destruct (header_datetime _) as [dt|e|]; try discriminate.
  cbn [bind].
  assert (G : forall (srs' : spectrogram) (fh' : list byte),
             freq_range srs' = freq_range srs0 ->
             forall t' : turn decoder_state,
             turn_state t' = (srs', false, fh') ->
             (first_frame = false ->
              freq_range (fst (fst (turn_state t'))) = freq_range srs
              /\ snd (fst (turn_state t')) = false)
             /\ (first_frame = true -> (24 <= length fh)%nat ->
                 freq_range (fst (fst (turn_state t')))
                 = NdArray (frequency_list (unpack header_format (firstn 24 fh)))
                 /\ snd (fst (turn_state t')) = false)).
  { intros srs' fh' E t' ->. cbn [fst snd]. rewrite E. split.
    - intros Hf. split; [now apply A0 | reflexivity].
    - intros Hf _. split; [now apply A1 | reflexivity]. }
  destruct (length (firstn 401 (skipn 24 fh)) <? 401)%nat.
  { intros [= <-]. now apply (G srs0 (skipn 401 (skipn 24 fh))). }
  destruct (length (firstn 401 (skipn 401 (skipn 24 fh))) <? 401)%nat.
  { intros [= <-]. now apply (G srs0 (skipn 401 (skipn 401 (skipn 24 fh)))). }
  destruct (append _ _ srs0) as [srs1 o] eqn:Ap.
  apply append_axis in Ap.
  destruct o as [[]|e|]; try discriminate.
  intros [= <-]. now apply (G srs1 (skipn 401 (skipn 401 (skipn 24 fh)))).
Qed.

Lemma while_frame_axis (fuel : nat) (srs : spectrogram) (first_frame : bool)
      (fh : list byte) (res : decoder_state) :
  while fuel frame (srs, first_frame, fh) = Ok res ->
  (first_frame = false -> freq_range (fst (fst res)) = freq_range srs)
  /\ (first_frame = true -> (24 <= length fh)%nat ->
      freq_range (fst (fst res))
      = NdArray (frequency_list (unpack header_format (firstn 24 fh)))).
Proof.
  revert srs first_frame fh.
  induction fuel as [|fuel IH]; intros srs first_frame fh; cbn [while].
  - discriminate.
  - destruct (frame (srs, first_frame, fh)) as [t|e|] eqn:F; try discriminate.
    apply frame_axis in F as [F0 F1].
    destruct t as [[[srs1 first1] fh1]|[[srs1 first1] fh1]];
      cbn [turn_state fst snd] in F0, F1.
    + intros W. apply IH in W as [W0 _]. split.
      * intros Hf. destruct (F0 Hf) as [E ->]. now rewrite W0.
      * intros Hf L. destruct (F1 Hf L) as [E ->]. now rewrite W0.
    + intros [= <-]. cbn [fst snd]. split.
      * intros Hf. now apply F0.
      * intros Hf L. now apply F1.
Qed.

(** C4, amended: once a header has been read, the frequency axis is the
    802 values of the two 401-point sweeps of the first header, band 1
    then band 2, times 1e6; it is strictly increasing when band 1 starts
    below its end, band 2 starts above the end of band 1, and band 2
    starts below its end. *)
Theorem frequency_axis_of_first_header (fh : list byte) (srs : spectrogram) :
  (24 <= length fh)%nat ->
  from_file fh = Ok srs ->
  let header := unpack header_format (firstn 24 fh) in
  let f1B := field header 8 in
  let f1E := field header 9 in
  let f2B := field header 13 in
  let f2E := field header 14 in
  freq_range srs
  = NdArray (to_Hz (linspace (inject_Z f1B) (inject_Z f1E) 401
                    ++ linspace (inject_Z f2B) (inject_Z f2E) 401))
  /\ length (axis_values (freq_range srs)) = 802%nat
  /\ (f1B < f1E -> f1E < f2B -> f2B < f2E ->
      strictly_increasing (axis_values (freq_range srs)) = true).
Proof.
  intros L. unfold from_file. cbn [__init__ site_name _SITE_ID_TO_NAME bind].
  destruct (while _ frame _) as [[[srs' first'] fh']|e|] eqn:W; try discriminate.
  cbn [bind]. intros [= <-].
  apply while_frame_axis in W as [_ W]. cbn [fst] in W.
  specialize (W eq_refl L). cbv zeta.
  rewrite W. cbn [axis_values]. split; [reflexivity|]. split.
  - apply frequency_list_length.
  - apply frequency_list_increasing.
Qed.

(** With the bands 25-75 MHz and 76-180 MHz the axis is strictly
    increasing. *)
Lemma frequency_axis_of_first_header_witness :
  exists srs,
    (24 <= length apart_frame)%nat
    /\ from_file apart_frame = Ok srs
    /\ 25 < 75 /\ 75 < 76 /\ 76 < 180
    /\ length (axis_values (freq_range srs)) = 802%nat
    /\ strictly_increasing (axis_values (freq_range srs)) = true.
Proof.
  destruct (from_file apart_frame) as [srs|e|] eqn:E;
    [| vm_compute in E; discriminate | vm_compute in E; discriminate].
  assert (L : (24 <= length apart_frame)%nat)
    by (apply Nat.leb_le; vm_compute; reflexivity).
  exists srs. split; [exact L|]. split; [reflexivity|].
  split; [reflexivity|]. split; [reflexivity|]. split; [reflexivity|].
  destruct (frequency_axis_of_first_header apart_frame srs L E) as (_ & N & I).
  split; [exact N|]. apply I; reflexivity.
Defined.

(** C4 as stated fails: with the bands 25-75 MHz and 75-180 MHz the last
    frequency of band 1 and the first of band 2 are both 75e6. *)
Lemma band_edge_repeated :
  exists srs,
    from_file sample_frame = Ok srs
    /\ length (_data srs) = 1%nat
    /\ nth_error (axis_values (freq_range srs)) 400 = Some (75000000 # 1)
    /\ (nth 401 (axis_values (freq_range srs)) 0 == 75000000 # 1)%Q
    /\ strictly_increasing (axis_values (freq_range srs)) = false.
Proof.
  destruct (from_file sample_frame) as [srs|e|] eqn:E;
    [| vm_compute in E; discriminate | vm_compute in E; discriminate].
  exists srs. split; [reflexivity|].
  vm_compute in E. injection E as <-.
  repeat split; vm_compute; reflexivity.
Qed.

(** ** The combiner: indexing *)

Lemma where_from_spec {A : Type} (p : A -> bool) (i : nat) (xs : list A) :
  Forall (fun j => (i <= j)%nat
                   /\ exists x, nth_error xs (j - i) = Some x /\ p x = true)
         (where_from p i xs).
Proof.
  revert i. induction xs as [|x xs IH]; intros i; simpl.
  - constructor.
  - assert (T : Forall (fun j => (i <= j)%nat
                                 /\ exists y, nth_error (x :: xs) (j - i) = Some y
                                              /\ p y = true)
                       (where_from p (S i) xs)).
    { eapply Forall_impl; [|apply (IH (S i))].
      intros j [L [y [N P]]]. split; [lia|]. exists y. split; [|exact P].
      replace (j - i)%nat with (S (j - S i)) by lia. exact N. }
    destruct (p x) eqn:P; [|exact T].
    constructor; [|exact T]. split; [lia|]. exists x.
    rewrite Nat.sub_diag. now split.
Qed.

Lemma np_where_spec {A : Type} (p : A -> bool) (xs : list A) :
  Forall (fun j => exists x, nth_error xs j = Some x /\ p x = true)
         (np_where p xs).
Proof.
  unfold np_where. eapply Forall_impl; [|apply (where_from_spec p 0 xs)].
  intros j [_ H]. now rewrite Nat.sub_0_r in H.
Qed.

Lemma np_where_bound {A : Type} (p : A -> bool) (xs : list A) :
  Forall (fun j => (j < length xs)%nat) (np_where p xs).
Proof.
  eapply Forall_impl; [|apply (np_where_spec p xs)].
  intros j [x [N _]]. apply nth_error_Some. congruence.
Qed.

Lemma take_total {A : Type} (xs : list A) (idx : list nat) :
  Forall (fun j => (j < length xs)%nat) idx ->
  exists out, take xs idx = Ok out.
Proof.
  induction 1 as [|j idx L _ [out IH]]; simpl.
  - now eexists.
  - unfold getitem. destruct (nth_error xs j) as [x|] eqn:N.
    + cbn [bind]. rewrite IH. cbn [bind]. now eexists.
    + apply nth_error_None in N. lia.
Qed.

Lemma take_spec {A : Type} (xs : list A) (idx : list nat) (out : list A) :
  take xs idx = Ok out ->
  Forall2 (fun j x => nth_error xs j = Some x) idx out.
Proof.
  revert out. induction idx as [|j idx IH]; intros out; simpl.
  - intros [= <-]. constructor.
  - unfold getitem. destruct (nth_error xs j) as [x|] eqn:N; [|discriminate].
    cbn [bind]. destruct (take xs idx) as [rest|e|]; try discriminate.
    cbn [bind]. intros [= <-]. constructor; [exact N | now apply IH].
Qed.

Lemma take_length {A : Type} (xs : list A) (idx : list nat) (out : list A) :
  take xs idx = Ok out -> length out = length idx.
Proof. intros H. apply take_spec, Forall2_length in H. now symmetry. Qed.

Lemma getitem_total {A : Type} (xs : list A) (i : nat) :
  (i < length xs)%nat -> exists x, getitem xs i = Ok x /\ nth_error xs i = Some x.
Proof.
  intros L. unfold getitem. destruct (nth_error xs i) as [x|] eqn:N.
  - now exists x.
  - apply nth_error_None in N. lia.
Qed.

Lemma argmax_from_bound (best i : nat) (best_w : Q) (w : list Q) :
  (best < i)%nat -> (argmax_from best best_w i w < i + length w)%nat.
Proof.
  revert best best_w i. induction w as [|x w IH]; intros best best_w i L; simpl.
  - lia.
  - destruct (Qlt_bool best_w x).
    + specialize (IH i x (S i)). lia.
    + specialize (IH best best_w (S i)). lia.
Qed.

Lemma np_argmax_total (w : list Q) :
  w <> [] -> exists best, np_argmax w = Ok best /\ (best < length w)%nat.
Proof.
  destruct w as [|x w]; [contradiction|]. intros _.
  eexists. split; [reflexivity|].
  simpl. pose proof (argmax_from_bound 0 1 x w). lia.
Qed.

(** What is taken at the indices of [np.where] satisfies the test. *)
Lemma take_where (p : Z -> bool) (xs out : list Z) :
  take xs (np_where p xs) = Ok out ->
  Forall (fun x => In x xs /\ p x = true) out.
Proof.
  intros H. apply take_spec in H.
  pose proof (np_where_spec p xs) as W.
  induction H as [|j x idx out N _ IH]; constructor.
  - inversion W as [|? ? [y [Ny P]] ?]; subst.
    rewrite N in Ny. injection Ny as <-.
    split; [eapply nth_error_In; eassumption | exact P].
  - apply IH. now inversion W.
Qed.

(** ** The combiner: one grid step *)

Lemma walk_step_done (p : pool_t) (t1 : Z) (st : walk_t) :
  t1 < walk_t0 st -> walk_step p t1 st = Ok (Done st).
Proof.
  intros L. unfold walk_step.
  assert (E : (walk_t0 st <=? t1) = false) by (apply Z.leb_gt; exact L).
  now rewrite E.
Qed.

Lemma walk_step_next (p : pool_t) (columns : nat) (t1 : Z) (st : walk_t) :
  pool_ok p columns ->
  walk_t0 st <= t1 ->
  exists l t r,
    walk_step p t1 st
    = Ok (Next (mkWalk (walk_t0 st + 10)
                       (combined_data_sources st ++ [l])
                       (combined_time_range st ++ [t])
                       (combined_data st ++ [r])))
    /\ Z.abs (t - walk_t0 st) < 5
    /\ match l with
       | Missing => t = walk_t0 st /\ r = repeat NaN columns
       | Site _ => In t (time_ranges p)
       end.
Proof.
  intros (Ps & Pw & Pr & Pc) L. unfold walk_step.
  assert (E : (walk_t0 st <=? t1) = true) by (apply Z.leb_le; exact L).
  rewrite E. clear E.
  set (near := fun t : Z => Z.abs (t - walk_t0 st) <? 5).
  pose proof (np_where_bound near (time_ranges p)) as B.
  destruct (0 <? length (np_where near (time_ranges p)))%nat eqn:M.
  - apply Nat.ltb_lt in M.
    destruct (take_total (data_sources p) (np_where near (time_ranges p)))
      as [s Ts]; [now rewrite Ps|].
    destruct (take_total (time_ranges p) (np_where near (time_ranges p)))
      as [t Tt]; [exact B|].
    destruct (take_total (weights p) (np_where near (time_ranges p)))
      as [w Tw]; [now rewrite Pw|].
    destruct (take_total (arr_rows (pooled p)) (np_where near (time_ranges p)))
      as [d Td]; [now rewrite Pr|].
    rewrite Ts, Tt, Tw. cbn [bind].
    unfold take_rows. rewrite Pc, Td. cbn [bind].
    pose proof (take_length _ _ _ Ts) as Ls.
    pose proof (take_length _ _ _ Tt) as Lt.
    pose proof (take_length _ _ _ Tw) as Lw.
    pose proof (take_length _ _ _ Td) as Ld.
    destruct (np_argmax_total w) as (best & -> & Lb).
    { intros ->. simpl in Lw. lia. }
    cbn [bind].
    destruct (getitem_total s best) as (s_best & -> & _); [lia|].
    destruct (getitem_total t best) as (t_best & -> & Nt); [lia|].
    destruct (getitem_total d best) as (d_best & -> & _); [lia|].
    cbn [bind].
    exists (Site s_best), t_best, d_best. split; [reflexivity|].
    apply take_where in Tt. rewrite Forall_forall in Tt.
    destruct (Tt t_best) as [I N]; [eapply nth_error_In; eassumption|].
    split; [|exact I]. unfold near in N. now apply Z.ltb_lt in N.
  - exists Missing, (walk_t0 st), (repeat NaN columns).
    unfold last_dim. rewrite Pc. split; [reflexivity|].
    split; [|now split]. rewrite Z.sub_diag. reflexivity.
Qed.

(** ** The combiner: the walk over the grid *)

Lemma grid_steps_done (t0 t1 : Z) : t1 < t0 -> grid_steps t0 t1 = 0%nat.
Proof.
  intros L. unfold grid_steps.
  assert ((t1 - t0) / 10 < 0) by (apply Z.div_lt_upper_bound; lia).
  lia.
Qed.

Lemma grid_steps_next (t0 t1 : Z) :
  t0 <= t1 -> grid_steps t0 t1 = S (grid_steps (t0 + 10) t1).
Proof.
  intros L. unfold grid_steps.
  replace (t1 - t0) with ((t1 - (t0 + 10)) + 1 * 10) by lia.
  rewrite Z.div_add by lia.
  assert (-1 <= (t1 - (t0 + 10)) / 10) by (apply Z.div_le_lower_bound; lia).
  lia.
Qed.


(** From a state at grid time [t0] the loop ends, within the turns it is
    given, having added one row per grid step up to [t1]. *)
Lemma walk_total (p : pool_t) (columns : nat) (t1 : Z) (k fuel : nat) (st : walk_t) :
  pool_ok p columns ->
  grid_steps (walk_t0 st) t1 = k ->
  (k < fuel)%nat ->
  exists labels times rows,
    while fuel (walk_step p t1) st
    = Ok (mkWalk (walk_t0 st + 10 * Z.of_nat k)
                 (combined_data_sources st ++ labels)
                 (combined_time_range st ++ times)
                 (combined_data st ++ rows))
    /\ length times = k
    /\ on_grid (time_ranges p) columns (walk_t0 st) labels times rows.
Proof.
  intros P. revert fuel st. induction k as [|k IH]; intros fuel st K F.
  - destruct fuel as [|fuel]; [lia|]. cbn [while].
    assert (L : t1 < walk_t0 st).
    { destruct (Z_lt_le_dec t1 (walk_t0 st)) as [L|L]; [exact L|].
      rewrite (grid_steps_next _ _ L) in K. discriminate. }
    rewrite (walk_step_done p t1 st L).
    exists [], [], []. rewrite !app_nil_r, Z.mul_0_r, Z.add_0_r.
    destruct st. now repeat split.
  - destruct fuel as [|fuel]; [lia|]. cbn [while].
    assert (L : walk_t0 st <= t1).
    { destruct (Z_lt_le_dec t1 (walk_t0 st)) as [L|L]; [|exact L].
      rewrite (grid_steps_done _ _ L) in K. discriminate. }
    destruct (walk_step_next p columns t1 st P L) as (l & t & r & -> & A & B).
    rewrite (grid_steps_next _ _ L) in K. injection K as K.
    destruct (IH fuel (mkWalk (walk_t0 st + 10)
                              (combined_data_sources st ++ [l])
                              (combined_time_range st ++ [t])
                              (combined_data st ++ [r])))
      as (labels & times & rows & W & Ln & G); [exact K | lia |].
    cbn [walk_t0 combined_data_sources combined_time_range combined_data] in W, G.
    exists (l :: labels), (t :: times), (r :: rows).
    rewrite W. split.
    + f_equal. f_equal; [lia | | |]; now rewrite <- app_assoc.
    + split; [simpl; now rewrite Ln|]. simpl. now repeat split.
Qed.

(** ** The combiner: the checks and the pool *)

Lemma last_cons_default {A : Type} (x d : A) (l : list A) :
  last (x :: l) d = last l x.
Proof.
  revert x d. induction l as [|y l IH]; intros x d.
  - reflexivity.
  - rewrite last_cons_cons. now rewrite !(IH y).
Qed.

(** On arrays, the first of which is not empty, the check passes when
    every axis agrees with the first, and raises its error otherwise. *)
Lemma check_freq_range_spec (xs0 : list Q) (args : list spectrogram) :
  xs0 <> [] ->
  Forall has_array args ->
  if forallb (agrees (NdArray xs0)) args
  then check_freq_range (NdArray xs0) args = Ok tt
  else exists what, check_freq_range (NdArray xs0) args = Raise (mismatch what).
Proof.
  intros N. induction 1 as [|srs args [xs F] _ IH].
  - reflexivity.
  - cbn [forallb check_freq_range]. unfold agrees at 1.
    rewrite F. cbn [axis_size axis_values bind].
    destruct (length xs =? length xs0)%nat eqn:L; cbn [negb andb].
    + destruct xs0 as [|x0 xs0']; [contradiction|].
      destruct xs as [|x xs']; [discriminate|].
      cbn [getitem nth_error bind hd getitem_last].
      rewrite !last_cons_default.
      destruct (Qeq_bool x x0); cbn [negb andb].
      * destruct (Qeq_bool (last xs' x) (last xs0' x0)); cbn [negb andb].
        -- exact IH.
        -- now eexists.
      * now eexists.
    + now eexists.
Qed.

Lemma data_ok (columns : nat) (srs : spectrogram) :
  input_ok columns srs ->
  data srs = Ok (mkArray (Columns columns) (_data srs)).
Proof.
  intros (T & L & R). unfold data.
  destruct (_data srs) as [|r rs].
  - destruct (time_range srs); [contradiction | discriminate].
  - inversion R as [|? ? Hr Hrs]; subst.
    match goal with
    | |- context [forallb ?f rs] => assert (E : forallb f rs = true)
    end.
    { apply forallb_forall. intros r' I. rewrite Forall_forall in Hrs.
      apply Nat.eqb_eq. now rewrite (Hrs r' I). }
    now rewrite E.
Qed.

Lemma load_spec (columns i : nat) (args : list spectrogram) :
  Forall (input_ok columns) args ->
  exists src,
    load i args = Ok src
    /\ src_time_ranges src = map time_range args
    /\ length (concat (src_data_sources src)) = length (all_times args)
    /\ length (concat (src_weights src)) = length (all_times args)
    /\ src_data src = map (fun s => mkArray (Columns columns) (_data s)) args.
Proof.
  intros H. revert i. induction H as [|srs args O _ IH]; intros i.
  - eexists. split; [reflexivity|]. now repeat split.
  - cbn [load]. pose proof O as (T & L & R).
    destruct (getitem_total (time_range srs) (length (time_range srs) / 2))
      as (middle_t & -> & _).
    { apply Nat.div_lt; [|lia]. destruct (time_range srs); [contradiction|simpl; lia]. }
    cbn [bind]. rewrite (data_ok columns srs O). cbn [bind].
    destruct (IH (S i)) as (acc & -> & A1 & A2 & A3 & A4). cbn [bind].
    eexists. split; [reflexivity|].
    cbn [src_time_ranges src_data_sources src_weights src_data].
    unfold all_times in *. cbn [map concat].
    rewrite !length_app, A1, A2, A3, A4, repeat_length, length_map.
    now repeat split.
Qed.

Lemma concat_rows_length (args : list spectrogram) (columns : nat) :
  Forall (input_ok columns) args ->
  length (concat (map arr_rows
                      (map (fun s => mkArray (Columns columns) (_data s)) args)))
  = length (all_times args).
Proof.
  unfold all_times. induction 1 as [|srs args (T & L & R) _ IH].
  - reflexivity.
  - cbn [map concat arr_rows]. rewrite !length_app, IH, L. reflexivity.
Qed.

Lemma concatenate_rows_ok (args : list spectrogram) (columns : nat) :
  args <> [] ->
  concatenate_rows (map (fun s => mkArray (Columns columns) (_data s)) args)
  = Ok (mkArray (Columns columns)
                (concat (map arr_rows
                             (map (fun s => mkArray (Columns columns) (_data s))
                                  args)))).
Proof.
  destruct args as [|first rest]; [contradiction|]. intros _.
  cbn [map]. unfold concatenate_rows. cbn [arr_shape].
  assert (E : forallb
                (fun b : ndarray2 => shape_eqb (arr_shape b) (Columns columns))
                (map (fun s => mkArray (Columns columns) (_data s)) rest) = true).
  { apply forallb_forall. intros b I. apply in_map_iff in I as [s [<- _]].
    simpl. apply Nat.eqb_refl. }
  now rewrite E.
Qed.

Lemma np_min_total (ts : list Z) : ts <> [] -> exists t, np_min ts = Ok t.
Proof. destruct ts; [contradiction|]. intros _. now eexists. Qed.

Lemma np_max_total (ts : list Z) : ts <> [] -> exists t, np_max ts = Ok t.
Proof. destruct ts; [contradiction|]. intros _. now eexists. Qed.

(** Compatible, well-formed inputs are combined, row for row on the grid
    between their first and last timestamps. *)
Lemma combine_srs_total (first : spectrogram) (rest : list spectrogram)
      (xs0 : list Q) :
  freq_range first = NdArray xs0 ->
  xs0 <> [] ->
  Forall has_array (first :: rest) ->
  forallb (agrees (NdArray xs0)) (first :: rest) = true ->
  Forall (input_ok (length xs0)) (first :: rest) ->
  exists tmin tmax labels times rows,
    np_min (all_times (first :: rest)) = Ok tmin
    /\ np_max (all_times (first :: rest)) = Ok tmax
    /\ combine_srs (first :: rest)
       = Ok (mkSRS (combined_site_id 0 (first :: rest))
                   (combined_site (first :: rest))
                   (NdArray xs0) times rows (Some labels) None)
    /\ length times = grid_steps tmin tmax
    /\ on_grid (all_times (first :: rest)) (length xs0) tmin labels times rows.
Proof.
  intros F N A C O. set (args := first :: rest) in *.
  assert (T : all_times args <> []).
  { unfold all_times, args. cbn [map concat].
    inversion O as [|? ? (T & _) _]; subst.
    destruct (time_range first); [contradiction | discriminate]. }
  destruct (np_min_total _ T) as [tmin Hmin].
  destruct (np_max_total _ T) as [tmax Hmax].
  destruct (load_spec (length xs0) 0 args O) as (src & L & S1 & S2 & S3 & S4).
  set (p := mkPool (concat (src_data_sources src)) (concat (src_time_ranges src))
                   (concat (src_weights src))
                   (mkArray (Columns (length xs0))
                            (concat (map arr_rows (src_data src))))).
  assert (P : pool_ok p (length xs0)).
  { unfold pool_ok, p.
    cbn [data_sources time_ranges weights pooled arr_rows arr_shape].
    rewrite S1, S4. fold (all_times args).
    rewrite S2, S3, (concat_rows_length args (length xs0) O). now repeat split. }
  assert (Tp : time_ranges p = all_times args).
  { unfold p. cbn [time_ranges]. now rewrite S1. }
  destruct (walk_total p (length xs0) tmax (grid_steps tmin tmax)
                       (S (grid_steps tmin tmax)) (mkWalk tmin [] [] []) P)
    as (labels & times & rows & W & Ln & G); [reflexivity | lia |].
  cbn [walk_t0 combined_data_sources combined_time_range combined_data app] in W, G.
  exists tmin, tmax, labels, times, rows.
  split; [exact Hmin|]. split; [exact Hmax|].
  split; [|split; [exact Ln | now rewrite <- Tp]].
  unfold combine_srs. change (getitem args 0) with (Ok first). cbn [bind].
  rewrite F.
  pose proof (check_freq_range_spec xs0 args N A) as K. rewrite C in K.
  rewrite K. cbn [bind]. rewrite L. cbn [bind].
  rewrite S4, (concatenate_rows_ok args (length xs0)) by discriminate.
  cbn [bind]. rewrite <- S4. fold p.
  rewrite Tp, Hmin, Hmax. cbn [bind]. rewrite W. cbn [bind].
  reflexivity.
Qed.

(** ** The combiner on well-formed inputs *)

Lemma well_formed_array (srs : spectrogram) :
  well_formed srs = true ->
  exists xs,
    freq_range srs = NdArray xs /\ xs <> [] /\ input_ok (length xs) srs.
Proof.
  unfold well_formed. destruct (freq_range srs) as [xs|xs]; [discriminate|].
  intros H. apply andb_true_iff in H as [H R].
  apply andb_true_iff in H as [H L]. apply andb_true_iff in H as [X T].
  apply Nat.ltb_lt in X, T. apply Nat.eqb_eq in L.
  exists xs. split; [reflexivity|]. split.
  - intros ->. simpl in X. lia.
  - repeat split.
    + intros E. rewrite E in T. simpl in T. lia.
    + exact L.
    + apply Forall_forall. intros r I.
      rewrite forallb_forall in R. now apply Nat.eqb_eq, R.
Qed.

Lemma well_formed_arrays (args : list spectrogram) :
  forallb well_formed args = true -> Forall has_array args.
Proof.
  intros H. apply Forall_forall. intros srs I.
  rewrite forallb_forall in H.
  destruct (well_formed_array srs (H srs I)) as (xs & F & _). now exists xs.
Qed.

Lemma agreeing_inputs_ok (xs0 : list Q) (args : list spectrogram) :
  forallb well_formed args = true ->
  forallb (agrees (NdArray xs0)) args = true ->
  Forall (input_ok (length xs0)) args.
Proof.
  intros W A. apply Forall_forall. intros srs I.
  rewrite forallb_forall in W, A.
  destruct (well_formed_array srs (W srs I)) as (xs & F & _ & O).
  specialize (A srs I). unfold agrees in A. rewrite F in A. cbn [axis_values] in A.
  apply andb_true_iff in A as [A _]. apply andb_true_iff in A as [A _].
  apply Nat.eqb_eq in A. now rewrite <- A.
Qed.



(** Axes of 25, 75, 180 and of 25, 80, 180 are combined; an axis that
    starts elsewhere is refused. *)
Lemma interior_values_not_compared :
  (exists combined,
     combine_srs [interior_a; interior_b] = Ok combined
     /\ _data_source combined = Some [Site 0; Site 1])
  /\ combine_srs [interior_a; uneven_srs] = Raise (mismatch "axis")
  /\ combine_srs
       [interior_a;
        mkSRS 3 "Learmonth" (NdArray [26; 75; 180]%Q) [10]
              [[Fin 4; Fin 5; Fin 6]] None None]
     = Raise (mismatch "start").
Proof.
  split; [|split; vm_compute; reflexivity].
  destruct (combine_srs [interior_a; interior_b]) as [c|e|] eqn:E;
    vm_compute in E; try discriminate.
  injection E as <-. eexists. split; reflexivity.
Qed.





(** ** The loop bounds are never what ends a call *)

Lemma bind_outcome {A B : Type} (m : outcome A) (k : A -> outcome B) :
  m <> OutOfFuel -> (forall a, k a <> OutOfFuel) -> bind m k <> OutOfFuel.
Proof. intros M K. destruct m; simpl; [apply K | discriminate | contradiction]. Qed.

Lemma take_outcome {A : Type} (xs : list A) (idx : list nat) :
  take xs idx <> OutOfFuel.
Proof.
  induction idx as [|i idx IH]; simpl; [discriminate|].
  apply bind_outcome; [apply getitem_outcome|]. intros x.
  apply bind_outcome; [exact IH | discriminate].
Qed.

Lemma site_name_outcome (site_id : Z) : site_name site_id <> OutOfFuel.
Proof. unfold site_name. now destruct (_SITE_ID_TO_NAME site_id). Qed.

Lemma axis_size_outcome (a : axis) : axis_size a <> OutOfFuel.
Proof. now destruct a. Qed.

Lemma append_outcome (timestamp : Z) (spec : row) (self : spectrogram) :
  snd (append timestamp spec self) <> OutOfFuel.
Proof.
  unfold append. pose proof (axis_size_outcome (freq_range self)) as N.
  destruct (axis_size (freq_range self)) as [n|e|]; [|simpl; discriminate|contradiction].
  destruct (negb (length spec =? n)%nat); simpl; discriminate.
Qed.

(** A turn of the decoder that goes round again has shortened the
    stream. *)
Lemma frame_turn (st : decoder_state) :
  match frame st with
  | Ok (Next st') => (length (snd st') < length (snd st))%nat
  | Ok (Done _) => True
  | Raise _ => True
  | OutOfFuel => False
  end.
Proof.
  destruct st as [[srs first_frame] fh]. unfold frame. cbv beta iota delta [read].
  destruct (length (firstn 24 fh) <? 24)%nat eqn:L0; [exact I|].
  apply Nat.ltb_ge in L0. rewrite length_firstn in L0.
  destruct (if first_frame
            then srs1 <- save_first_frame (unpack header_format (firstn 24 fh)) srs ;;
                 Ok (srs1, false)
            else Ok (srs, first_frame)) as [[srs0 first0]|e|] eqn:S0.
  - cbn [bind]. destruct (header_datetime _) as [dt|e|] eqn:D.
    + cbn [bind].
      destruct (length (firstn 401 (skipn 24 fh)) <? 401)%nat; [exact I|].
      destruct (length (firstn 401 (skipn 401 (skipn 24 fh))) <? 401)%nat; [exact I|].
      pose proof (append_outcome (timestamp dt)
        (correct_block (firstn 401 (skipn 24 fh))
                       (field (unpack header_format (firstn 24 fh)) 11)
                       (field (unpack header_format (firstn 24 fh)) 12)
         ++ correct_block (firstn 401 (skipn 401 (skipn 24 fh)))
                          (field (unpack header_format (firstn 24 fh)) 16)
                          (field (unpack header_format (firstn 24 fh)) 17))
        srs0) as N.
      destruct (append _ _ srs0) as [srs1 [[]|e|]]; simpl in N; [|exact I|now apply N].
      cbn [snd]. rewrite !length_skipn. lia.
    + exact I.
    + unfold header_datetime, datetime in D. now destruct (valid_date _ _ _ _ _ _).
  - exact I.
  - destruct first_frame; [|discriminate].
    unfold save_first_frame in S0.
    pose proof (site_name_outcome (field (unpack header_format (firstn 24 fh)) 6)) as N.
    destruct (site_name _); try discriminate. contradiction.
Qed.

Lemma while_frame_outcome (fuel : nat) (st : decoder_state) :
  (length (snd st) < fuel)%nat -> while fuel frame st <> OutOfFuel.
Proof.
  revert st. induction fuel as [|fuel IH]; intros st L; [lia|].
  cbn [while]. pose proof (frame_turn st) as T.
  destruct (frame st) as [[st'|st']|e|]; try discriminate; [|contradiction].
  apply IH. lia.
Qed.

(** [from_file] returns or raises on every stream. *)
Lemma from_file_outcome (fh : list byte) : from_file fh <> OutOfFuel.
Proof.
  unfold from_file. cbn [__init__ site_name _SITE_ID_TO_NAME bind].
  apply bind_outcome.
  - apply while_frame_outcome. simpl. lia.
  - intros [[srs f] fh']. discriminate.
Qed.

Lemma check_freq_range_outcome (freq_range0 : axis) (args : list spectrogram) :
  check_freq_range freq_range0 args <> OutOfFuel.
Proof.
  induction args as [|srs args IH]; simpl; [discriminate|].
  apply bind_outcome; [apply axis_size_outcome|]. intros n.
  apply bind_outcome; [apply axis_size_outcome|]. intros n0.
  destruct (negb (n =? n0)%nat); [discriminate|].
  apply bind_outcome; [apply getitem_outcome|]. intros f.
  apply bind_outcome; [apply getitem_outcome|]. intros f0.
  destruct (negb (Qeq_bool f f0)); [discriminate|].
  apply bind_outcome; [apply getitem_last_outcome|]. intros l.
  apply bind_outcome; [apply getitem_last_outcome|]. intros l0.
  destruct (negb (Qeq_bool l l0)); [discriminate | exact IH].
Qed.

Lemma data_outcome (srs : spectrogram) : data srs <> OutOfFuel.
Proof.
  unfold data. destruct (_data srs) as [|r rs]; [discriminate|].
  match goal with |- context [forallb ?f rs] => now destruct (forallb f rs) end.
Qed.

Lemma load_outcome (i : nat) (args : list spectrogram) : load i args <> OutOfFuel.
Proof.
  revert i. induction args as [|srs args IH]; intros i; simpl; [discriminate|].
  apply bind_outcome; [apply getitem_outcome|]. intros middle_t.
  apply bind_outcome; [apply data_outcome|]. intros d.
  apply bind_outcome; [apply IH | discriminate].
Qed.

(** A turn of the walk that goes round again is at a grid time up to
    [t1], and moves 10 s on. *)
Lemma walk_turn (p : pool_t) (t1 : Z) (st : walk_t) :
  match walk_step p t1 st with
  | Ok (Next st') => walk_t0 st <= t1 /\ walk_t0 st' = walk_t0 st + 10
  | Ok (Done _) => True
  | Raise _ => True
  | OutOfFuel => False
  end.
Proof.
  unfold walk_step. destruct (walk_t0 st <=? t1) eqn:L; [|exact I].
  apply Z.leb_le in L.
  destruct (0 <? length _)%nat; [|now split].
  set (idx := np_where _ _).
  pose proof (take_outcome (data_sources p) idx) as N1.
  destruct (take (data_sources p) idx) as [s|e|]; [|exact I|contradiction].
  cbn [bind].
  pose proof (take_outcome (time_ranges p) idx) as N2.
  destruct (take (time_ranges p) idx) as [t|e|]; [|exact I|contradiction].
  cbn [bind].
  pose proof (take_outcome (weights p) idx) as N3.
  destruct (take (weights p) idx) as [w|e|]; [|exact I|contradiction].
  cbn [bind].
  assert (N4 : take_rows (pooled p) idx <> OutOfFuel).
  { unfold take_rows. destruct (arr_shape (pooled p)); [discriminate|].
    apply take_outcome. }
  destruct (take_rows (pooled p) idx) as [d|e|]; [|exact I|contradiction].
  cbn [bind].
  destruct w as [|x w]; [exact I|]. cbn [np_argmax bind].
  pose proof (getitem_outcome s (argmax_from 0 x 1 w)) as N5.
  destruct (getitem s _) as [s_best|e|]; [|exact I|contradiction].
  cbn [bind].
  pose proof (getitem_outcome t (argmax_from 0 x 1 w)) as N6.
  destruct (getitem t _) as [t_best|e|]; [|exact I|contradiction].
  cbn [bind].
  pose proof (getitem_outcome d (argmax_from 0 x 1 w)) as N7.
  destruct (getitem d _) as [d_best|e|]; [|exact I|contradiction].
  cbn [bind]. now split.
Qed.

Lemma while_walk_outcome (p : pool_t) (t1 : Z) (k fuel : nat) (st : walk_t) :
  grid_steps (walk_t0 st) t1 = k ->
  (k < fuel)%nat ->
  while fuel (walk_step p t1) st <> OutOfFuel.
Proof.
  revert fuel st. induction k as [|k IH]; intros fuel st K F;
    (destruct fuel as [|fuel]; [lia|]); cbn [while];
    pose proof (walk_turn p t1 st) as T;
    destruct (walk_step p t1 st) as [[st'|st']|e|];
    try discriminate; try contradiction; destruct T as [L E].
  - rewrite (grid_steps_next _ _ L) in K. discriminate.
  - rewrite (grid_steps_next _ _ L) in K. injection K as K.
    apply IH; [now rewrite E | lia].
Qed.

(** [combine_srs] returns or raises on every collection of inputs. *)
Lemma combine_srs_outcome (args : list spectrogram) : combine_srs args <> OutOfFuel.
Proof.
  unfold combine_srs.
  apply bind_outcome; [apply getitem_outcome|]. intros first.
  apply bind_outcome; [apply check_freq_range_outcome|]. intros _.
  apply bind_outcome; [apply load_outcome|]. intros src.
  apply bind_outcome.
  { unfold concatenate_rows. destruct (src_data src) as [|a rest]; [discriminate|].
    match goal with |- context [forallb ?f rest] => now destruct (forallb f rest) end. }
  intros d.
  apply bind_outcome.
  { unfold np_min. cbn [time_ranges]. now destruct (concat (src_time_ranges src)). }
  intros t0.
  apply bind_outcome.
  { unfold np_max. cbn [time_ranges]. now destruct (concat (src_time_ranges src)). }
  intros t1.
  apply bind_outcome.
  { apply (while_walk_outcome _ t1 (grid_steps t0 t1)); [reflexivity | lia]. }
  intros st. cbn [__init__ site_name _SITE_ID_TO_NAME bind]. discriminate.
Qed.

(** ** The least and the greatest timestamp *)

Lemma fold_min_least (ts : list Z) (t : Z) :
  fold_left Z.min ts t <= t
  /\ Forall (fun x => fold_left Z.min ts t <= x) ts
  /\ (fold_left Z.min ts t = t \/ In (fold_left Z.min ts t) ts).
Proof.
  revert t. induction ts as [|x ts IH]; intros t; simpl.
  - split; [lia|]. split; [constructor | now left].
  - destruct (IH (Z.min t x)) as (A & B & C). split; [lia|]. split.
    + constructor; [lia | exact B].
    + destruct C as [C|C]; [|now right; right].
      rewrite C. destruct (Z.min_spec t x) as [[_ ->]|[_ ->]]; [now left | now right; left].
Qed.

Lemma fold_max_greatest (ts : list Z) (t : Z) :
  t <= fold_left Z.max ts t
  /\ Forall (fun x => x <= fold_left Z.max ts t) ts
  /\ (fold_left Z.max ts t = t \/ In (fold_left Z.max ts t) ts).
Proof.
  revert t. induction ts as [|x ts IH]; intros t; simpl.
  - split; [lia|]. split; [constructor | now left].
  - destruct (IH (Z.max t x)) as (A & B & C). split; [lia|]. split.
    + constructor; [lia | exact B].
    + destruct C as [C|C]; [|now right; right].
      rewrite C. destruct (Z.max_spec t x) as [[_ ->]|[_ ->]]; [now right; left | now left].
Qed.

(** [np_min] and [np_max] give the least and the greatest element. *)
Lemma np_min_least (ts : list Z) (t : Z) :
  np_min ts = Ok t -> In t ts /\ Forall (fun x => t <= x) ts.
Proof.
  destruct ts as [|x ts]; [discriminate|]. intros [= <-].
  destruct (fold_min_least ts x) as (A & B & C). split.
  - destruct C as [->|C]; [now left | now right].
  - now constructor.
Qed.

Lemma np_max_greatest (ts : list Z) (t : Z) :
  np_max ts = Ok t -> In t ts /\ Forall (fun x => x <= t) ts.
Proof.
  destruct ts as [|x ts]; [discriminate|]. intros [= <-].
  destruct (fold_max_greatest ts x) as (A & B & C). split.
  - destruct C as [->|C]; [now left | now right].
  - now constructor.
Qed.

(** Inputs without rows, and no inputs at all, are not combined. *)
Lemma combine_without_rows_raises :
  combine_srs [sample_srs 4 "San Vito" [] 7] = Raise IndexError
  /\ combine_srs [] = Raise IndexError.
Proof. split; reflexivity. Qed.

(** * Further properties *)

(** ** The decoder, case by case *)

(** What one turn of the decoder does, by the bytes it finds: no whole
    header; a first header with an unknown site; a header without a
    calendar date; a frame cut after its header; a whole frame, which is
    appended. *)
Lemma frame_cases (srs : spectrogram) (first_frame : bool) (fh : list byte) :
  let header := unpack header_format (firstn 24 fh) in
  ((length fh < 24)%nat
   /\ frame (srs, first_frame, fh) = Ok (Done (srs, first_frame, skipn 24 fh)))
  \/ ((24 <= length fh)%nat
      /\ first_frame = true
      /\ _SITE_ID_TO_NAME (first_site fh) = None
      /\ frame (srs, first_frame, fh) = Raise (KeyError (first_site fh)))
  \/ ((24 <= length fh)%nat
      /\ frame (srs, first_frame, fh) = Raise ValueError)
  \/ ((24 <= length fh)%nat
      /\ header_ok first_frame (firstn 24 fh) = true
      /\ exists srs0,
           (if first_frame
            then exists name,
                _SITE_ID_TO_NAME (first_site fh) = Some name
                /\ srs0 = mkSRS (first_site fh) name (NdArray (frequency_list header))
                                (time_range srs) (_data srs) (_data_source srs)
                                (_data_adjustments srs)
            else srs0 = srs)
           /\ (((length fh < frame_size)%nat
                /\ exists fh', frame (srs, first_frame, fh) = Ok (Done (srs0, false, fh')))
               \/ ((frame_size <= length fh)%nat
                   /\ frame (srs, first_frame, fh)
                      = match append (frame_timestamp fh) (frame_row fh) srs0 with
                        | (srs1, Ok _) => Ok (Next (srs1, false, skipn frame_size fh))
                        | (_, Raise e) => Raise e
                        | (_, OutOfFuel) => OutOfFuel
                        end))).
Proof.
  intros header. unfold frame. cbv beta iota delta [read].
  destruct (length (firstn 24 fh) <? 24)%nat eqn:L0.
  { left. apply Nat.ltb_lt in L0. rewrite length_firstn in L0.
    split; [lia | reflexivity]. }
  apply Nat.ltb_ge in L0. rewrite length_firstn in L0.
  assert (L : (24 <= length fh)%nat) by lia. right.
  fold header.
  assert (S0 : (first_frame = true /\ _SITE_ID_TO_NAME (first_site fh) = None
                /\ (if first_frame
                    then srs1 <- save_first_frame header srs ;; Ok (srs1, false)
                    else Ok (srs, first_frame)) = Raise (KeyError (first_site fh)))
               \/ exists srs0,
                   (if first_frame
                    then srs1 <- save_first_frame header srs ;; Ok (srs1, false)
                    else Ok (srs, first_frame)) = Ok (srs0, false)
                   /\ (if first_frame
                       then exists name,
                           _SITE_ID_TO_NAME (first_site fh) = Some name
                           /\ srs0 = mkSRS (first_site fh) name
                                           (NdArray (frequency_list header))
                                           (time_range srs) (_data srs)
                                           (_data_source srs) (_data_adjustments srs)
                       else srs0 = srs)
                   /\ (if first_frame
                       then match _SITE_ID_TO_NAME (field header 6) with
                            | Some _ => true | None => false end
                       else true) = true).
  { destruct first_frame.
    - unfold save_first_frame, site_name. fold (first_site fh).
      change (field header 6) with (first_site fh).
      destruct (_SITE_ID_TO_NAME (first_site fh)) as [name|] eqn:V.
      + right. eexists. split; [reflexivity|]. split; [|reflexivity].
        exists name. now split.
      + left. now repeat split.
    - right. exists srs. now repeat split. }
  destruct S0 as [(F & V & ->)|(srs0 & -> & S0 & Hs)].
  { left. now repeat split. }
  right. cbn [bind]. unfold header_datetime, datetime.
  destruct (valid_date _ _ _ _ _ _) eqn:D.
  2:{ left. split; [exact L | reflexivity]. }
  right. split; [exact L|]. split.
  { unfold header_ok. fold header. now rewrite Hs, D. }
  exists srs0. split; [exact S0|]. cbn [bind].
  destruct (length (firstn 401 (skipn 24 fh)) <? 401)%nat eqn:L1.
  { left. apply Nat.ltb_lt in L1. rewrite length_firstn, length_skipn in L1.
    unfold frame_size. split; [lia | now eexists]. }
  apply Nat.ltb_ge in L1. rewrite length_firstn, length_skipn in L1.
  destruct (length (firstn 401 (skipn 401 (skipn 24 fh))) <? 401)%nat eqn:L2.
  { left. apply Nat.ltb_lt in L2. rewrite length_firstn, !length_skipn in L2.
    unfold frame_size. split; [lia | now eexists]. }
  apply Nat.ltb_ge in L2. rewrite length_firstn, !length_skipn in L2.
  right. unfold frame_size. split; [lia|].
  replace (skipn 401 (skipn 401 (skipn 24 fh))) with (skipn (24 + 401 + 401) fh)
    by (rewrite !skipn_skipn; reflexivity).
  unfold frame_timestamp, frame_row. fold header.
  reflexivity.
Qed.

Lemma byte_val_bound (b : byte) : 0 <= byte_val b <= 255.
Proof.
  unfold byte_val. pose proof (Byte.to_N_bounded b) as H. lia.
Qed.

(** A field unpacked with [B] is a byte. *)
Lemma unpack_byte_field (f : list fmt) (bs : list byte) (i : nat) :
  nth_error f i = Some B -> 0 <= nth i (unpack f bs) 0 <= 255.
Proof.
  revert bs i. induction f as [|c f IH]; intros bs i.
  - destruct i; discriminate.
  - destruct c.
    + destruct bs as [|b bs]; [destruct i; simpl; lia|].
      destruct i as [|i]; simpl.
      * intros _. apply byte_val_bound.
      * apply IH.
    + destruct bs as [|b1 [|b2 bs]]; try (destruct i; simpl; lia).
      destruct i as [|i]; simpl; [discriminate | apply IH].
Qed.

Lemma correct_block_calibrated (block : list byte) (ref atten : Z) :
  0 <= ref <= 255 -> 0 <= atten <= 255 ->
  Forall calibrated (correct_block block ref atten).
Proof.
  intros R A. unfold correct_block. apply Forall_forall. intros v I.
  apply in_map_iff in I as [b [<- _]].
  exists (byte_val b + ref + atten). split; [reflexivity|].
  pose proof (byte_val_bound b). lia.
Qed.

Lemma frame_row_calibrated (fh : list byte) : Forall calibrated (frame_row fh).
Proof.
  unfold frame_row. apply Forall_app. split;
    apply correct_block_calibrated; unfold field; now apply unpack_byte_field.
Qed.

Lemma frame_row_length (fh : list byte) :
  (frame_size <= length fh)%nat -> length (frame_row fh) = 802%nat.
Proof.
  unfold frame_size, frame_row. intros L.
  rewrite length_app, !correct_block_length, !length_firstn, !length_skipn. lia.
Qed.

(** The attributes that the decoder takes from the first header. *)
Lemma saved_has_axis (first_frame : bool) (fh : list byte) (srs srs0 : spectrogram) :
  (if first_frame
   then exists name,
       _SITE_ID_TO_NAME (first_site fh) = Some name
       /\ srs0 = mkSRS (first_site fh) name
                       (NdArray (frequency_list (unpack header_format (firstn 24 fh))))
                       (time_range srs) (_data srs) (_data_source srs)
                       (_data_adjustments srs)
   else srs0 = srs) ->
  (first_frame = false -> has_axis srs) ->
  has_axis srs0
  /\ _data srs0 = _data srs /\ time_range srs0 = time_range srs
  /\ _data_source srs0 = _data_source srs.
Proof.
  destruct first_frame.
  - intros (name & _ & ->) _. cbn. repeat split.
    eexists. split; [reflexivity | apply frequency_list_length].
  - intros -> A. repeat split. now apply A.
Qed.

(** The loop, by whole frames: what it returns holds the rows and the
    timestamps of the frames it went through, and less than a frame was
    left. *)
Lemma while_frames_exact (fuel : nat) (srs : spectrogram) (first_frame : bool)
      (fh : list byte) (res : decoder_state) :
  while fuel frame (srs, first_frame, fh) = Ok res ->
  (first_frame = false -> has_axis srs) ->
  exists n,
    (frame_size * n <= length fh < frame_size * n + frame_size)%nat
    /\ _data (fst (fst res)) = _data srs ++ decoded_rows n fh
    /\ time_range (fst (fst res)) = time_range srs ++ decoded_times n fh
    /\ _data_source (fst (fst res)) = _data_source srs.
Proof.
  revert srs first_frame fh.
  induction fuel as [|fuel IH]; intros srs first_frame fh; cbn [while];
    [discriminate|].
  intros W A.
  destruct (frame_cases srs first_frame fh)
    as [[L F]|[(L & _ & _ & F)|[[L F]|(L & H & srs0 & S0 & [[L1 [fh' F]]|[L1 F]])]]];
    rewrite F in W; try discriminate.
  - injection W as <-. exists 0%nat. cbn [fst decoded_rows decoded_times].
    rewrite !app_nil_r. unfold frame_size. repeat split; lia.
  - injection W as <-. exists 0%nat. cbn [fst decoded_rows decoded_times].
    destruct (saved_has_axis _ _ _ _ S0 A) as (_ & E1 & E2 & E3).
    rewrite !app_nil_r. repeat split; auto; lia.
  - destruct (saved_has_axis _ _ _ _ S0 A) as ((xs & Fx & Lx) & E1 & E2 & E3).
    rewrite (append_row _ _ _ xs Fx) in W
      by (rewrite Lx; now apply frame_row_length).
    apply IH in W.
    + destruct W as (n & Ln & R1 & R2 & R3).
      exists (S n). rewrite length_skipn in Ln.
      cbn [_data time_range _data_source] in R1, R2, R3.
      cbn [decoded_rows decoded_times].
      rewrite R1, R2, R3, E1, E2, E3, <- !app_assoc.
      unfold frame_size in *. repeat split; lia.
    + intros _. exists xs. now split.
Qed.

(** ** What a decoded stream holds *)

(** What [from_file] returns, when it returns. *)
Lemma from_file_decoded (fh : list byte) (srs : spectrogram) :
  from_file fh = Ok srs ->
  _data srs = decoded_rows (length fh / frame_size) fh
  /\ time_range srs = decoded_times (length fh / frame_size) fh
  /\ _data_source srs = None.
Proof.
  unfold from_file. cbn [__init__ site_name _SITE_ID_TO_NAME bind].
  destruct (while _ frame _) as [[[srs' first'] fh']|e|] eqn:W; try discriminate.
  cbn [bind]. intros [= <-].
  apply while_frames_exact in W; [|discriminate].
  destruct W as (n & Ln & R1 & R2 & R3).
  cbn [fst _data time_range _data_source app] in R1, R2, R3.
  assert (E : (length fh / frame_size)%nat = n).
  { symmetry. apply (Nat.div_unique _ _ _ (length fh - frame_size * n)); lia. }
  now rewrite E.
Qed.

(** X1. Whenever [from_file] returns, it returns the rows and the timestamps
    of the whole 826-byte frames of the stream, frame by frame, and
    nothing of what follows the last whole frame. *)
Theorem from_file_framewise (fh : list byte) (srs : spectrogram) :
  from_file fh = Ok srs ->
  _data srs = decoded_rows (length fh / frame_size) fh
  /\ time_range srs = decoded_times (length fh / frame_size) fh.
Proof.
  intros H. destruct (from_file_decoded fh srs H) as (R1 & R2 & _). now split.
Qed.

Lemma decoded_rows_length (n : nat) (fh : list byte) :
  length (decoded_rows n fh) = n.
Proof. revert fh. induction n; intros fh; simpl; auto. Qed.

Lemma decoded_times_length (n : nat) (fh : list byte) :
  length (decoded_times n fh) = n.
Proof. revert fh. induction n; intros fh; simpl; auto. Qed.

Lemma decoded_rows_shape (n : nat) (fh : list byte) :
  (frame_size * n <= length fh)%nat ->
  Forall (fun r : row => length r = 802%nat /\ Forall calibrated r)
         (decoded_rows n fh).
Proof.
  revert fh. induction n as [|n IH]; intros fh L; cbn [decoded_rows].
  - constructor.
  - constructor.
    + split; [apply frame_row_length; lia | apply frame_row_calibrated].
    + apply IH. rewrite length_skipn. lia.
Qed.

(** X2. Whenever [from_file] returns, there is one timestamp per row, every
    row has 802 values, and every value is a whole number from 0 to 765:
    a byte plus the reference level and the attenuation of its band. *)
Theorem from_file_rows_shape (fh : list byte) (srs : spectrogram) :
  from_file fh = Ok srs ->
  length (time_range srs) = length (_data srs)
  /\ length (_data srs) = (length fh / frame_size)%nat
  /\ Forall (fun r : row => length r = 802%nat /\ Forall calibrated r) (_data srs).
Proof.
  intros H. destruct (from_file_decoded fh srs H) as (-> & -> & _).
  rewrite decoded_rows_length, decoded_times_length.
  split; [reflexivity|]. split; [reflexivity|].
  apply decoded_rows_shape.
  pose proof (Nat.Div0.mul_div_le (length fh) frame_size). unfold frame_size in *. lia.
Qed.

Lemma append_fields (timestamp : Z) (spec : row) (self self' : spectrogram)
      (o : outcome unit) :
  append timestamp spec self = (self', o) ->
  site_id self' = site_id self /\ site self' = site self
  /\ freq_range self' = freq_range self.
Proof.
  unfold append. destruct (axis_size (freq_range self)) as [n|e|].
  - destruct (negb (length spec =? n)%nat); intros H; now inv_pair H.
  - intros H. now inv_pair H.
  - intros H. now inv_pair H.
Qed.

Lemma vocabulary_range (site_id : Z) (name : string) :
  _SITE_ID_TO_NAME site_id = Some name -> 1 <= site_id <= 5.
Proof.
  destruct site_id as [|p|p]; try discriminate.
  destruct p as [[[p|p|]|[p|p|]|]|[[p|p|]|[p|p|]|]|]; simpl;
    try discriminate; lia.
Qed.

(** After a first header the site is fixed. *)
Lemma while_keeps_site (fuel : nat) (srs : spectrogram) (fh : list byte)
      (res : decoder_state) :
  while fuel frame (srs, false, fh) = Ok res ->
  site_id (fst (fst res)) = site_id srs /\ site (fst (fst res)) = site srs.
Proof.
  revert srs fh. induction fuel as [|fuel IH]; intros srs fh; cbn [while];
    [discriminate|].
  intros W.
  destruct (frame_cases srs false fh)
    as [[L F]|[(L & Hf & _)|[[L F]|(L & H & srs0 & -> & [[L1 [fh' F]]|[L1 F]])]]];
    try discriminate; rewrite F in W; try discriminate.
  - injection W as <-. now split.
  - injection W as <-. now split.
  - destruct (append _ _ srs) as [srs1 o] eqn:Ap.
    apply append_fields in Ap as (E1 & E2 & _).
    destruct o as [[]|e|]; try discriminate.
    apply IH in W as [W1 W2]. split; congruence.
Qed.

(** X3. Whenever [from_file] returns from a stream that holds a header, the
    site is the one of the first header: its number is the seventh byte,
    one of 1 to 5, and its name is the name the vocabulary gives it. *)
Theorem from_file_site (fh : list byte) (srs : spectrogram) :
  (24 <= length fh)%nat ->
  from_file fh = Ok srs ->
  site_id srs = first_site fh
  /\ _SITE_ID_TO_NAME (site_id srs) = Some (site srs)
  /\ 1 <= site_id srs <= 5.
Proof.
  intros L. unfold from_file. cbn [__init__ site_name _SITE_ID_TO_NAME bind].
  destruct (while _ frame _) as [[[srs' first'] fh']|e|] eqn:W; try discriminate.
  cbn [bind]. intros [= <-].
  assert (G : site_id srs' = first_site fh
              /\ _SITE_ID_TO_NAME (first_site fh) = Some (site srs')).
  { cbn [while] in W.
    destruct (frame_cases (mkSRS 1 "Palehau" (PyList []) [] [] None None) true fh)
      as [[L0 F]|[(_ & _ & _ & F)|[[_ F]|(_ & H & srs0 & (name & V & ->)
                                           & [[L1 [fh0 F]]|[L1 F]])]]];
      rewrite F in W; try discriminate.
    - lia.
    - destruct (length fh) as [|k]; [lia|]. cbn [while] in W.
      injection W as <- _ _. now split.
    - destruct (append _ _ _) as [srs1 o] eqn:Ap.
      apply append_fields in Ap as (E1 & E2 & _). cbn [site_id site] in E1, E2.
      destruct o as [[]|e|]; try discriminate.
      apply while_keeps_site in W as [W1 W2]. cbn [fst] in W1, W2.
      split; congruence. }
  destruct G as [G1 G2]. rewrite G1. split; [reflexivity|]. split; [exact G2|].
  now apply (vocabulary_range _ (site srs')).
Qed.

(** Past the first header the loop raises nothing but [ValueError]. *)
Lemma while_raises_value_error (fuel : nat) (srs : spectrogram) (fh : list byte)
      (e : exn) :
  while fuel frame (srs, false, fh) = Raise e ->
  has_axis srs ->
  e = ValueError.
Proof.
  revert srs fh. induction fuel as [|fuel IH]; intros srs fh; cbn [while];
    [discriminate|].
  intros W A.
  destruct (frame_cases srs false fh)
    as [[L F]|[(L & Hf & _)|[[L F]|(L & H & srs0 & -> & [[L1 [fh' F]]|[L1 F]])]]];
    try discriminate; rewrite F in W; try discriminate.
  - now injection W as <-.
  - destruct A as (xs & Fx & Lx).
    rewrite (append_row _ _ _ xs Fx) in W
      by (rewrite Lx; now apply frame_row_length).
    apply IH in W; [exact W|]. exists xs. now split.
Qed.

(** X4. [from_file] raises nothing but [KeyError], for a first header whose
    site is not in the vocabulary, and [ValueError], for a header
    without a calendar date. *)
Theorem from_file_raises (fh : list byte) (e : exn) :
  from_file fh = Raise e ->
  (24 <= length fh)%nat
  /\ (e = ValueError
      \/ (e = KeyError (first_site fh) /\ _SITE_ID_TO_NAME (first_site fh) = None)).
Proof.
  unfold from_file. cbn [__init__ site_name _SITE_ID_TO_NAME bind].
  destruct (while _ frame _) as [[[srs' first'] fh']|e'|] eqn:W; try discriminate.
  cbn [bind]. intros [= <-]. cbn [while] in W.
  destruct (frame_cases (mkSRS 1 "Palehau" (PyList []) [] [] None None) true fh)
    as [[L0 F]|[(L & _ & V & F)|[[L F]|(L & H & srs0 & (name & V & ->)
                                         & [[L1 [fh0 F]]|[L1 F]])]]];
    rewrite F in W; try discriminate.
  - injection W as <-. split; [exact L|]. right. now split.
  - injection W as <-. split; [exact L|]. now left.
  - match type of W with
    | context [append ?t ?r ?s] =>
        rewrite (append_row t r s
                   (frequency_list (unpack header_format (firstn 24 fh))) eq_refl)
          in W
          by (rewrite frequency_list_length; now apply frame_row_length)
    end.
    apply while_raises_value_error in W.
    + split; [exact L | now left].
    + eexists. split; [reflexivity | apply frequency_list_length].
Qed.

(** X5. A stream whose first header names a site outside the vocabulary is
    refused with [KeyError], whatever else it holds. *)
Theorem from_file_unknown_site (fh : list byte) :
  (24 <= length fh)%nat ->
  _SITE_ID_TO_NAME (first_site fh) = None ->
  from_file fh = Raise (KeyError (first_site fh)).
Proof.
  intros L V. unfold from_file. cbn [__init__ site_name _SITE_ID_TO_NAME bind].
  cbn [while].
  destruct (frame_cases (mkSRS 1 "Palehau" (PyList []) [] [] None None) true fh)
    as [[L0 F]|[(_ & _ & _ & F)|[[_ F]|(_ & H & _)]]].
  - lia.
  - now rewrite F.
  - exfalso. revert F. unfold frame. cbv beta iota delta [read].
    rewrite firstn_length_le by lia. change (24 <? 24)%nat with false. cbv iota.
    unfold save_first_frame, site_name.
    change (field (unpack header_format (firstn 24 fh)) 6) with (first_site fh).
    rewrite V. discriminate.
  - exfalso. unfold header_ok in H.
    change (field (unpack header_format (firstn 24 fh)) 6) with (first_site fh) in H.
    rewrite V in H. discriminate.
Qed.

(** ** The combiner: which sample a grid step takes *)

Lemma where_from_complete {A : Type} (p : A -> bool) (i k : nat) (xs : list A)
      (x : A) :
  nth_error xs k = Some x -> p x = true -> In (i + k)%nat (where_from p i xs).
Proof.
  revert i k. induction xs as [|y xs IH]; intros i k N P.
  - destruct k; discriminate.
  - destruct k as [|k]; simpl in N |- *.
    + injection N as ->. rewrite P, Nat.add_0_r. now left.
    + specialize (IH (S i) k N P). rewrite Nat.add_succ_r.
      destruct (p y); [right|]; exact IH.
Qed.

Lemma where_from_sorted {A : Type} (p : A -> bool) (i : nat) (xs : list A) :
  StronglySorted lt (where_from p i xs).
Proof.
  revert i. induction xs as [|y xs IH]; intros i; simpl.
  - constructor.
  - destruct (p y); [|apply IH]. constructor; [apply IH|].
    eapply Forall_impl; [|apply (where_from_spec p (S i) xs)].
    intros j [L _]. lia.
Qed.

Lemma sorted_positions (l : list nat) (a b x y : nat) :
  StronglySorted lt l ->
  nth_error l a = Some x -> nth_error l b = Some y ->
  (x < y)%nat -> (a < b)%nat.
Proof.
  intros S. revert a b. induction S as [|z l S IH F]; intros a b Na Nb L.
  - destruct a; discriminate.
  - rewrite Forall_forall in F.
    destruct a as [|a], b as [|b]; simpl in Na, Nb.
    + injection Na as ->. injection Nb as ->. lia.
    + lia.
    + injection Nb as ->. apply nth_error_In, F in Na. lia.
    + specialize (IH a b Na Nb L). lia.
Qed.

Lemma Forall2_nth_left {A B : Type} (R : A -> B -> Prop) (xs : list A)
      (ys : list B) (k : nat) (y : B) :
  Forall2 R xs ys -> nth_error ys k = Some y ->
  exists x, nth_error xs k = Some x /\ R x y.
Proof.
  intros F. revert k. induction F as [|x0 y0 xs ys H _ IH]; intros k N.
  - destruct k; discriminate.
  - destruct k as [|k]; simpl in N |- *.
    + injection N as ->. now exists x0.
    + now apply IH.
Qed.

Lemma Forall2_nth_right {A B : Type} (R : A -> B -> Prop) (xs : list A)
      (ys : list B) (k : nat) (x : A) :
  Forall2 R xs ys -> nth_error xs k = Some x ->
  exists y, nth_error ys k = Some y /\ R x y.
Proof.
  intros F. revert k. induction F as [|x0 y0 xs ys H _ IH]; intros k N.
  - destruct k; discriminate.
  - destruct k as [|k]; simpl in N |- *.
    + injection N as ->. now exists y0.
    + now apply IH.
Qed.

Lemma Qlt_bool_false (x y : Q) : Qlt_bool x y = false -> (y <= x)%Q.
Proof.
  unfold Qlt_bool. intros H. apply negb_false_iff in H.
  now apply Qle_bool_iff.
Qed.

(** [argmax_from] finds a greatest value, and the first of them. *)
Lemma argmax_from_spec (w pre : list Q) (best : nat) (best_w : Q) :
  nth_error pre best = Some best_w ->
  (forall k v, nth_error pre k = Some v ->
               (v <= best_w)%Q /\ ((k < best)%nat -> (v < best_w)%Q)) ->
  exists vb,
    nth_error (pre ++ w) (argmax_from best best_w (length pre) w) = Some vb
    /\ forall k v, nth_error (pre ++ w) k = Some v ->
                   (v <= vb)%Q
                   /\ ((k < argmax_from best best_w (length pre) w)%nat
                       -> (v < vb)%Q).
Proof.
  revert pre best best_w. induction w as [|x w IH]; intros pre best best_w N M.
  - cbn [argmax_from]. rewrite app_nil_r. now exists best_w.
  - cbn [argmax_from].
    assert (Lb : (best < length pre)%nat) by (apply nth_error_Some; congruence).
    replace (pre ++ x :: w) with ((pre ++ [x]) ++ w) by now rewrite <- app_assoc.
    replace (S (length pre)) with (length (pre ++ [x]))
      by (rewrite length_app; simpl; lia).
    destruct (Qlt_bool best_w x) eqn:C.
    + apply Qlt_bool_iff in C. apply IH.
      * rewrite nth_error_app2 by lia. now rewrite Nat.sub_diag.
      * intros k v Nk.
        destruct (Nat.lt_ge_cases k (length pre)) as [Lk|Lk].
        -- rewrite nth_error_app1 in Nk by exact Lk.
           destruct (M k v Nk) as [M1 _].
           assert (v < x)%Q by (eapply Qle_lt_trans; eassumption).
           split; [now apply Qlt_le_weak | auto].
        -- rewrite nth_error_app2 in Nk by exact Lk.
           destruct (k - length pre)%nat as [|d] eqn:D;
             [|destruct d; discriminate].
           injection Nk as <-. split; [apply Qle_refl | lia].
    + apply Qlt_bool_false in C. apply IH.
      * now rewrite nth_error_app1 by exact Lb.
      * intros k v Nk.
        destruct (Nat.lt_ge_cases k (length pre)) as [Lk|Lk].
        -- rewrite nth_error_app1 in Nk by exact Lk. now apply M.
        -- rewrite nth_error_app2 in Nk by exact Lk.
           destruct (k - length pre)%nat as [|d] eqn:D;
             [|destruct d; discriminate].
           injection Nk as <-. split; [exact C | lia].
Qed.

Lemma np_argmax_spec (w : list Q) (best : nat) :
  np_argmax w = Ok best ->
  exists vb,
    nth_error w best = Some vb
    /\ forall k v, nth_error w k = Some v ->
                   (v <= vb)%Q /\ ((k < best)%nat -> (v < vb)%Q).
Proof.
  destruct w as [|x w]; [discriminate|]. intros [= <-].
  apply (argmax_from_spec w [x] 0 x); [reflexivity|].
  intros [|[|k]] v N; try discriminate.
  injection N as <-. split; [apply Qle_refl | lia].
Qed.

(** A grid step up to [t1] adds one row, taken as [step_exact] says. *)
Lemma walk_step_exact (p : pool_t) (columns : nat) (t1 : Z) (st : walk_t) :
  pool_ok p columns ->
  walk_t0 st <= t1 ->
  exists l t r,
    walk_step p t1 st
    = Ok (Next (mkWalk (walk_t0 st + 10)
                       (combined_data_sources st ++ [l])
                       (combined_time_range st ++ [t])
                       (combined_data st ++ [r])))
    /\ step_exact p columns (walk_t0 st) l t r.
Proof.
  intros (Ps & Pw & Pr & Pc) L. unfold walk_step.
  assert (E : (walk_t0 st <=? t1) = true) by (apply Z.leb_le; exact L).
  rewrite E. clear E.
  set (near := fun t : Z => Z.abs (t - walk_t0 st) <? 5).
  pose proof (np_where_bound near (time_ranges p)) as B.
  destruct (0 <? length (np_where near (time_ranges p)))%nat eqn:M.
  - apply Nat.ltb_lt in M.
    destruct (take_total (data_sources p) (np_where near (time_ranges p)))
      as [s Ts]; [now rewrite Ps|].
    destruct (take_total (time_ranges p) (np_where near (time_ranges p)))
      as [t Tt]; [exact B|].
    destruct (take_total (weights p) (np_where near (time_ranges p)))
      as [w Tw]; [now rewrite Pw|].
    destruct (take_total (arr_rows (pooled p)) (np_where near (time_ranges p)))
      as [d Td]; [now rewrite Pr|].
    rewrite Ts, Tt, Tw. cbn [bind].
    unfold take_rows. rewrite Pc, Td. cbn [bind].
    pose proof (take_length _ _ _ Ts) as Ls.
    pose proof (take_length _ _ _ Tt) as Lt.
    pose proof (take_length _ _ _ Tw) as Lw.
    pose proof (take_length _ _ _ Td) as Ld.
    apply take_spec in Ts, Tt, Tw, Td.
    destruct (np_argmax_total w) as (best & A & Lb).
    { intros ->. simpl in Lw. lia. }
    rewrite A. cbn [bind].
    destruct (np_argmax_spec w best A) as (vb & Nw & Best).
    destruct (getitem_total s best) as (s_best & -> & Ns); [lia|].
    destruct (getitem_total t best) as (t_best & -> & Nt); [lia|].
    destruct (getitem_total d best) as (d_best & -> & Nd); [lia|].
    cbn [bind].
    exists (Site s_best), t_best, d_best. split; [reflexivity|].
    destruct (Forall2_nth_left _ _ _ _ _ Ts Ns) as (j & Nj & Js).
    destruct (Forall2_nth_left _ _ _ _ _ Tt Nt) as (j1 & Nj1 & Jt).
    destruct (Forall2_nth_left _ _ _ _ _ Tw Nw) as (j2 & Nj2 & Jw).
    destruct (Forall2_nth_left _ _ _ _ _ Td Nd) as (j3 & Nj3 & Jd).
    assert (j1 = j) by congruence. assert (j2 = j) by congruence.
    assert (j3 = j) by congruence. subst j1 j2 j3.
    cbn [step_exact]. exists j, vb.
    split; [exact Js|]. split; [exact Jt|]. split; [exact Jw|]. split; [exact Jd|].
    split.
    { pose proof (np_where_spec near (time_ranges p)) as W.
      rewrite Forall_forall in W.
      destruct (W j (nth_error_In _ _ Nj)) as (x & Nx & Px).
      assert (x = t_best) by congruence. subst x.
      unfold near in Px. now apply Z.ltb_lt in Px. }
    intros j' t' w' Hj' Hnear Hw'.
    assert (Pn : near t' = true) by (unfold near; now apply Z.ltb_lt).
    destruct (In_nth_error _ _
                (where_from_complete near 0 j' (time_ranges p) t' Hj' Pn))
      as [a Na].
    cbn [Nat.add] in Na. fold (np_where near (time_ranges p)) in Na.
    destruct (Forall2_nth_right _ _ _ _ _ Tw Na) as (wa & Nwa & Jwa).
    assert (wa = w') by congruence. subst wa.
    split; [now apply (Best a w')|].
    intros Lj. apply (Best a w' Nwa).
    apply (sorted_positions (np_where near (time_ranges p)) a best j' j);
      [apply where_from_sorted | exact Na | exact Nj | exact Lj].
  - exists Missing, (walk_t0 st), (repeat NaN columns).
    unfold last_dim. rewrite Pc. split; [reflexivity|].
    cbn [step_exact]. split; [|now split].
    apply Forall_forall. intros x I.
    destruct (Z_lt_le_dec (Z.abs (x - walk_t0 st)) 5) as [C|C]; [|exact C].
    exfalso. apply In_nth_error in I as [k N].
    assert (Pn : near x = true) by (unfold near; now apply Z.ltb_lt).
    pose proof (where_from_complete near 0 k (time_ranges p) x N Pn) as W.
    fold (np_where near (time_ranges p)) in W.
    apply Nat.ltb_ge in M. destruct (np_where near (time_ranges p)); [contradiction|].
    simpl in M. lia.
Qed.

Lemma steps_exact_length (p : pool_t) (columns : nat) (t0 : Z)
      (labels : list label) (times : list Z) (rows : list row) :
  steps_exact p columns t0 labels times rows ->
  length labels = length times /\ length rows = length times.
Proof.
  revert t0 times rows.
  induction labels as [|l labels IH]; intros t0 [|t times] [|r rows]; simpl;
    try contradiction; try (now split).
  intros (_ & H). apply IH in H as [H1 H2]. split; congruence.
Qed.

Lemma walk_total_exact (p : pool_t) (columns : nat) (t1 : Z) (k fuel : nat)
      (st : walk_t) :
  pool_ok p columns ->
  grid_steps (walk_t0 st) t1 = k ->
  (k < fuel)%nat ->
  exists labels times rows,
    while fuel (walk_step p t1) st
    = Ok (mkWalk (walk_t0 st + 10 * Z.of_nat k)
                 (combined_data_sources st ++ labels)
                 (combined_time_range st ++ times)
                 (combined_data st ++ rows))
    /\ length times = k
    /\ steps_exact p columns (walk_t0 st) labels times rows.
Proof.
  intros P. revert fuel st. induction k as [|k IH]; intros fuel st K F.
  - destruct fuel as [|fuel]; [lia|]. cbn [while].
    assert (L : t1 < walk_t0 st).
    { destruct (Z_lt_le_dec t1 (walk_t0 st)) as [L|L]; [exact L|].
      rewrite (grid_steps_next _ _ L) in K. discriminate. }
    rewrite (walk_step_done p t1 st L).
    exists [], [], []. rewrite !app_nil_r, Z.mul_0_r, Z.add_0_r.
    destruct st. now repeat split.
  - destruct fuel as [|fuel]; [lia|]. cbn [while].
    assert (L : walk_t0 st <= t1).
    { destruct (Z_lt_le_dec t1 (walk_t0 st)) as [L|L]; [|exact L].
      rewrite (grid_steps_done _ _ L) in K. discriminate. }
    destruct (walk_step_exact p columns t1 st P L) as (l & t & r & -> & A).
    rewrite (grid_steps_next _ _ L) in K. injection K as K.
    destruct (IH fuel (mkWalk (walk_t0 st + 10)
                              (combined_data_sources st ++ [l])
                              (combined_time_range st ++ [t])
                              (combined_data st ++ [r])))
      as (labels & times & rows & W & Ln & G); [exact K | lia |].
    cbn [walk_t0 combined_data_sources combined_time_range combined_data] in W, G.
    exists (l :: labels), (t :: times), (r :: rows).
    rewrite W. split.
    + f_equal. f_equal; [lia | | |]; now rewrite <- app_assoc.
    + split; [simpl; now rewrite Ln|]. simpl. now split.
Qed.

(** ** The combiner: the pool in terms of the inputs *)

Lemma getitem_nth (xs : list Z) (i : nat) (x : Z) :
  getitem xs i = Ok x -> nth i xs 0 = x.
Proof.
  unfold getitem. destruct (nth_error xs i) as [y|] eqn:N; [|discriminate].
  intros [= <-]. now apply nth_error_nth.
Qed.

Lemma load_exact (columns i : nat) (args : list spectrogram) :
  Forall (input_ok columns) args ->
  exists src,
    load i args = Ok src
    /\ concat (src_data_sources src) = pool_labels i args
    /\ concat (src_time_ranges src) = all_times args
    /\ concat (src_weights src) = pool_weights args
    /\ src_data src = map (fun s => mkArray (Columns columns) (_data s)) args.
Proof.
  intros H. revert i. induction H as [|srs args O _ IH]; intros i.
  - eexists. split; [reflexivity|]. now repeat split.
  - cbn [load]. pose proof O as (T & L & R).
    destruct (getitem_total (time_range srs) (length (time_range srs) / 2))
      as (middle_t & G & _).
    { apply Nat.div_lt; [|lia]. destruct (time_range srs); [contradiction|simpl; lia]. }
    rewrite G. apply getitem_nth in G. fold (middle_timestamp srs) in G. subst middle_t.
    cbn [bind]. rewrite (data_ok columns srs O). cbn [bind].
    destruct (IH (S i)) as (acc & -> & A1 & A2 & A3 & A4). cbn [bind].
    eexists. split; [reflexivity|].
    cbn [src_time_ranges src_data_sources src_weights src_data].
    unfold all_times, pool_weights in *. cbn [map concat pool_labels].
    now rewrite A1, A2, A3, A4.
Qed.

Lemma pool_rows_concat (args : list spectrogram) (columns : nat) :
  concat (map arr_rows (map (fun s => mkArray (Columns columns) (_data s)) args))
  = pool_rows args.
Proof.
  unfold pool_rows. rewrite map_map. reflexivity.
Qed.

Lemma pool_labels_length (i : nat) (args : list spectrogram) :
  length (pool_labels i args) = length (all_times args).
Proof.
  unfold all_times. revert i. induction args as [|srs args IH]; intros i.
  - reflexivity.
  - cbn [pool_labels map concat]. now rewrite !length_app, repeat_length, IH.
Qed.

Lemma pool_weights_length (args : list spectrogram) :
  length (pool_weights args) = length (all_times args).
Proof.
  unfold all_times, pool_weights. induction args as [|srs args IH].
  - reflexivity.
  - cbn [map concat]. now rewrite !length_app, length_map, IH.
Qed.

Lemma pool_of_ok (args : list spectrogram) (columns : nat) :
  Forall (input_ok columns) args -> pool_ok (pool_of args columns) columns.
Proof.
  intros O. unfold pool_ok, pool_of.
  cbn [data_sources time_ranges weights pooled arr_rows arr_shape].
  rewrite pool_labels_length, pool_weights_length.
  rewrite <- (pool_rows_concat args columns), (concat_rows_length args columns O).
  now repeat split.
Qed.

(** What [combine_srs] returns for compatible, well-formed inputs, row
    by row against the pool. *)
Lemma combine_srs_exact (first : spectrogram) (rest : list spectrogram)
      (xs0 : list Q) :
  freq_range first = NdArray xs0 ->
  xs0 <> [] ->
  Forall has_array (first :: rest) ->
  forallb (agrees (NdArray xs0)) (first :: rest) = true ->
  Forall (input_ok (length xs0)) (first :: rest) ->
  exists tmin tmax labels times rows,
    np_min (all_times (first :: rest)) = Ok tmin
    /\ np_max (all_times (first :: rest)) = Ok tmax
    /\ combine_srs (first :: rest)
       = Ok (mkSRS (combined_site_id 0 (first :: rest))
                   (combined_site (first :: rest))
                   (NdArray xs0) times rows (Some labels) None)
    /\ length times = grid_steps tmin tmax
    /\ steps_exact (pool_of (first :: rest) (length xs0)) (length xs0) tmin
                   labels times rows.
Proof.
  intros F N A C O. set (args := first :: rest) in *.
  assert (T : all_times args <> []).
  { unfold all_times, args. cbn [map concat].
    inversion O as [|? ? (T & _) _]; subst.
    destruct (time_range first); [contradiction | discriminate]. }
  destruct (np_min_total _ T) as [tmin Hmin].
  destruct (np_max_total _ T) as [tmax Hmax].
  destruct (load_exact (length xs0) 0 args O) as (src & L & S1 & S2 & S3 & S4).
  pose proof (pool_of_ok args (length xs0) O) as P.
  destruct (walk_total_exact (pool_of args (length xs0)) (length xs0) tmax
                             (grid_steps tmin tmax) (S (grid_steps tmin tmax))
                             (mkWalk tmin [] [] []) P)
    as (labels & times & rows & W & Ln & G); [reflexivity | lia |].
  cbn [walk_t0 combined_data_sources combined_time_range combined_data app] in W, G.
  exists tmin, tmax, labels, times, rows.
  split; [exact Hmin|]. split; [exact Hmax|].
  split; [|split; [exact Ln | exact G]].
  unfold combine_srs. change (getitem args 0) with (Ok first). cbn [bind].
  rewrite F.
  pose proof (check_freq_range_spec xs0 args N A) as K. rewrite C in K.
  rewrite K. cbn [bind]. rewrite L. cbn [bind].
  rewrite S4, (concatenate_rows_ok args (length xs0)) by discriminate.
  cbn [bind]. rewrite pool_rows_concat, S1, S2, S3.
  fold (pool_of args (length xs0)). cbn [time_ranges pool_of].
  rewrite Hmin, Hmax. cbn [bind].
  change (mkPool (pool_labels 0 args) (all_times args) (pool_weights args)
                 (mkArray (Columns (length xs0)) (pool_rows args)))
    with (pool_of args (length xs0)).
  rewrite W. cbn [bind]. reflexivity.
Qed.

(** The same, for the inputs as the statements below take them. *)
Lemma combine_srs_rows (first : spectrogram) (rest : list spectrogram)
      (combined : spectrogram) :
  forallb well_formed (first :: rest) = true ->
  compatible (first :: rest) = true ->
  combine_srs (first :: rest) = Ok combined ->
  exists tmin tmax labels,
    np_min (all_times (first :: rest)) = Ok tmin
    /\ np_max (all_times (first :: rest)) = Ok tmax
    /\ _data_source combined = Some labels
    /\ freq_range combined = freq_range first
    /\ length (time_range combined) = grid_steps tmin tmax
    /\ Forall (input_ok (length (axis_values (freq_range first)))) (first :: rest)
    /\ steps_exact (pool_of (first :: rest) (length (axis_values (freq_range first))))
                   (length (axis_values (freq_range first))) tmin
                   labels (time_range combined) (_data combined).
Proof.
  intros W C E.
  assert (W0 : well_formed first = true).
  { cbn [forallb] in W. now apply andb_true_iff in W as [W0 _]. }
  destruct (well_formed_array first W0) as (xs0 & F & N & _).
  pose proof (well_formed_arrays _ W) as A.
  unfold compatible in C. rewrite F in C.
  pose proof (agreeing_inputs_ok xs0 _ W C) as O.
  destruct (combine_srs_exact first rest xs0 F N A C O)
    as (tmin & tmax & labels & times & rows & Hmin & Hmax & E' & Ln & G).
  rewrite E' in E. injection E as <-.
  exists tmin, tmax, labels. rewrite F. cbn.
  now repeat split.
Qed.

Lemma steps_exact_nth (p : pool_t) (columns : nat) (t0 : Z)
      (labels : list label) (times : list Z) (rows : list row) (k : nat) (l : label) :
  steps_exact p columns t0 labels times rows ->
  nth_error labels k = Some l ->
  exists t r,
    nth_error times k = Some t
    /\ nth_error rows k = Some r
    /\ step_exact p columns (t0 + 10 * Z.of_nat k) l t r.
Proof.
  revert t0 times rows k.
  induction labels as [|l0 labels IH]; intros t0 [|t times] [|r rows] k;
    cbn [steps_exact]; try contradiction.
  - destruct k; discriminate.
  - intros [S0 S1] N. destruct k as [|k].
    + injection N as <-. exists t, r. rewrite Z.mul_0_r, Z.add_0_r. now repeat split.
    + cbn [nth_error] in N |- *.
      destruct (IH _ _ _ _ S1 N) as (t' & r' & Nt & Nr & St).
      exists t', r'. repeat split; try assumption.
      replace (t0 + 10 * Z.of_nat (S k)) with (t0 + 10 + 10 * Z.of_nat k) by lia.
      exact St.
Qed.

Lemma nth_error_repeat_eq {A : Type} (x y : A) (n j : nat) :
  nth_error (repeat x n) j = Some y -> y = x.
Proof. intros H. apply nth_error_In in H. now apply repeat_spec in H. Qed.

(** A pooled sample is a sample of the input that its label names. *)
Lemma pool_sample (columns i : nat) (args : list spectrogram)
      (j s : nat) (t : Z) (w : Q) (r : row) :
  Forall (input_ok columns) args ->
  nth_error (pool_labels i args) j = Some s ->
  nth_error (all_times args) j = Some t ->
  nth_error (pool_weights args) j = Some w ->
  nth_error (pool_rows args) j = Some r ->
  exists srs k,
    (i <= s)%nat
    /\ nth_error args (s - i) = Some srs
    /\ nth_error (time_range srs) k = Some t
    /\ nth_error (_data srs) k = Some r
    /\ w = weight (middle_timestamp srs) t.
Proof.
  intros O. revert i j. unfold all_times, pool_weights, pool_rows.
  induction O as [|srs args (T & L & R) _ IH]; intros i j Nl Nt Nw Nr.
  - destruct j; discriminate.
  - cbn [pool_labels map concat] in Nl, Nt, Nw, Nr.
    destruct (Nat.lt_ge_cases j (length (time_range srs))) as [Lj|Lj].
    + rewrite nth_error_app1 in Nl by now rewrite repeat_length.
      rewrite nth_error_app1 in Nt by exact Lj.
      rewrite nth_error_app1 in Nw by now rewrite length_map.
      rewrite nth_error_app1 in Nr by now rewrite L.
      apply nth_error_repeat_eq in Nl. subst s.
      exists srs, j. rewrite Nat.sub_diag. repeat split; try assumption; [lia|].
      rewrite nth_error_map, Nt in Nw. now injection Nw as <-.
    + rewrite nth_error_app2 in Nl by now rewrite repeat_length.
      rewrite nth_error_app2 in Nt by exact Lj.
      rewrite nth_error_app2 in Nw by now rewrite length_map.
      rewrite nth_error_app2 in Nr by now rewrite L.
      rewrite repeat_length in Nl. rewrite length_map in Nw. rewrite L in Nr.
      destruct (IH (S i) _ Nl Nt Nw Nr) as (srs' & k & Ls & Na & Kt & Kr & Kw).
      exists srs', k. repeat split; try assumption; [lia|].
      replace (s - i)%nat with (S (s - S i)) by lia. exact Na.
Qed.


(** ** What a combination holds *)

(** X6. Every row with the label of an input is a sample of that input, its
    timestamp and its spectrum taken at one index, less than 5 s from the
    grid time of the row: labels, timestamps and spectra stay together. *)
Theorem combined_rows_are_samples (first : spectrogram) (rest : list spectrogram)
        (combined : spectrogram) (labels : list label) (tmin : Z) :
  forallb well_formed (first :: rest) = true ->
  compatible (first :: rest) = true ->
  combine_srs (first :: rest) = Ok combined ->
  _data_source combined = Some labels ->
  np_min (all_times (first :: rest)) = Ok tmin ->
  forall k s,
    nth_error labels k = Some (Site s) ->
    exists t r,
      nth_error (time_range combined) k = Some t
      /\ nth_error (_data combined) k = Some r
      /\ sample_of (first :: rest) s t r
      /\ Z.abs (t - (tmin + 10 * Z.of_nat k)) < 5.
Proof.
  intros W C E D M k s N.
  destruct (combine_srs_rows first rest combined W C E)
    as (tmin' & tmax & labels' & Hmin & _ & D' & _ & _ & O & G).
  assert (tmin' = tmin) by congruence. assert (labels' = labels) by congruence.
  subst tmin' labels'.
  destruct (steps_exact_nth _ _ _ _ _ _ k _ G N) as (t & r & Nt & Nr & St).
  destruct St as (j & w & J1 & J2 & J3 & J4 & Near & _).
  cbn [pool_of data_sources time_ranges weights pooled arr_rows] in J1, J2, J3, J4.
  destruct (pool_sample _ 0 _ j s t w r O J1 J2 J3 J4)
    as (srs & i & _ & Na & Kt & Kr & _).
  rewrite Nat.sub_0_r in Na.
  exists t, r. repeat split; try assumption. now exists srs, i.
Qed.

(** X7. A row is a gap row exactly when no timestamp of any input is less
    than 5 s from its grid time; it then carries the grid time and one
    not-a-number per frequency. *)
Theorem combined_gap_rows (first : spectrogram) (rest : list spectrogram)
        (combined : spectrogram) (labels : list label) (tmin : Z) :
  forallb well_formed (first :: rest) = true ->
  compatible (first :: rest) = true ->
  combine_srs (first :: rest) = Ok combined ->
  _data_source combined = Some labels ->
  np_min (all_times (first :: rest)) = Ok tmin ->
  forall k l,
    nth_error labels k = Some l ->
    (l = Missing
     <-> Forall (fun x => 5 <= Z.abs (x - (tmin + 10 * Z.of_nat k)))
                (all_times (first :: rest)))
    /\ (l = Missing ->
        nth_error (time_range combined) k = Some (tmin + 10 * Z.of_nat k)
        /\ nth_error (_data combined) k
           = Some (repeat NaN (length (axis_values (freq_range first))))).
Proof.
  intros W C E D M k l N.
  destruct (combine_srs_rows first rest combined W C E)
    as (tmin' & tmax & labels' & Hmin & _ & D' & _ & _ & O & G).
  assert (tmin' = tmin) by congruence. assert (labels' = labels) by congruence.
  subst tmin' labels'.
  destruct (steps_exact_nth _ _ _ _ _ _ k _ G N) as (t & r & Nt & Nr & St).
  destruct l as [s|]; cbn [step_exact pool_of time_ranges] in St.
  - split; [|discriminate]. split; [discriminate|]. intros F.
    destruct St as (j & w & _ & J2 & _ & _ & Near & _).
    rewrite Forall_forall in F. apply nth_error_In, F in J2. lia.
  - destruct St as (F & -> & ->). split; [now split | now split].
Qed.



(** X9. A combination has at least one row, and its first row is a sample,
    never a gap. *)
Theorem combined_first_row (first : spectrogram) (rest : list spectrogram)
        (combined : spectrogram) :
  forallb well_formed (first :: rest) = true ->
  compatible (first :: rest) = true ->
  combine_srs (first :: rest) = Ok combined ->
  exists s labels, _data_source combined = Some (Site s :: labels).
Proof.
  intros W C E.
  destruct (combine_srs_rows first rest combined W C E)
    as (tmin & tmax & labels & Hmin & Hmax & D & _ & Ln & O & G).
  destruct (np_min_least _ _ Hmin) as [Imin _].
  destruct (np_max_greatest _ _ Hmax) as [_ Fmax].
  rewrite Forall_forall in Fmax. pose proof (Fmax tmin Imin) as Le.
  rewrite (grid_steps_next _ _ Le) in Ln.
  destruct (steps_exact_length _ _ _ _ _ _ G) as [L1 _].
  destruct labels as [|l labels]; [simpl in L1; lia|].
  destruct l as [s|].
  - now exists s, labels.
  - exfalso.
    destruct (steps_exact_nth _ _ _ _ _ _ 0 Missing G eq_refl)
      as (t & r & _ & _ & F & _).
    cbn [pool_of time_ranges] in F. rewrite Forall_forall in F.
    apply F in Imin. lia.
Qed.

Lemma steps_exact_rows (args : list spectrogram) (columns : nat) (t0 : Z)
      (labels : list label) (times : list Z) (rows : list row) :
  Forall (input_ok columns) args ->
  steps_exact (pool_of args columns) columns t0 labels times rows ->
  Forall (fun r : row => length r = columns) rows.
Proof.
  intros O. revert t0 times rows.
  induction labels as [|l labels IH]; intros t0 [|t times] [|r rows];
    cbn [steps_exact]; try contradiction.
  - constructor.
  - intros [S0 S1]. constructor; [|eapply IH; eassumption].
    destruct l as [s|]; cbn [step_exact pool_of pooled arr_rows] in S0.
    + destruct S0 as (j & w & _ & _ & _ & J4 & _).
      apply nth_error_In in J4. unfold pool_rows in J4.
      apply in_concat in J4 as (rs & I1 & I2).
      apply in_map_iff in I1 as (srs & <- & I1).
      rewrite Forall_forall in O. destruct (O srs I1) as (_ & _ & R).
      rewrite Forall_forall in R. now apply R.
    + destruct S0 as (_ & _ & ->). apply repeat_length.
Qed.

(** X10. A combination keeps the invariants of a spectrogram, on the frequency
    axis of the first input, so that it can be combined again. *)
Theorem combined_is_well_formed (first : spectrogram) (rest : list spectrogram)
        (combined : spectrogram) :
  forallb well_formed (first :: rest) = true ->
  compatible (first :: rest) = true ->
  combine_srs (first :: rest) = Ok combined ->
  freq_range combined = freq_range first
  /\ well_formed combined = true
  /\ exists again, combine_srs [combined] = Ok again.
Proof.
  intros W C E.
  destruct (combine_srs_rows first rest combined W C E)
    as (tmin & tmax & labels & Hmin & Hmax & D & F & Ln & O & G).
  assert (W0 : well_formed first = true).
  { cbn [forallb] in W. now apply andb_true_iff in W as [W0 _]. }
  destruct (well_formed_array first W0) as (xs0 & F0 & N & _).
  rewrite F0 in *. cbn [axis_values] in *.
  destruct (np_min_least _ _ Hmin) as [Imin _].
  destruct (np_max_greatest _ _ Hmax) as [_ Fmax].
  rewrite Forall_forall in Fmax. pose proof (Fmax tmin Imin) as Le.
  rewrite (grid_steps_next _ _ Le) in Ln.
  destruct (steps_exact_length _ _ _ _ _ _ G) as [_ L2].
  pose proof (steps_exact_rows _ _ _ _ _ _ O G) as R.
  assert (Wc : well_formed combined = true).
  { unfold well_formed. rewrite F.
    repeat (apply andb_true_iff; split).
    - apply Nat.ltb_lt. destruct xs0; [contradiction | simpl; lia].
    - apply Nat.ltb_lt. lia.
    - now apply Nat.eqb_eq.
    - apply forallb_forall. intros r I. rewrite Forall_forall in R.
      now apply Nat.eqb_eq, R. }
  split; [exact F|]. split; [exact Wc|].
  assert (Ac : forallb (agrees (NdArray xs0)) [combined] = true).
  { cbn [forallb]. unfold agrees. rewrite F. cbn [axis_values].
    rewrite Nat.eqb_refl.
    assert (Q1 : forall q, Qeq_bool q q = true) by (intros q; now apply Qeq_bool_iff).
    now rewrite !Q1. }
  destruct (combine_srs_total combined [] xs0 F N)
    as (_ & _ & ? & ? & ? & _ & _ & Ea & _).
  - constructor; [now exists xs0 | constructor].
  - exact Ac.
  - apply (agreeing_inputs_ok xs0 [combined]); [|exact Ac].
    cbn [forallb]. now rewrite Wc.
  - eexists. exact Ea.
Qed.

(** ** The site of a combination *)

Lemma string_app_assoc (a b c : string) :
  String.append (String.append a b) c = String.append a (String.append b c).
Proof. induction a as [|x a IH]; simpl; [reflexivity | now rewrite IH]. Qed.

Lemma drop_last_cons (c d : ascii) (s : string) :
  drop_last (String c (String d s)) = String c (drop_last (String d s)).
Proof. reflexivity. Qed.

Lemma drop_last_plus (s : string) : drop_last (String.append s "+") = s.
Proof.
  induction s as [|c s IH]; [reflexivity|].
  destruct s as [|d s]; [reflexivity|].
  change (String.append (String c (String d s)) "+")
    with (String c (String d (String.append s "+"))).
  rewrite drop_last_cons.
  change (String d (String.append s "+")) with (String.append (String d s) "+").
  now rewrite IH.
Qed.

Lemma fold_site_acc (args : list spectrogram) (acc : string) :
  fold_left (fun a srs => String.append a (String.append (site srs) "+")) args acc
  = String.append acc
      (fold_left (fun a srs => String.append a (String.append (site srs) "+"))
                 args "").
Proof.
  revert acc. induction args as [|srs args IH]; intros acc; cbn [fold_left].
  - induction acc as [|c acc IHa]; simpl; [reflexivity | now rewrite <- IHa].
  - rewrite IH. rewrite (IH (String.append "" _)). cbn [String.append].
    now rewrite string_app_assoc.
Qed.

Lemma fold_site_join (srs : spectrogram) (args : list spectrogram) :
  fold_left (fun a s => String.append a (String.append (site s) "+"))
            (srs :: args) ""
  = String.append (String.concat "+" (map site (srs :: args))) "+".
Proof.
  revert srs. induction args as [|b args IH]; intros srs.
  - reflexivity.
  - change (fold_left (fun a s => String.append a (String.append (site s) "+"))
                      (srs :: b :: args) "")
      with (fold_left (fun a s => String.append a (String.append (site s) "+"))
                      (b :: args) (String.append (site srs) "+")).
    rewrite fold_site_acc, (IH b).
    change (String.concat "+" (map site (srs :: b :: args)))
      with (String.append (site srs)
              (String.append "+" (String.concat "+" (map site (b :: args))))).
    now rewrite !string_app_assoc.
Qed.

(** The site name of a combination is the names of the inputs joined
    with plus signs, in the order of the inputs. *)
Theorem combined_site_join (args : list spectrogram) :
  combined_site args = String.concat "+" (map site args).
Proof.
  unfold combined_site. destruct args as [|srs args]; [reflexivity|].
  now rewrite fold_site_join, drop_last_plus.
Qed.

Lemma combined_site_id_shift (i : nat) (args : list spectrogram) :
  combined_site_id i args = 10 ^ Z.of_nat i * combined_site_id 0 args.
Proof.
  revert i. induction args as [|srs args IH]; intros i; cbn [combined_site_id].
  - lia.
  - rewrite (IH (S i)), (IH 1%nat).
    rewrite Nat2Z.inj_succ, Z.pow_succ_r by lia.
    change (Z.of_nat 0) with 0. change (Z.of_nat 1) with 1.
    rewrite Z.pow_0_r, Z.pow_1_r. lia.
Qed.

Lemma combined_site_id_nonneg (args : list spectrogram) :
  Forall (fun srs => 0 <= site_id srs <= 9) args ->
  0 <= combined_site_id 0 args.
Proof.
  induction 1 as [|srs args R _ IH]; cbn [combined_site_id]; [lia|].
  rewrite (combined_site_id_shift 1). change (Z.of_nat 0) with 0.
  change (Z.of_nat 1) with 1. rewrite Z.pow_0_r, Z.pow_1_r. lia.
Qed.

(** When the site numbers of the inputs are single digits, as those of
    the vocabulary are, the site number of a combination holds the site
    number of input [i] as its decimal digit [i]. *)
Theorem combined_site_id_digit (args : list spectrogram) (i : nat)
        (srs : spectrogram) :
  Forall (fun s => 0 <= site_id s <= 9) args ->
  nth_error args i = Some srs ->
  (combined_site_id 0 args / 10 ^ Z.of_nat i) mod 10 = site_id srs.
Proof.
  intros R. revert i. induction R as [|a args Ra R IH]; intros i N.
  - destruct i; discriminate.
  - cbn [combined_site_id]. rewrite (combined_site_id_shift 1).
    change (Z.of_nat 0) with 0. change (Z.of_nat 1) with 1.
    rewrite Z.pow_0_r, Z.pow_1_r, Z.mul_1_r.
    pose proof (combined_site_id_nonneg args R) as P.
    destruct i as [|i]; cbn [nth_error] in N.
    + injection N as <-. change (Z.of_nat 0) with 0. rewrite Z.pow_0_r, Z.div_1_r.
      replace (site_id a + 10 * combined_site_id 0 args)
        with (site_id a + combined_site_id 0 args * 10) by lia.
      rewrite Z.mod_add by lia. apply Z.mod_small. lia.
    + rewrite Nat2Z.inj_succ, Z.pow_succ_r by lia.
      rewrite <- Z.div_div by (try apply Z.pow_pos_nonneg; lia).
      replace ((site_id a + 10 * combined_site_id 0 args) / 10)
        with (combined_site_id 0 args).
      * now apply IH.
      * replace (site_id a + 10 * combined_site_id 0 args)
          with (site_id a + combined_site_id 0 args * 10) by lia.
        rewrite Z.div_add by lia.
        rewrite (Z.div_small (site_id a) 10) by lia. lia.
Qed.

Lemma combined_site_id_digit_witness :
  Forall (fun s => 0 <= site_id s <= 9) [interior_a; interior_b]
  /\ nth_error [interior_a; interior_b] 1 = Some interior_b
  /\ (combined_site_id 0 [interior_a; interior_b] / 10 ^ Z.of_nat 1) mod 10
     = site_id interior_b.
Proof.
  assert (R : Forall (fun s => 0 <= site_id s <= 9) [interior_a; interior_b]).
  { repeat constructor; simpl; lia. }
  split; [exact R|]. split; [reflexivity|].
  exact (combined_site_id_digit [interior_a; interior_b] 1 interior_b R eq_refl).
Defined.

(** ** One input on the grid *)

Lemma nth_error_grid (t0 : Z) (n j : nat) (t : Z) :
  nth_error (grid t0 n) j = Some t <-> (j < n)%nat /\ t = t0 + 10 * Z.of_nat j.
Proof.
  revert t0 j. induction n as [|n IH]; intros t0 j; cbn [grid].
  - split; [destruct j; discriminate | lia].
  - destruct j as [|j]; cbn [nth_error].
    + split; [intros [= <-]; split; lia | intros [_ ->]; f_equal; lia].
    + rewrite IH. split; intros [L ->]; split; lia.
Qed.

Lemma grid_length (t0 : Z) (n : nat) : length (grid t0 n) = n.
Proof. revert t0. induction n; intros t0; simpl; auto. Qed.

Lemma skipn_nth {A : Type} (xs : list A) (k : nat) (x : A) :
  nth_error xs k = Some x -> skipn k xs = x :: skipn (S k) xs.
Proof.
  revert k. induction xs as [|y xs IH]; intros k N.
  - destruct k; discriminate.
  - destruct k as [|k]; cbn [nth_error] in N.
    + now injection N as ->.
    + cbn [skipn]. now apply IH.
Qed.

Lemma agrees_self (srs : spectrogram) : agrees (freq_range srs) srs = true.
Proof.
  unfold agrees. rewrite Nat.eqb_refl.
  assert (Q1 : forall q, Qeq_bool q q = true) by (intros q; now apply Qeq_bool_iff).
  now rewrite !Q1.
Qed.

(** The rows that the walk makes of one input whose timestamps are the
    grid itself. *)
Lemma steps_exact_uniform (srs : spectrogram) (columns : nat) (t0 : Z) (n k : nat)
      (labels : list label) (times : list Z) (rows : list row) :
  time_range srs = grid t0 n ->
  length (_data srs) = n ->
  steps_exact (pool_of [srs] columns) columns (t0 + 10 * Z.of_nat k)
              labels times rows ->
  (k + length labels <= n)%nat ->
  labels = repeat (Site 0) (length labels)
  /\ times = grid (t0 + 10 * Z.of_nat k) (length labels)
  /\ rows = firstn (length labels) (skipn k (_data srs)).
Proof.
  intros T D. revert k times rows.
  induction labels as [|l labels IH]; intros k [|t times] [|r rows];
    cbn [steps_exact]; try contradiction.
  - now repeat split.
  - intros [S0 S1] L. cbn [length] in L |- *.
    replace (t0 + 10 * Z.of_nat k + 10) with (t0 + 10 * Z.of_nat (S k)) in S1 by lia.
    destruct (IH (S k) times rows S1) as (E1 & E2 & E3); [lia|].
    assert (G : nth_error (grid t0 n) k = Some (t0 + 10 * Z.of_nat k))
      by (apply nth_error_grid; split; [lia | reflexivity]).
    destruct l as [s|];
      cbn [step_exact pool_of data_sources time_ranges weights pooled arr_rows
           pool_labels all_times pool_rows map concat] in S0;
      rewrite ?app_nil_r, T in S0.
    + destruct S0 as (j & w & J1 & J2 & _ & J4 & Near & _).
      apply nth_error_repeat_eq in J1. subst s.
      apply nth_error_grid in J2 as [Lj ->].
      assert (j = k) by lia. subst j.
      cbn [repeat grid]. rewrite (skipn_nth _ _ _ J4). cbn [firstn].
      rewrite <- E1, <- E3.
      replace (t0 + 10 * Z.of_nat k + 10) with (t0 + 10 * Z.of_nat (S k)) by lia.
      now rewrite <- E2.
    + exfalso. destruct S0 as (F & _). rewrite Forall_forall in F.
      apply nth_error_In, F in G. lia.
Qed.

Lemma grid_steps_grid (t0 : Z) (n : nat) :
  grid_steps t0 (t0 + 10 * Z.of_nat n) = S n.
Proof.
  unfold grid_steps.
  replace (t0 + 10 * Z.of_nat n - t0) with (Z.of_nat n * 10) by lia.
  rewrite Z.div_mul by lia. lia.
Qed.

(** X13. Combining one input whose timestamps are 10 s apart gives that input
    back: the same timestamps and rows, every row labelled 0, under the
    site number and name of the input. *)
Theorem combine_uniform_input (srs : spectrogram) (t0 : Z) (n : nat) :
  well_formed srs = true ->
  time_range srs = grid t0 n ->
  combine_srs [srs]
  = Ok (mkSRS (site_id srs) (site srs) (freq_range srs) (time_range srs)
              (_data srs) (Some (repeat (Site 0) n)) None).
Proof.
  intros W T.
  destruct (well_formed_array srs W) as (xs0 & F & N & O).
  assert (A : forallb (agrees (NdArray xs0)) [srs] = true).
  { cbn [forallb]. rewrite <- F, agrees_self. reflexivity. }
  destruct (combine_srs_exact srs [] xs0 F N)
    as (tmin & tmax & labels & times & rows & Hmin & Hmax & E & Ln & G).
  { constructor; [now exists xs0 | constructor]. }
  { exact A. }
  { constructor; [exact O | constructor]. }
  pose proof O as (Tn & D & _). rewrite T, grid_length in D.
  unfold all_times in Hmin, Hmax. cbn [map concat] in Hmin, Hmax.
  rewrite app_nil_r, T in Hmin, Hmax.
  destruct n as [|n]; [rewrite T in Tn; now contradiction Tn|].
  destruct (np_min_least _ _ Hmin) as [Imin Fmin].
  destruct (np_max_greatest _ _ Hmax) as [Imax Fmax].
  rewrite Forall_forall in Fmin, Fmax.
  apply In_nth_error in Imin as [a Na]. apply nth_error_grid in Na as [La Ea].
  apply In_nth_error in Imax as [b Nb]. apply nth_error_grid in Nb as [Lb Eb].
  assert (I0 : In t0 (grid t0 (S n))) by now left.
  assert (I1 : In (t0 + 10 * Z.of_nat n) (grid t0 (S n))).
  { eapply nth_error_In. apply nth_error_grid. split; [|reflexivity]. lia. }
  apply Fmin in I0. apply Fmax in I1.
  assert (a = 0%nat) by lia. assert (b = n) by lia. subst a b.
  change (Z.of_nat 0) with 0 in Ea. rewrite Z.mul_0_r, Z.add_0_r in Ea.
  subst tmin tmax.
  rewrite grid_steps_grid in Ln.
  destruct (steps_exact_length _ _ _ _ _ _ G) as [L1 L2].
  assert (G0 : steps_exact (pool_of [srs] (length xs0)) (length xs0)
                           (t0 + 10 * Z.of_nat 0) labels times rows).
  { replace (t0 + 10 * Z.of_nat 0) with t0 by (simpl; lia). exact G. }
  destruct (steps_exact_uniform srs (length xs0) t0 (S n) 0 labels times rows T D G0)
    as (E1 & E2 & E3); [lia|].
  rewrite L1, Ln in E1, E2, E3.
  replace (t0 + 10 * Z.of_nat 0) with t0 in E2 by (simpl; lia).
  cbn [skipn] in E3. rewrite <- D, firstn_all in E3.
  rewrite E, E1, E2, E3, T, F. f_equal. f_equal.
  - cbn [combined_site_id]. change (Z.of_nat 0) with 0. rewrite Z.pow_0_r. lia.
  - unfold combined_site. cbn [fold_left]. apply drop_last_plus.
Qed.

(** ** From a decoded stream to a combination *)

Lemma from_file_axis (fh : list byte) (srs : spectrogram) :
  (24 <= length fh)%nat ->
  from_file fh = Ok srs ->
  freq_range srs = NdArray (frequency_list (unpack header_format (firstn 24 fh))).
Proof.
  intros L. unfold from_file. cbn [__init__ site_name _SITE_ID_TO_NAME bind].
  destruct (while _ frame _) as [[[srs' first'] fh']|e|] eqn:W; try discriminate.
  cbn [bind]. intros [= <-].
  apply while_frame_axis in W as [_ W]. cbn [fst] in W. now apply W.
Qed.

Lemma from_file_short (fh : list byte) (srs : spectrogram) :
  (length fh < 24)%nat ->
  from_file fh = Ok srs ->
  srs = mkSRS 1 "Palehau" (PyList []) [] [] None None.
Proof.
  intros L. unfold from_file. cbn [__init__ site_name _SITE_ID_TO_NAME bind].
  cbn [while].
  destruct (frame_cases (mkSRS 1 "Palehau" (PyList []) [] [] None None) true fh)
    as [[_ F]|[(L' & _)|[[L' _]|(L' & _)]]]; try lia.
  rewrite F. cbn [bind]. now intros [= <-].
Qed.

(** X14. A spectrogram decoded from a stream with a whole frame keeps the
    invariants of a spectrogram, and [combine_srs] takes it on its own. *)
Theorem decoded_is_combined (fh : list byte) (srs : spectrogram) :
  (frame_size <= length fh)%nat ->
  from_file fh = Ok srs ->
  well_formed srs = true
  /\ exists combined, combine_srs [srs] = Ok combined.
Proof.
  intros L H.
  assert (L24 : (24 <= length fh)%nat) by (unfold frame_size in L; lia).
  pose proof (from_file_axis fh srs L24 H) as F.
  destruct (from_file_decoded fh srs H) as (R1 & R2 & _).
  assert (P : (1 <= length fh / frame_size)%nat).
  { apply Nat.div_le_lower_bound; [unfold frame_size; lia | lia]. }
  assert (S1 : Forall (fun r : row => length r = 802%nat /\ Forall calibrated r)
                      (_data srs)).
  { rewrite R1. apply decoded_rows_shape.
    pose proof (Nat.Div0.mul_div_le (length fh) frame_size). lia. }
  assert (W : well_formed srs = true).
  { unfold well_formed. rewrite F, frequency_list_length.
    rewrite R1, R2, decoded_rows_length, decoded_times_length.
    repeat (apply andb_true_iff; split).
    - reflexivity.
    - apply Nat.ltb_lt. lia.
    - apply Nat.eqb_refl.
    - apply forallb_forall. intros r I. rewrite <- R1 in I.
      rewrite Forall_forall in S1. apply Nat.eqb_eq. now apply S1. }
  split; [exact W|].
  destruct (well_formed_array srs W) as (xs0 & F0 & N & O).
  destruct (combine_srs_total srs [] xs0 F0 N)
    as (_ & _ & ? & ? & ? & _ & _ & E & _).
  - constructor; [now exists xs0 | constructor].
  - cbn [forallb]. rewrite <- F0, agrees_self. reflexivity.
  - constructor; [exact O | constructor].
  - eexists. exact E.
Qed.

(** X15. A spectrogram decoded from less than a frame is not combined: from
    less than a header it has no frequency array and [AttributeError] is
    raised, otherwise it has no row and [IndexError] is raised. *)
Theorem decoded_without_frame_not_combined (fh : list byte) (srs : spectrogram) :
  (length fh < frame_size)%nat ->
  from_file fh = Ok srs ->
  combine_srs [srs]
  = Raise (if (length fh <? 24)%nat then AttributeError "size" else IndexError).
Proof.
  intros L H. destruct (length fh <? 24)%nat eqn:L24.
  - apply Nat.ltb_lt in L24. now rewrite (from_file_short fh srs L24 H).
  - apply Nat.ltb_ge in L24.
    pose proof (from_file_axis fh srs L24 H) as F.
    destruct (from_file_decoded fh srs H) as (_ & R2 & _).
    rewrite (Nat.div_small _ _ L) in R2. cbn [decoded_times] in R2.
    unfold combine_srs. cbn [getitem nth_error bind].
    pose proof (check_freq_range_spec
                  (frequency_list (unpack header_format (firstn 24 fh))) [srs]) as K.
    rewrite <- F in K. cbn [forallb] in K. rewrite agrees_self in K.
    rewrite K.
    + cbn [bind load]. now rewrite R2.
    + intros E. apply (f_equal (@length Q)) in E.
      rewrite frequency_list_length in E. discriminate.
    + constructor; [eexists; exact F | constructor].
Qed.

(** ** What the rectifier raises *)

Lemma row_ref_raises (_data : loc) (i : nat) (st st' : rect_t) (e : exn) :
  row_ref _data i st = (st', Raise e) -> e = IndexError.
Proof.
  unfold row_ref, getitem. destruct (nth_error _ i); intros E; inv_pair E.
  - discriminate.
  - reflexivity.
Qed.

Lemma band_median_raises (_data : loc) (i : nat) (st st' : rect_t) (e : exn) :
  band_median _data i st = (st', Raise e) -> e = IndexError.
Proof.
  unfold band_median, rbind, row_ref, getitem.
  destruct (nth_error _ i); intros E; inv_pair E; [discriminate | reflexivity].
Qed.

Lemma iadd_all_raises (_data : loc) (source_set : list nat) (offset : f64)
      (st st' : rect_t) (e : exn) :
  iadd_all _data source_set offset st = (st', Raise e) -> e = IndexError.
Proof.
  revert st. induction source_set as [|i rest IH]; intros st; simpl.
  - unfold rret. intros E. inv_pair E. discriminate.
  - unfold rbind. destruct (iadd _data i offset st) as [st1 o1] eqn:E1.
    destruct o1 as [[]|e1|].
    + apply IH.
    + intros E. inv_pair E.
      unfold iadd, rbind, row_ref, getitem in E1.
      destruct (nth_error _ i); inv_pair E1; [discriminate | reflexivity].
    + intros E. inv_pair E. discriminate.
Qed.

Lemma getitem_raises {A : Type} (xs : list A) (i : nat) (e : exn) :
  getitem xs i = Raise e -> e = IndexError.
Proof. unfold getitem. destruct (nth_error xs i); [discriminate | now intros [= <-]]. Qed.

Lemma getitem_last_raises {A : Type} (xs : list A) (e : exn) :
  getitem_last xs = Raise e -> e = IndexError.
Proof. destruct xs; simpl; [now intros [= <-] | discriminate]. Qed.

Lemma first_index_zero (s : nat) (data_source : list label) :
  getitem (np_where (label_eqb (Site s)) data_source) 0 = Ok 0%nat ->
  hd_error data_source = Some (Site s).
Proof.
  unfold getitem. destruct (nth_error _ 0) as [j|] eqn:N; [|discriminate].
  intros [= ->]. apply nth_error_In in N.
  pose proof (np_where_spec (label_eqb (Site s)) data_source) as W.
  rewrite Forall_forall in W. destruct (W 0%nat N) as (x & Nx & Px).
  apply label_eqb_eq in Px. subst x.
  destruct data_source; [discriminate | exact Nx].
Qed.

(** With the site of the first row among the processed ones, a visit
    raises nothing but [IndexError]: the run of a site to visit never
    starts at the first row, and the branch for that is not reached. *)
Lemma adjust_raises (ref : label) (data_source : list label) (_data : loc)
      (s : nat) (st st' : rect_t) (e : exn) :
  hd_error data_source = Some ref ->
  label_in ref (processed st) = true ->
  adjust data_source _data s st = (st', Raise e) ->
  e = IndexError.
Proof.
  intros Hd K. unfold adjust, get_processed. unfold rbind at 1.
  destruct (label_in (Site s) (processed st)) eqn:U.
  { unfold rret. intros E. inv_pair E. discriminate. }
  unfold rbind at 1, lift.
  destruct (getitem (np_where (label_eqb (Site s)) data_source) 0)
    as [first|e1|] eqn:G1.
  2:{ intros E. inv_pair E. now apply getitem_raises in G1. }
  2:{ intros E. inv_pair E. discriminate. }
  destruct (0 <? first)%nat eqn:P.
  - unfold rbind at 1.
    destruct (getitem data_source (first - 1)) as [source_before|e1|] eqn:G2.
    2:{ intros E. inv_pair E. now apply getitem_raises in G2. }
    2:{ intros E. inv_pair E. discriminate. }
    destruct (label_in source_before (processed st)).
    + unfold rbind at 1.
      destruct (band_median _data (first - 1) st) as [st1 o1] eqn:B1.
      destruct o1 as [bd|e1|].
      2:{ intros E. inv_pair E. now apply band_median_raises in B1. }
      2:{ intros E. inv_pair E. discriminate. }
      unfold rbind at 1.
      destruct (band_median _data first st1) as [st2 o2] eqn:B2.
      destruct o2 as [cu|e2|].
      2:{ intros E. inv_pair E. now apply band_median_raises in B2. }
      2:{ intros E. inv_pair E. discriminate. }
      unfold rbind at 1.
      destruct (iadd_all _data _ (f64_sub bd cu) st2) as [st3 o3] eqn:I3.
      destruct o3 as [[]|e3|].
      * unfold mark_processed. intros E. inv_pair E. discriminate.
      * intros E. inv_pair E. now apply iadd_all_raises in I3.
      * intros E. inv_pair E. discriminate.
    + unfold rret. intros E. inv_pair E. discriminate.
  - exfalso. apply Nat.ltb_ge in P. assert (first = 0%nat) by lia. subst first.
    apply first_index_zero in G1. rewrite Hd in G1. injection G1 as ->.
    rewrite K in U. discriminate.
Qed.

Lemma scan_raises (ref : label) (data_source : list label) (_data : loc)
      (sources : list nat) (st st' : rect_t) (e : exn) :
  hd_error data_source = Some ref ->
  kept ref st ->
  scan data_source _data sources st = (st', Raise e) ->
  e = IndexError.
Proof.
  intros Hd. revert st. induction sources as [|s rest IH]; intros st K; simpl.
  - unfold rret. intros E. inv_pair E. discriminate.
  - unfold rbind.
    destruct (adjust data_source _data s st) as [st1 o1] eqn:A.
    pose proof A as A'. apply adjust_visited in A' as [V _].
    pose proof (visited_kept ref s st st1 V K) as K1.
    destruct o1 as [[]|e1|].
    + now apply IH.
    + intros E. inv_pair E. destruct K as [K _].
      eapply adjust_raises; eassumption.
    + intros E. inv_pair E. discriminate.
Qed.

Lemma rect_while_raises (ref : label) (data_source : list label) (_data : loc)
      (sources : list nat) (fuel : nat) (st st' : rect_t) (e : exn) :
  hd_error data_source = Some ref ->
  kept ref st ->
  rect_while fuel (attempt data_source _data sources) st = (st', Raise e) ->
  e = IndexError \/ e = stalled.
Proof.
  intros Hd. revert st. induction fuel as [|fuel IH]; intros st K; cbn [rect_while].
  - intros E. inv_pair E. discriminate.
  - unfold attempt at 1.
    destruct (length (processed st) <? length sources)%nat;
      [| intros E; inv_pair E; discriminate].
    cbn [attemps].
    destruct (5 * length sources <? S (attemps st))%nat;
      [intros E; inv_pair E; now right|].
    destruct (scan data_source _data sources
                   (mkRect (S (attemps st)) (processed st) (adjustments st) (store st)))
      as [st1 o1] eqn:S1.
    assert (K0 : kept ref (mkRect (S (attemps st)) (processed st)
                                  (adjustments st) (store st))) by exact K.
    pose proof (scan_kept ref _ _ _ _ _ _ S1 K0) as K1.
    destruct o1 as [[]|e1|].
    + now apply IH.
    + intros E. inv_pair E. left.
      exact (scan_raises ref data_source _data sources _ _ _ Hd K0 S1).
    + intros E. inv_pair E. discriminate.
Qed.

Lemma kept_initially (ref : label) (h : heap) :
  kept ref (mkRect 0 [ref] [(ref, Fin 0)] h).
Proof.
  assert (E : label_eqb ref ref = true) by now apply label_eqb_eq.
  split; simpl; now rewrite E.
Qed.

(** X17. [rectify_combined] raises nothing but the error for an input that is
    not combined, [IndexError], and the error for sites it could not
    adjust; the unbound name of the branch for a run at the first row is
    never read. *)
Theorem rectify_raises (srs : object) (h h' : heap) (e : exn) :
  rectify_combined srs h = (h', Raise e) ->
  e = not_combined \/ e = IndexError \/ e = stalled.
Proof.
  unfold rectify_combined.
  destruct (_data_source srs) as [data_source|];
    [| intros E; inv_pair E; now left].
  destruct (pick_reference data_source) as [ref|e1|] eqn:P.
  - pose proof (pick_reference_first _ _ P) as Hd.
    destruct (rect_while _ _ _) as [st o] eqn:W.
    destruct o as [[]|e2|].
    + unfold deepcopy_data. intros E. inv_pair E. discriminate.
    + intros E. inv_pair E. right.
      eapply rect_while_raises; [exact Hd | apply kept_initially | exact W].
    + intros E. inv_pair E. discriminate.
  - intros E. inv_pair E. right. left.
    unfold pick_reference in P.
    destruct (getitem (np_where _ _) 0) as [i|e2|] eqn:G; cbn [bind] in P.
    + now apply getitem_raises in P.
    + injection P as <-. now apply getitem_raises in G.
    + discriminate.
  - intros E. inv_pair E. discriminate.
Qed.

(** X16. A decoded spectrogram is not a combined one: whatever list of rows
    it is given in the store, [rectify_combined] refuses it and leaves
    the store as it is. *)
Theorem decoded_is_not_rectified (fh : list byte) (srs : spectrogram)
        (l : loc) (h : heap) :
  from_file fh = Ok srs ->
  rectify_combined (as_object srs l) h = (h, Raise not_combined).
Proof.
  intros H. destruct (from_file_decoded fh srs H) as (_ & _ & D).
  unfold rectify_combined, as_object. cbn [_data_source]. now rewrite D.
Qed.

(** ** Every site gets its offset *)

Lemma insert_unique_In (x y : nat) (xs : list nat) :
  In y (insert_unique x xs) <-> y = x \/ In y xs.
Proof.
  induction xs as [|z xs IH]; simpl.
  - intuition.
  - destruct (x <? z)%nat; [simpl; intuition|].
    destruct (x =? z)%nat eqn:E.
    + apply Nat.eqb_eq in E. subst z. simpl. intuition.
    + simpl. rewrite IH. intuition.
Qed.

Lemma np_unique_In (y : nat) (xs : list nat) : In y (np_unique xs) <-> In y xs.
Proof.
  unfold np_unique. induction xs as [|x xs IH]; simpl; [reflexivity|].
  rewrite insert_unique_In, IH. intuition.
Qed.

Lemma clean_In (s : nat) (data_source : list label) :
  In s (clean data_source) <-> In (Site s) data_source.
Proof.
  induction data_source as [|[i|] rest IH]; simpl.
  - reflexivity.
  - rewrite IH. split; intros [E|I]; auto; left; congruence.
  - rewrite IH. split; [auto | intros [E|I]; [discriminate | exact I]].
Qed.

Lemma dict_get_set_same (d : list (label * f64)) (key : label) (value : f64) :
  dict_get (dict_set d key value) key = Some value.
Proof.
  assert (R : label_eqb key key = true) by now apply label_eqb_eq.
  induction d as [|[k v] d IH]; simpl.
  - now rewrite R.
  - destruct (label_eqb k key) eqn:E; simpl; rewrite E; [reflexivity | exact IH].
Qed.

Lemma NoDup_snoc {A : Type} (l : list A) (x : A) :
  NoDup l -> ~ In x l -> NoDup (l ++ [x]).
Proof.
  induction 1 as [|a l Na Nl IH]; intros Nx; simpl.
  - constructor; [intros [] | constructor].
  - constructor.
    + intros I. apply in_app_or in I as [I|[I|[]]]; [contradiction|].
      subst a. apply Nx. now left.
    + apply IH. intros I. apply Nx. now right.
Qed.

Lemma visited_recorded (sources : list nat) (s : nat) (st st' : rect_t) :
  visited s st st' -> In s sources ->
  sites_recorded sources st -> sites_recorded sources st'.
Proof.
  intros (_ & _ & [[P A]|(U & P & offset & A)]) I (done & D & N & C & G).
  - exists done. rewrite P, A. now repeat split.
  - assert (Ns : ~ In s done).
    { intros Is. rewrite D in U.
      assert (T : label_in (Site s) (map Site done) = true)
        by (apply label_in_In; now apply in_map).
      rewrite T in U. discriminate. }
    exists (done ++ [s]). rewrite P, A, D, map_app. split; [reflexivity|].
    split; [now apply NoDup_snoc|]. split.
    + intros x Ix. apply in_app_or in Ix as [Ix|[<-|[]]]; [now apply C | exact I].
    + intros x Ix. apply in_app_or in Ix as [Ix|[<-|[]]].
      * rewrite dict_get_set_other; [now apply G|].
        intros [= ->]. contradiction.
      * rewrite dict_get_set_same. discriminate.
Qed.

Lemma scan_recorded (sources : list nat) (data_source : list label) (_data : loc)
      (todo : list nat) (st st' : rect_t) (o : outcome unit) :
  scan data_source _data todo st = (st', o) ->
  incl todo sources ->
  sites_recorded sources st -> sites_recorded sources st'.
Proof.
  revert st. induction todo as [|s rest IH]; intros st; simpl.
  - unfold rret. intros E. now inv_pair E.
  - unfold rbind.
    destruct (adjust data_source _data s st) as [st1 o1] eqn:A.
    apply adjust_visited in A as [V _]. intros E I R.
    assert (R1 : sites_recorded sources st1).
    { eapply visited_recorded; [exact V | apply I; now left | exact R]. }
    destruct o1 as [[]|e|].
    + eapply IH; [exact E | | exact R1]. intros x Ix. apply I. now right.
    + now inv_pair E.
    + now inv_pair E.
Qed.

(** The loop returns only once as many labels are processed as there
    are sites. *)
Lemma rect_while_recorded (sources : list nat) (data_source : list label)
      (_data : loc) (fuel : nat) (st st' : rect_t) :
  rect_while fuel (attempt data_source _data sources) st = (st', Ok tt) ->
  sites_recorded sources st ->
  sites_recorded sources st'
  /\ (length sources <= length (processed st'))%nat.
Proof.
  revert st. induction fuel as [|fuel IH]; intros st; cbn [rect_while].
  - intros E. inv_pair E. discriminate.
  - unfold attempt at 1.
    destruct (length (processed st) <? length sources)%nat eqn:L.
    + cbn [attemps].
      destruct (5 * length sources <? S (attemps st))%nat;
        [intros E; inv_pair E; discriminate|].
      destruct (scan data_source _data sources
                     (mkRect (S (attemps st)) (processed st) (adjustments st)
                             (store st)))
        as [st1 o1] eqn:S1.
      intros E R.
      assert (R1 : sites_recorded sources st1).
      { eapply scan_recorded; [exact S1 | apply incl_refl | exact R]. }
      destruct o1 as [[]|e|]; [now apply (IH st1) | |]; inv_pair E; discriminate.
    + intros E R. injection E as <-. apply Nat.ltb_ge in L. now split.
Qed.

(** X18. When the first row is of a site and [rectify_combined] returns, every
    site that labels a row has its offset recorded. *)
Theorem rectify_adjusts_every_site (srs out : object) (h h' : heap)
        (data_source : list label) (first : nat) :
  _data_source srs = Some data_source ->
  hd_error data_source = Some (Site first) ->
  rectify_combined srs h = (h', Ok out) ->
  exists adj,
    _data_adjustments out = Some adj
    /\ forall s, In (Site s) data_source ->
                 exists offset, dict_get adj (Site s) = Some offset.
Proof.
  intros D Hd. unfold rectify_combined. rewrite D.
  destruct (pick_reference data_source) as [ref|e|] eqn:P; try discriminate.
  apply pick_reference_first in P. rewrite Hd in P. injection P as <-.
  set (sources := np_unique (clean data_source)).
  destruct (rect_while _ _ _) as [st o] eqn:W.
  destruct o as [[]|e|]; try (intros E; inv_pair E; discriminate).
  unfold deepcopy_data. intros E. inv_pair E. cbn [_data_adjustments].
  assert (I0 : In first sources).
  { apply np_unique_In, clean_In. destruct data_source; [discriminate|].
    injection Hd as ->. now left. }
  destruct (rect_while_recorded sources _ _ _ _ _ W) as [(done & Pd & N & C & G) L].
  { exists [first]. split; [reflexivity|]. split.
    - constructor; [intros [] | constructor].
    - split; [intros x [<-|[]]; exact I0|].
      intros x [<-|[]]. simpl. rewrite Nat.eqb_refl. discriminate. }
  exists (adjustments st). split; [reflexivity|]. intros s Is.
  assert (Id : In s done).
  { rewrite Pd, length_map in L.
    apply (@NoDup_length_incl nat done sources N L C).
    now apply np_unique_In, clean_In. }
  specialize (G s Id). destruct (dict_get (adjustments st) (Site s)) as [v|];
    [now exists v | contradiction].
Qed.

(** ** The shape of the store *)

Lemma same_shape_refl (h : heap) : same_shape h h.
Proof. now repeat split. Qed.

Lemma same_shape_trans (a b c : heap) :
  same_shape a b -> same_shape b c -> same_shape a c.
Proof.
  intros (A1 & A2 & A3) (B1 & B2 & B3).
  split; [congruence|]. split; [congruence|].
  intros x. now rewrite B3, A3.
Qed.

Lemma update_length {A : Type} (xs : list A) (i : nat) (x : A) :
  length (update xs i x) = length xs.
Proof.
  revert i. induction xs as [|y xs IH]; intros i; [reflexivity|].
  destruct i; simpl; [reflexivity | now rewrite IH].
Qed.

Lemma nth_update_row (xs : list row) (a a' : nat) (f : row -> row) :
  (forall r, length (f r) = length r) ->
  length (nth a' (update xs a (f (nth a xs []))) []) = length (nth a' xs []).
Proof.
  intros F. revert a a'. induction xs as [|y xs IH]; intros a a'.
  - reflexivity.
  - destruct a as [|a], a' as [|a']; simpl; auto.
Qed.

Lemma preserves_ret {A : Type} (R : rect_t -> rect_t -> Prop) (a : A) :
  (forall st, R st st) -> preserves R (rret a).
Proof. intros Rr st st' o E. unfold rret in E. inv_pair E. apply Rr. Qed.

Lemma preserves_lift {A : Type} (R : rect_t -> rect_t -> Prop) (x : outcome A) :
  (forall st, R st st) -> preserves R (lift x).
Proof. intros Rr st st' o E. unfold lift in E. inv_pair E. apply Rr. Qed.

Lemma preserves_bind {A B : Type} (R : rect_t -> rect_t -> Prop)
      (m : rect A) (k : A -> rect B) :
  (forall a b c, R a b -> R b c -> R a c) ->
  preserves R m -> (forall a, preserves R (k a)) -> preserves R (rbind m k).
Proof.
  intros Rt M K st st' o. unfold rbind.
  destruct (m st) as [st1 o1] eqn:E1. apply M in E1.
  destruct o1 as [a|e|].
  - intros E. apply K in E. eapply Rt; eassumption.
  - intros E. now inv_pair E.
  - intros E. now inv_pair E.
Qed.

Lemma shape_refl (st : rect_t) : same_shape (store st) (store st).
Proof. apply same_shape_refl. Qed.

Lemma shape_trans (a b c : rect_t) :
  same_shape (store a) (store b) -> same_shape (store b) (store c) ->
  same_shape (store a) (store c).
Proof. apply same_shape_trans. Qed.

Lemma row_ref_shape (_data : loc) (i : nat) :
  preserves (fun st st' => same_shape (store st) (store st')) (row_ref _data i).
Proof. intros st st' o E. unfold row_ref in E. inv_pair E. apply same_shape_refl. Qed.

Lemma band_median_shape (_data : loc) (i : nat) :
  preserves (fun st st' => same_shape (store st) (store st')) (band_median _data i).
Proof.
  unfold band_median. apply preserves_bind.
  - exact shape_trans.
  - apply row_ref_shape.
  - intros a st st' o E. inv_pair E. apply same_shape_refl.
Qed.

Lemma iadd_shape (_data : loc) (i : nat) (offset : f64) :
  preserves (fun st st' => same_shape (store st) (store st')) (iadd _data i offset).
Proof.
  unfold iadd. apply preserves_bind.
  - exact shape_trans.
  - apply row_ref_shape.
  - intros a st st' o E. inv_pair E. cbn [store]. unfold same_shape, array_at.
    cbn [lists arrays]. split; [reflexivity|]. split; [apply update_length|].
    intros a'. apply (nth_update_row (arrays (store st)) a a'
                        (map (fun x => f64_add x offset))).
    intros r. apply length_map.
Qed.

Lemma iadd_all_shape (_data : loc) (source_set : list nat) (offset : f64) :
  preserves (fun st st' => same_shape (store st) (store st'))
            (iadd_all _data source_set offset).
Proof.
  induction source_set as [|i rest IH]; cbn [iadd_all].
  - apply preserves_ret. exact shape_refl.
  - apply preserves_bind; [exact shape_trans | apply iadd_shape | intros _; exact IH].
Qed.

Lemma mark_processed_shape (s : label) (offset : f64) :
  preserves (fun st st' => same_shape (store st) (store st'))
            (mark_processed s offset).
Proof. intros st st' o E. unfold mark_processed in E. inv_pair E. apply same_shape_refl. Qed.

Lemma adjust_shape (data_source : list label) (_data : loc) (s : nat) :
  preserves (fun st st' => same_shape (store st) (store st'))
            (adjust data_source _data s).
Proof.
  unfold adjust.
  apply preserves_bind; [exact shape_trans | |].
  { intros st st' o E. unfold get_processed in E. inv_pair E. apply same_shape_refl. }
  intros done. destruct (label_in (Site s) done).
  { apply preserves_ret. exact shape_refl. }
  apply preserves_bind; [exact shape_trans | apply preserves_lift; exact shape_refl |].
  intros first. destruct (0 <? first)%nat.
  - apply preserves_bind;
      [exact shape_trans | apply preserves_lift; exact shape_refl |].
    intros source_before. destruct (label_in source_before done).
    + apply preserves_bind; [exact shape_trans | apply band_median_shape |].
      intros bd.
      apply preserves_bind; [exact shape_trans | apply band_median_shape |].
      intros cu.
      apply preserves_bind; [exact shape_trans | apply iadd_all_shape |].
      intros _. apply mark_processed_shape.
    + apply preserves_ret. exact shape_refl.
  - apply preserves_bind;
      [exact shape_trans | apply preserves_lift; exact shape_refl |].
    intros last_.
    apply preserves_bind;
      [exact shape_trans | apply preserves_lift; exact shape_refl |].
    intros n. destruct (last_ <? n - 1)%nat.
    + apply preserves_bind;
        [exact shape_trans | apply preserves_lift; exact shape_refl |].
      intros source_after. destruct (label_in source_after done).
      * apply preserves_bind; [exact shape_trans | apply band_median_shape |].
        intros cu.
        apply preserves_bind; [exact shape_trans | apply band_median_shape |].
        intros af.
        apply preserves_bind; [exact shape_trans | apply iadd_all_shape |].
        intros _. apply mark_processed_shape.
      * apply preserves_ret. exact shape_refl.
    + apply preserves_ret. exact shape_refl.
Qed.

Lemma scan_shape (data_source : list label) (_data : loc) (sources : list nat) :
  preserves (fun st st' => same_shape (store st) (store st'))
            (scan data_source _data sources).
Proof.
  induction sources as [|s rest IH]; cbn [scan].
  - apply preserves_ret. exact shape_refl.
  - apply preserves_bind; [exact shape_trans | apply adjust_shape | intros _; exact IH].
Qed.

Lemma rect_while_shape (data_source : list label) (_data : loc)
      (sources : list nat) (fuel : nat) :
  preserves (fun st st' => same_shape (store st) (store st'))
            (rect_while fuel (attempt data_source _data sources)).
Proof.
  induction fuel as [|fuel IH]; intros st st' o; cbn [rect_while].
  - intros E. inv_pair E. apply same_shape_refl.
  - unfold attempt at 1.
    destruct (length (processed st) <? length sources)%nat;
      [| intros E; inv_pair E; apply same_shape_refl].
    cbn [attemps].
    destruct (5 * length sources <? S (attemps st))%nat;
      [intros E; inv_pair E; apply same_shape_refl|].
    destruct (scan data_source _data sources
                   (mkRect (S (attemps st)) (processed st) (adjustments st) (store st)))
      as [st1 o1] eqn:S1.
    apply scan_shape in S1. cbn [store] in S1.
    destruct o1 as [[]|e|].
    + intros E. apply IH in E. eapply same_shape_trans; eassumption.
    + intros E. now inv_pair E.
    + intros E. now inv_pair E.
Qed.

(** X19. Whatever its outcome, [rectify_combined] leaves every list of rows
    of the store referring to the arrays it referred to, and every array
    with the number of values it had: it changes values only. *)
Theorem rectify_keeps_shape (srs : object) (h h' : heap) (o : outcome object) :
  rectify_combined srs h = (h', o) ->
  (forall l, (l < length (lists h))%nat -> list_at h' l = list_at h l)
  /\ (forall a, (a < length (arrays h))%nat ->
                length (array_at h' a) = length (array_at h a)).
Proof.
  unfold rectify_combined.
  destruct (_data_source srs) as [data_source|];
    [| intros E; inv_pair E; now split].
  destruct (pick_reference data_source) as [ref|e|];
    [| intros E; inv_pair E; now split | intros E; inv_pair E; now split].
  destruct (rect_while _ _ _) as [st o1] eqn:W.
  apply rect_while_shape in W. cbn [store] in W. destruct W as (W1 & W2 & W3).
  destruct o1 as [[]|e|].
  - unfold deepcopy_data. intros E. inv_pair E. unfold list_at, array_at.
    cbn [lists arrays]. split.
    + intros l L. rewrite app_nth1 by (rewrite W1; exact L). now rewrite W1.
    + intros a L. rewrite app_nth1 by (rewrite W2; exact L). apply W3.
  - intros E. inv_pair E. split; [intros l _; unfold list_at; now rewrite W1|].
    intros a _. apply W3.
  - intros E. inv_pair E. split; [intros l _; unfold list_at; now rewrite W1|].
    intros a _. apply W3.
Qed.

(** ** The rows after rectification *)

Lemma nth_update_same {A : Type} (xs : list A) (a : nat) (x d : A) :
  nth a (update xs a x) d = if (a <? length xs)%nat then x else d.
Proof.
  revert a. induction xs as [|y xs IH]; intros a.
  - destruct a; reflexivity.
  - destruct a as [|a]; [reflexivity|]. cbn [update nth length].
    rewrite IH. reflexivity.
Qed.

Lemma nth_update_other {A : Type} (xs : list A) (a a' : nat) (x d : A) :
  a' <> a -> nth a' (update xs a x) d = nth a' xs d.
Proof.
  revert a a'. induction xs as [|y xs IH]; intros a a' N.
  - reflexivity.
  - destruct a as [|a], a' as [|a']; cbn [update nth]; try reflexivity.
    + contradiction.
    + apply IH. lia.
Qed.

Lemma sorted_NoDup (l : list nat) : StronglySorted lt l -> NoDup l.
Proof.
  induction 1 as [|a l S IH F]; constructor; [|exact IH].
  intros I. rewrite Forall_forall in F. apply F in I. lia.
Qed.

(** One [+=]: the array of row [i] has the offset added to every value,
    and no other array is touched. *)
Lemma iadd_effect (_data : loc) (i : nat) (offset : f64) (st st' : rect_t) :
  iadd _data i offset st = (st', Ok tt) ->
  exists a,
    nth_error (list_at (store st) _data) i = Some a
    /\ same_books st st'
    /\ array_at (store st') a
       = map (fun x => f64_add x offset) (array_at (store st) a)
    /\ forall a', a' <> a -> array_at (store st') a' = array_at (store st) a'.
Proof.
  unfold iadd, rbind, row_ref, getitem.
  destruct (nth_error (list_at (store st) _data) i) as [a|]; [|discriminate].
  intros E. injection E as <-. exists a. split; [reflexivity|].
  split; [now repeat split|]. unfold array_at. cbn [store arrays]. split.
  - rewrite nth_update_same.
    destruct (a <? length (arrays (store st)))%nat eqn:L; [reflexivity|].
    apply Nat.ltb_ge in L. now rewrite nth_overflow.
  - intros a' N. now apply nth_update_other.
Qed.

Lemma iadd_all_effect (_data : loc) (source_set : list nat) (offset : f64)
      (st st' : rect_t) :
  iadd_all _data source_set offset st = (st', Ok tt) ->
  NoDup source_set ->
  NoDup (list_at (store st) _data) ->
  same_books st st'
  /\ forall a,
       ((exists i, In i source_set
                   /\ nth_error (list_at (store st) _data) i = Some a) ->
        array_at (store st') a
        = map (fun x => f64_add x offset) (array_at (store st) a))
       /\ ((forall i, In i source_set ->
                      nth_error (list_at (store st) _data) i <> Some a) ->
           array_at (store st') a = array_at (store st) a).
Proof.
  revert st. induction source_set as [|i rest IH]; intros st; cbn [iadd_all].
  - unfold rret. intros E _ _. injection E as <-. split; [apply same_books_refl|].
    intros a. split; [intros (i & [] & _) | reflexivity].
  - unfold rbind. destruct (iadd _data i offset st) as [st1 o1] eqn:E1.
    destruct o1 as [[]|e|]; try discriminate.
    apply iadd_effect in E1 as (ai & Ni & B1 & Same & Other).
    intros E Nd Nl. inversion Nd as [|? ? Ni' Nd']; subst.
    pose proof B1 as (_ & _ & _ & Ls).
    assert (Ll : list_at (store st1) _data = list_at (store st) _data)
      by (unfold list_at; now rewrite Ls).
    destruct (IH st1 E Nd') as [B2 Eff]; [now rewrite Ll|].
    rewrite Ll in Eff.
    split; [eapply same_books_trans; eassumption|].
    assert (Inj : forall j a, nth_error (list_at (store st) _data) j = Some a ->
                              nth_error (list_at (store st) _data) i = Some a ->
                              j = i).
    { intros j a Nj Na. rewrite NoDup_nth_error in Nl. apply Nl.
      - apply nth_error_Some. congruence.
      - congruence. }
    intros a. destruct (Eff a) as [Hit Miss]. split.
    + intros (j & [<-|Ij] & Nj).
      * assert (a = ai) by congruence. subst a.
        rewrite Miss; [exact Same|].
        intros j Ij Nj'. apply Ni'. now rewrite <- (Inj j ai Nj' Ni).
      * rewrite Hit by (exists j; now split).
        rewrite Other; [reflexivity|].
        intros ->. apply Ni'. now rewrite <- (Inj j ai Nj Ni).
    + intros None. rewrite Miss by (intros j Ij; apply None; now right).
      apply Other. intros ->. apply (None i); [now left | exact Ni].
Qed.

Lemma band_median_ok (_data : loc) (i : nat) (st st' : rect_t) (v : f64) :
  band_median _data i st = (st', Ok v) -> st' = st.
Proof. intros E. now apply band_median_state in E as [-> _]. Qed.

Lemma np_where_label (s : nat) (data_source : list label) (i : nat) :
  In i (np_where (label_eqb (Site s)) data_source)
  <-> nth_error data_source i = Some (Site s).
Proof.
  split.
  - intros I. pose proof (np_where_spec (label_eqb (Site s)) data_source) as W.
    rewrite Forall_forall in W. destruct (W i I) as (x & N & P).
    apply label_eqb_eq in P. now subst x.
  - intros N. apply (where_from_complete (label_eqb (Site s)) 0 i _ _ N).
    now apply label_eqb_eq.
Qed.

Lemma label_in_snoc (x y : label) (xs : list label) :
  label_in x (xs ++ [y]) = label_in x xs || label_eqb x y.
Proof. unfold label_in. rewrite existsb_app. simpl. now rewrite orb_false_r. Qed.

(** A visit that returns keeps the rows as [rows_offset] says. *)
Lemma adjust_rows (h0 : heap) (addresses : list loc) (data_source : list label)
      (ref : label) (_data : loc) (s : nat) (st st' : rect_t) :
  NoDup addresses ->
  list_at (store st) _data = addresses ->
  label_in ref (processed st) = true ->
  rows_offset h0 addresses data_source ref st ->
  adjust data_source _data s st = (st', Ok tt) ->
  rows_offset h0 addresses data_source ref st'.
Proof.
  intros Nl Ll K (K2 & Rows). unfold adjust, get_processed. unfold rbind at 1.
  destruct (label_in (Site s) (processed st)) eqn:U.
  { unfold rret. intros E. injection E as <-. now split. }
  unfold rbind at 1, lift.
  destruct (getitem (np_where (label_eqb (Site s)) data_source) 0)
    as [first|e1|]; try discriminate.
  destruct (0 <? first)%nat.
  2:{ unfold rbind at 1.
      destruct (getitem_last _) as [last_|e1|];
        try discriminate;
        try (unfold rbind at 1, len_data_sources, lift; discriminate). }
  unfold rbind at 1.
  destruct (getitem data_source (first - 1)) as [source_before|e1|];
    try discriminate.
  destruct (label_in source_before (processed st)).
  2:{ unfold rret. intros E. injection E as <-. now split. }
  unfold rbind at 1.
  destruct (band_median _data (first - 1) st) as [st1 o1] eqn:B1.
  destruct o1 as [bd|e1|]; try discriminate.
  apply band_median_ok in B1. subst st1.
  unfold rbind at 1.
  destruct (band_median _data first st) as [st2 o2] eqn:B2.
  destruct o2 as [cu|e2|]; try discriminate.
  apply band_median_ok in B2. subst st2.
  unfold rbind at 1.
  destruct (iadd_all _data _ (f64_sub bd cu) st) as [st3 o3] eqn:I3.
  destruct o3 as [[]|e3|]; try discriminate.
  apply iadd_all_effect in I3;
    [| apply sorted_NoDup, where_from_sorted | now rewrite Ll].
  destruct I3 as [(_ & P3 & A3 & _) Eff]. rewrite Ll in Eff.
  unfold mark_processed. intros E. injection E as <-.
  unfold rows_offset. cbn [processed adjustments store]. rewrite P3, A3.
  assert (Sr : label_eqb (Site s) ref = false).
  { destruct (label_eqb (Site s) ref) eqn:C; [|reflexivity].
    apply label_eqb_eq in C. subst ref. rewrite K in U. discriminate. }
  split.
  - intros s' U'. rewrite label_in_snoc in U'.
    apply orb_false_iff in U' as [U1 U2].
    rewrite dict_get_set_other; [now apply K2|].
    intros C. rewrite <- C in U2.
    assert (T : label_eqb (Site s) (Site s) = true) by now apply label_eqb_eq.
    rewrite T in U2. discriminate.
  - intros i a lab Na Nlab. destruct (Eff a) as [Hit Miss].
    destruct (label_eqb lab (Site s)) eqn:C.
    + apply label_eqb_eq in C. subst lab.
      rewrite Hit by (exists i; split; [now apply np_where_label | exact Na]).
      rewrite (Rows i a (Site s) Na Nlab). unfold row_after.
      rewrite Sr, (K2 s U), dict_get_set_same. reflexivity.
    + rewrite Miss.
      * rewrite (Rows i a lab Na Nlab). unfold row_after.
        destruct lab as [s'|]; [|reflexivity].
        destruct (label_eqb (Site s') ref); [reflexivity|].
        rewrite dict_get_set_other; [reflexivity|].
        intros E. rewrite E in C.
        assert (T : label_eqb (Site s') (Site s') = true) by now apply label_eqb_eq.
        rewrite T in C. discriminate.
      * intros j Ij Nj. apply np_where_label in Ij.
        rewrite NoDup_nth_error in Nl.
        assert (j = i).
        { apply Nl; [apply nth_error_Some; congruence | congruence]. }
        subst j. rewrite Nlab in Ij. injection Ij as ->.
        assert (T : label_eqb (Site s) (Site s) = true) by now apply label_eqb_eq.
        rewrite T in C. discriminate.
Qed.

Lemma scan_rows (h0 : heap) (addresses : list loc) (data_source : list label)
      (ref : label) (_data : loc) (sources : list nat) (st st' : rect_t) :
  NoDup addresses ->
  list_at (store st) _data = addresses ->
  kept ref st ->
  rows_offset h0 addresses data_source ref st ->
  scan data_source _data sources st = (st', Ok tt) ->
  rows_offset h0 addresses data_source ref st'.
Proof.
  intros Nl. revert st. induction sources as [|s rest IH]; intros st Ll K R; simpl.
  - unfold rret. intros E. now injection E as <-.
  - unfold rbind.
    destruct (adjust data_source _data s st) as [st1 o1] eqn:A.
    destruct o1 as [[]|e|]; try discriminate.
    pose proof A as A'. apply adjust_visited in A' as [V _].
    pose proof (visited_kept ref s st st1 V K) as K1.
    destruct V as (_ & Ls & _).
    apply IH.
    + unfold list_at in *. now rewrite Ls.
    + exact K1.
    + destruct K as [K _]. eapply adjust_rows; eassumption.
Qed.

Lemma scan_lists (data_source : list label) (_data : loc) (sources : list nat)
      (st st' : rect_t) (o : outcome unit) :
  scan data_source _data sources st = (st', o) ->
  lists (store st') = lists (store st).
Proof. intros E. now apply scan_shape in E as (L & _). Qed.

Lemma rect_while_rows (h0 : heap) (addresses : list loc) (data_source : list label)
      (ref : label) (_data : loc) (sources : list nat) (fuel : nat)
      (st st' : rect_t) :
  NoDup addresses ->
  list_at (store st) _data = addresses ->
  kept ref st ->
  rows_offset h0 addresses data_source ref st ->
  rect_while fuel (attempt data_source _data sources) st = (st', Ok tt) ->
  rows_offset h0 addresses data_source ref st'.
Proof.
  intros Nl. revert st. induction fuel as [|fuel IH]; intros st Ll K R;
    cbn [rect_while].
  - discriminate.
  - unfold attempt at 1.
    destruct (length (processed st) <? length sources)%nat;
      [| intros E; now injection E as <-].
    cbn [attemps].
    destruct (5 * length sources <? S (attemps st))%nat;
      [discriminate|].
    destruct (scan data_source _data sources
                   (mkRect (S (attemps st)) (processed st) (adjustments st) (store st)))
      as [st1 o1] eqn:S1.
    destruct o1 as [[]|e|]; try discriminate.
    assert (K0 : kept ref (mkRect (S (attemps st)) (processed st)
                                  (adjustments st) (store st))) by exact K.
    pose proof (scan_kept ref _ _ _ _ _ _ S1 K0) as K1.
    pose proof (scan_lists _ _ _ _ _ _ S1) as Ls. cbn [store] in Ls.
    apply IH.
    + unfold list_at in *. now rewrite Ls.
    + exact K1.
    + eapply scan_rows; [exact Nl | | exact K0 | | exact S1].
      * exact Ll.
      * exact R.
Qed.

(** X20. When the first row is of a site, the rows of the list are distinct
    arrays, and [rectify_combined] returns: the row of every site but the
    reference is the row it was with the recorded offset of its site
    added to every value, and the rows of the reference site and of the
    gaps are as they were. *)
Theorem rectify_offsets_rows (srs out : object) (h h' : heap)
        (data_source : list label) (first : nat) :
  _data_source srs = Some data_source ->
  hd_error data_source = Some (Site first) ->
  NoDup (list_at h (_data srs)) ->
  rectify_combined srs h = (h', Ok out) ->
  exists adj,
    _data_adjustments out = Some adj
    /\ forall i a lab,
         nth_error (list_at h (_data srs)) i = Some a ->
         nth_error data_source i = Some lab ->
         (a < length (arrays h))%nat ->
         array_at h' a = row_after adj (Site first) lab (array_at h a).
Proof.
  intros D Hd Nl. unfold rectify_combined. rewrite D.
  destruct (pick_reference data_source) as [ref|e|] eqn:P; try discriminate.
  apply pick_reference_first in P. rewrite Hd in P. injection P as <-.
  destruct (rect_while _ _ _) as [st o] eqn:W.
  destruct o as [[]|e|]; try discriminate.
  pose proof W as Sh. apply rect_while_shape in Sh. cbn [store] in Sh.
  destruct Sh as (_ & La & _).
  apply (rect_while_rows h (list_at h (_data srs)) data_source (Site first)) in W.
  - destruct W as [_ Rows].
    unfold deepcopy_data. intros E. inv_pair E. cbn [_data_adjustments].
    exists (adjustments st). split; [reflexivity|].
    intros i a lab Na Nlab L. rewrite <- (Rows i a lab Na Nlab).
    unfold array_at. cbn [arrays]. apply app_nth1. now rewrite La.
  - exact Nl.
  - reflexivity.
  - apply kept_initially.
  - split.
    + intros s U. cbn [processed label_in existsb] in U.
      rewrite orb_false_r in U. cbn [adjustments dict_get].
      destruct (label_eqb (Site first) (Site s)) eqn:C; [|reflexivity].
      apply label_eqb_eq in C. injection C as ->.
      simpl in U. rewrite Nat.eqb_refl in U. discriminate.
    + intros i a lab Na Nlab. cbn [store adjustments]. unfold row_after.
      destruct lab as [s|]; [|reflexivity].
      destruct (label_eqb (Site s) (Site first)) eqn:C; [reflexivity|].
      cbn [dict_get].
      destruct (label_eqb (Site first) (Site s)) eqn:C'; [|reflexivity].
      apply label_eqb_eq in C'. rewrite C' in C.
      assert (T : label_eqb (Site s) (Site s) = true) by now apply label_eqb_eq.
      rewrite T in C. discriminate.
Qed.

(** ** The URLs [download_data] fetches *)

Lemma prefix_occurs (sub s : string) :
  prefix sub s = true <-> exists post, s = String.append sub post.
Proof.
  revert s. induction sub as [|c sub IH]; intros s; destruct s as [|d s]; simpl.
  - split; [intros _; now exists EmptyString | reflexivity].
  - split; [intros _; now exists (String d s) | reflexivity].
  - split; [discriminate | intros [post E]; discriminate].
  - destruct (ascii_dec c d) as [<-|N].
    + rewrite IH. split; intros [post E]; exists post.
      * now rewrite E.
      * now injection E.
    + split; [discriminate | intros [post E]; injection E as E1 E2; congruence].
Qed.

Lemma occurs_cons (sub : string) (c : ascii) (s : string) :
  occurs sub (String c s) <-> prefix sub (String c s) = true \/ occurs sub s.
Proof.
  split.
  - intros (pre & post & E). destruct pre as [|d pre]; simpl in E.
    + left. apply prefix_occurs. now exists post.
    + right. injection E as _ E. now exists pre, post.
  - intros [P|(pre & post & E)].
    + apply prefix_occurs in P as [post E]. now exists EmptyString, post.
    + exists (String c pre), post. simpl. now rewrite E.
Qed.

Lemma find_from_occurs (i : Z) (s sub : string) :
  0 <= i -> (find_from i s sub <> -1 <-> occurs sub s).
Proof.
  revert i. induction s as [|c s IH]; intros i G; cbn [find_from].
  - destruct (prefix sub EmptyString) eqn:P.
    + split; [intros _ | lia].
      apply prefix_occurs in P as [post E]. now exists EmptyString, post.
    + split; [congruence|]. intros (pre & post & E).
      destruct pre; [|discriminate]. simpl in E.
      assert (T : prefix sub EmptyString = true)
        by (apply prefix_occurs; now exists post).
      congruence.
  - rewrite occurs_cons. destruct (prefix sub (String c s)) eqn:P.
    + split; [now left | lia].
    + rewrite (IH (i + 1)) by lia. split; [now right | now intros [?|?]].
Qed.

Lemma find_occurs (s sub : string) : negb (find s sub =? -1) = true <-> occurs sub s.
Proof.
  unfold find. rewrite <- (find_from_occurs 0 s sub) by lia.
  rewrite negb_true_iff, Z.eqb_neq. reflexivity.
Qed.

(** Whether a URL matches one of the codes. *)
Lemma weed_url_keeps (url : string) (codes_to_keep clean_urls : list string) :
  weed_url url codes_to_keep clean_urls
  = if existsb (fun code => negb (find url (lower code) =? -1)
                            || negb (find url code =? -1)) codes_to_keep
    then clean_urls ++ [url] else clean_urls.
Proof.
  induction codes_to_keep as [|code rest IH]; cbn [weed_url existsb].
  - reflexivity.
  - destruct (negb (find url (lower code) =? -1) || negb (find url code =? -1));
      [reflexivity | exact IH].
Qed.

Lemma weed_filter (urls codes_to_keep : list string) :
  weed urls codes_to_keep
  = filter (fun url => existsb (fun code => negb (find url (lower code) =? -1)
                                            || negb (find url code =? -1))
                               codes_to_keep) urls.
Proof.
  unfold weed.
  enough (G : forall acc,
             fold_left (fun clean_urls url => weed_url url codes_to_keep clean_urls)
                       urls acc
             = acc ++ filter (fun url =>
                                existsb (fun code =>
                                           negb (find url (lower code) =? -1)
                                           || negb (find url code =? -1))
                                        codes_to_keep) urls)
    by apply (G []).
  induction urls as [|url rest IH]; intros acc; cbn [fold_left filter].
  - now rewrite app_nil_r.
  - rewrite IH, weed_url_keeps.
    destruct (existsb _ codes_to_keep); [|reflexivity].
    now rewrite <- app_assoc.
Qed.

(** X21. The URLs that are kept are the URLs in which a kept code, or the
    code in small letters, occurs: in the order of the list, and each as
    often as the list has it, however many codes it matches. *)
Theorem kept_urls_contain_a_code (urls codes_to_keep : list string) :
  exists keep : string -> bool,
    (forall url,
        keep url = true
        <-> exists code, In code codes_to_keep
                         /\ (occurs (lower code) url \/ occurs code url))
    /\ weed urls codes_to_keep = filter keep urls.
Proof.
  exists (fun url => existsb (fun code => negb (find url (lower code) =? -1)
                                          || negb (find url code =? -1))
                             codes_to_keep).
  split; [|apply weed_filter].
  intros url. rewrite existsb_exists. split.
  - intros (code & I & M). exists code. split; [exact I|].
    apply orb_true_iff in M as [M|M]; apply find_occurs in M; tauto.
  - intros (code & I & [M|M]); exists code; (split; [exact I|]);
      apply find_occurs in M; rewrite M; [reflexivity | apply orb_true_r].
Qed.

Lemma match_codes_fold (lsite : string) (data_sites : list (string * string))
      (codes_to_keep : list string) (found : bool) :
  match_codes lsite (codes_to_keep, found) data_sites
  = (codes_to_keep
       ++ map fst (filter (fun item => String.eqb (snd item) lsite) data_sites),
     found || existsb (fun item => String.eqb (snd item) lsite) data_sites).
Proof.
  unfold match_codes. revert codes_to_keep found.
  induction data_sites as [|[code name] rest IH]; intros codes_to_keep found;
    cbn [fold_left filter existsb map snd].
  - now rewrite app_nil_r, orb_false_r.
  - unfold match_code at 2. destruct (String.eqb name lsite).
    + rewrite IH. cbn [map fst]. rewrite <- app_assoc. cbn [app].
      now rewrite orb_true_r.
    + rewrite IH. reflexivity.
Qed.

Lemma site_codes (lsite : string) (codes_to_keep : list string) :
  fold_left (match_codes lsite) [_NOAA_SITES; _WDC_SITES] (codes_to_keep, false)
  = (codes_to_keep
       ++ map fst (filter (fun item => String.eqb (snd item) lsite) known_sites),
     existsb (fun item => String.eqb (snd item) lsite) known_sites).
Proof.
  cbn [fold_left]. rewrite !match_codes_fold. unfold known_sites.
  rewrite filter_app, map_app, existsb_app, <- app_assoc. reflexivity.
Qed.

Lemma in_named (lsite code : string) (table : list (string * string)) :
  In code (map fst (filter (fun item => String.eqb (snd item) lsite) table))
  <-> In (code, lsite) table.
Proof.
  rewrite in_map_iff. split.
  - intros ([c n] & E & I). apply filter_In in I as [I N]. cbn in E, N.
    apply String.eqb_eq in N. now subst.
  - intros I. exists (code, lsite). split; [reflexivity|].
    apply filter_In. split; [exact I | apply String.eqb_refl].
Qed.

Lemma named_known (lsite : string) :
  existsb (fun item => String.eqb (snd item) lsite) known_sites = true
  <-> exists code, In (code, lsite) known_sites.
Proof.
  rewrite existsb_exists. split.
  - intros ([c n] & I & N). cbn in N. apply String.eqb_eq in N. subst.
    now exists c.
  - intros (code & I). exists (code, lsite). split; [exact I | apply String.eqb_refl].
Qed.

Lemma find_codes_from (sites codes_to_keep codes : list string) :
  find_codes sites codes_to_keep = Ok codes ->
  forall code,
    In code codes
    <-> In code codes_to_keep
        \/ exists site name,
             In site sites /\ In (code, name) known_sites
             /\ (site = "all" \/ name = lsite_of site).
Proof.
  revert codes_to_keep. induction sites as [|site rest IH]; intros acc;
    cbn [find_codes].
  - intros E code. injection E as <-. split; [now left|].
    intros [I|(s & n & [] & _)]. exact I.
  - destruct (String.eqb site "all") eqn:A.
    + apply String.eqb_eq in A. subst site. intros E code.
      rewrite (IH _ E code). rewrite <- app_assoc, <- map_app, in_app_iff.
      fold known_sites. rewrite in_map_iff. split.
      * intros [[I|([c n] & Ec & I)]|(s & n & I & K & W)].
        -- now left.
        -- cbn in Ec. subst c. right. exists "all", n.
           split; [now left|]. split; [exact I | now left].
        -- right. exists s, n. split; [now right | now split].
      * intros [I|(s & n & [<-|I] & K & W)].
        -- now left; left.
        -- left; right. now exists (code, n).
        -- right. exists s, n. now repeat split.
    + fold (lsite_of site). rewrite site_codes.
      destruct (existsb _ known_sites) eqn:F; [|discriminate].
      intros E code. rewrite (IH _ E code), in_app_iff, in_named. split.
      * intros [[I|I]|(s & n & I & K & W)].
        -- now left.
        -- right. exists site, (lsite_of site).
           split; [now left|]. split; [exact I | now right].
        -- right. exists s, n. split; [now right | now split].
      * intros [I|(s & n & [<-|I] & K & [W|W])].
        -- now left; left.
        -- rewrite W, String.eqb_refl in A. discriminate.
        -- subst n. now left; right.
        -- right. exists s, n. split; [exact I|]. split; [exact K | now left].
        -- right. exists s, n. split; [exact I|]. split; [exact K | now right].
Qed.

Lemma find_codes_outcome (sites codes_to_keep : list string) :
  (exists codes, find_codes sites codes_to_keep = Ok codes)
  \/ find_codes sites codes_to_keep = Raise ValueError.
Proof.
  revert codes_to_keep. induction sites as [|site rest IH]; intros acc;
    cbn [find_codes].
  - left. now exists acc.
  - destruct (String.eqb site "all"); [apply IH|].
    rewrite site_codes. destruct (existsb _ known_sites); [apply IH | now right].
Qed.

Lemma find_codes_raises (sites codes_to_keep : list string) :
  find_codes sites codes_to_keep = Raise ValueError
  <-> exists site,
        In site sites /\ site <> "all"
        /\ forall code, ~ In (code, lsite_of site) known_sites.
Proof.
  revert codes_to_keep. induction sites as [|site rest IH]; intros acc;
    cbn [find_codes].
  - split; [discriminate | intros (s & [] & _)].
  - destruct (String.eqb site "all") eqn:A.
    + apply String.eqb_eq in A. subst site. rewrite IH. split.
      * intros (s & I & N). exists s. split; [now right | exact N].
      * intros (s & [<-|I] & N & U); [congruence|]. now exists s.
    + apply String.eqb_neq in A. fold (lsite_of site). rewrite site_codes.
      destruct (existsb _ known_sites) eqn:F.
      * apply named_known in F as [code K]. rewrite IH. split.
        -- intros (s & I & N). exists s. split; [now right | exact N].
        -- intros (s & [<-|I] & N & U); [now apply U in K|]. now exists s.
      * split; [intros _ | reflexivity]. exists site.
        split; [now left|]. split; [exact A|].
        intros code K.
        assert (T : existsb (fun item => String.eqb (snd item) (lsite_of site))
                            known_sites = true)
          by (apply named_known; now exists code).
        congruence.
Qed.

Lemma urls_given (urls : list string) :
  urls <> [] -> (length urls =? 0)%nat = false.
Proof. destruct urls; [congruence | reflexivity]. Qed.

(** X22. When [download_data] goes on to fetch, a code is kept exactly when it
    is the code of a requested site: of any site for ['all'], and
    otherwise of the site whose name in the tables is the requested name
    in small letters with hyphens for spaces. *)
Theorem kept_codes_are_requested (sites codes : list string) :
  find_codes sites [] = Ok codes ->
  forall code,
    In code codes
    <-> exists site name,
          In site sites /\ In (code, name) known_sites
          /\ (site = "all" \/ name = lsite_of site).
Proof.
  intros E code. rewrite (find_codes_from sites [] codes E code).
  split; [intros [[]|I]; exact I | now right].
Qed.

(** X23. With data available, [download_data] raises ValueError exactly when
    a requested site is not ['all'] and its name, in small letters with
    hyphens for spaces, is in neither table; otherwise it goes on to
    fetch the URLs kept. *)
Theorem unknown_site_is_refused (utc_date : string) (urls sites : list string) :
  urls <> [] ->
  (download_urls utc_date urls (Names sites) = Raise ValueError
   <-> exists site,
         In site sites /\ site <> "all"
         /\ forall code, ~ In (code, lsite_of site) known_sites)
  /\ (download_urls utc_date urls (Names sites) = Raise ValueError
      \/ exists codes,
           find_codes sites [] = Ok codes
           /\ download_urls utc_date urls (Names sites) = Ok (weed urls codes)).
Proof.
  intros U. unfold download_urls. rewrite (urls_given urls U).
  rewrite <- (find_codes_raises sites []).
  destruct (find_codes_outcome sites []) as [[codes E]|E]; rewrite E; cbn [bind].
  - split; [split; discriminate | right; now exists codes].
  - split; [tauto | now left].
Qed.

Lemma noaa_url_has_pa (rest : string) : occurs "pa" (String.append _NOAA_URL rest).
Proof.
  exists "https://www.ngdc.noaa.gov/stp/s",
         (String.append
            "ce-weather/solar-data/solar-features/solar-radio/rstn-spectral/" rest).
  reflexivity.
Qed.

(** X24. A request for the one site Palehua, however its name is written,
    keeps every URL under the NOAA address, of whatever site: the code
    in small letters, pa, occurs in the address itself. *)
Theorem palehua_keeps_every_noaa_url (utc_date site : string) (urls : list string) :
  urls <> [] ->
  lsite_of site = "palehua" ->
  Forall (fun url => exists rest, url = String.append _NOAA_URL rest) urls ->
  download_urls utc_date urls (Name site) = Ok urls.
Proof.
  intros U L N. unfold download_urls. rewrite (urls_given urls U).
  cbn [find_codes].
  assert (A : String.eqb site "all" = false).
  { apply String.eqb_neq. intros ->. discriminate L. }
  rewrite A. fold (lsite_of site). rewrite L. cbn [bind].
  change (Ok (weed urls ["PA"; "KP"]) = Ok urls). f_equal.
  rewrite weed_filter. apply forallb_filter_id. apply forallb_forall.
  intros url I. rewrite Forall_forall in N. destruct (N url I) as [rest ->].
  cbn [existsb]. change (lower "PA") with "pa".
  pose proof (noaa_url_has_pa rest) as O. apply find_occurs in O.
  rewrite O. reflexivity.
Qed.

Lemma site_names (site_id : Z) (name : string) :
  _SITE_ID_TO_NAME site_id = Some name ->
  (site_id = 1 /\ name = "Palehau") \/ (site_id = 2 /\ name = "Holloman")
  \/ (site_id = 3 /\ name = "Learmonth") \/ (site_id = 4 /\ name = "San Vito")
  \/ (site_id = 5 /\ name = "Sagamore Hill").
Proof.
  unfold _SITE_ID_TO_NAME.
  destruct site_id as [|p|p]; try discriminate.
  do 3 (try destruct p as [p|p|]); try discriminate;
    intros E; injection E as <-; tauto.
Qed.

(** X25. The site name the decoder gives a file can be passed to
    [download_data] as the site to fetch, for every site id but 1: the
    name of site 1 is spelled Palehau in the decoder and palehua in the
    tables of [download_data], which raises ValueError for it. *)
Theorem decoded_site_name_accepted (utc_date : string) (urls : list string)
        (site_id : Z) (name : string) :
  urls <> [] ->
  _SITE_ID_TO_NAME site_id = Some name ->
  (download_urls utc_date urls (Name name) = Raise ValueError <-> site_id = 1)
  /\ (site_id <> 1 ->
      exists codes, codes <> []
                    /\ download_urls utc_date urls (Name name) = Ok (weed urls codes)).
Proof.
  intros U S. unfold download_urls. rewrite (urls_given urls U).
  apply site_names in S
    as [[-> ->]|[[-> ->]|[[-> ->]|[[-> ->]|[-> ->]]]]].
  - split; [split; [reflexivity | intros _; reflexivity] | congruence].
  - split; [split; [discriminate | lia]|]. intros _.
    exists ["HO"]. split; [discriminate | reflexivity].
  - split; [split; [discriminate | lia]|]. intros _.
    exists ["LM"; "LM"]. split; [discriminate | reflexivity].
  - split; [split; [discriminate | lia]|]. intros _.
    exists ["sv"]. split; [discriminate | reflexivity].
  - split; [split; [discriminate | lia]|]. intros _.
    exists ["K7"]. split; [discriminate | reflexivity].
Qed.

(** * The properties at sample inputs *)

(** Four whole frames and part of a fifth. *)
Lemma from_file_framewise_witness :
  exists srs,
    from_file sample_stream = Ok srs
    /\ _data srs = decoded_rows (length sample_stream / frame_size) sample_stream
    /\ time_range srs
       = decoded_times (length sample_stream / frame_size) sample_stream.
Proof.
  destruct (from_file sample_stream) as [srs|e|] eqn:E;
    [| vm_compute in E; discriminate ..].
  exists srs. split; [reflexivity|].
  exact (from_file_framewise sample_stream srs E).
Defined.

Lemma from_file_rows_shape_witness :
  exists srs,
    from_file sample_stream = Ok srs
    /\ length (time_range srs) = length (_data srs)
    /\ length (_data srs) = (length sample_stream / frame_size)%nat
    /\ Forall (fun r : row => length r = 802%nat /\ Forall calibrated r) (_data srs).
Proof.
  destruct (from_file sample_stream) as [srs|e|] eqn:E;
    [| vm_compute in E; discriminate ..].
  exists srs. split; [reflexivity|].
  exact (from_file_rows_shape sample_stream srs E).
Defined.

Lemma from_file_site_witness :
  (24 <= length sample_stream)%nat
  /\ exists srs,
       from_file sample_stream = Ok srs
       /\ site_id srs = first_site sample_stream
       /\ _SITE_ID_TO_NAME (site_id srs) = Some (site srs)
       /\ 1 <= site_id srs <= 5.
Proof.
  assert (L : (24 <= length sample_stream)%nat)
    by (apply Nat.leb_le; vm_compute; reflexivity).
  split; [exact L|].
  destruct (from_file sample_stream) as [srs|e|] eqn:E;
    [| vm_compute in E; discriminate ..].
  exists srs. split; [reflexivity|].
  exact (from_file_site sample_stream srs L E).
Defined.

(** A frame of site 9. *)
Lemma from_file_raises_witness :
  exists e,
    from_file foreign_frame = Raise e
    /\ (24 <= length foreign_frame)%nat
    /\ (e = ValueError
        \/ (e = KeyError (first_site foreign_frame)
            /\ _SITE_ID_TO_NAME (first_site foreign_frame) = None)).
Proof.
  destruct (from_file foreign_frame) as [srs|e|] eqn:E;
    [vm_compute in E; discriminate | | vm_compute in E; discriminate].
  exists e. split; [reflexivity|].
  exact (from_file_raises foreign_frame e E).
Defined.

Lemma from_file_unknown_site_witness :
  (24 <= length foreign_frame)%nat
  /\ _SITE_ID_TO_NAME (first_site foreign_frame) = None
  /\ from_file foreign_frame = Raise (KeyError (first_site foreign_frame)).
Proof.
  assert (L : (24 <= length foreign_frame)%nat)
    by (apply Nat.leb_le; vm_compute; reflexivity).
  assert (U : _SITE_ID_TO_NAME (first_site foreign_frame) = None)
    by (vm_compute; reflexivity).
  split; [exact L|]. split; [exact U|].
  exact (from_file_unknown_site foreign_frame L U).
Defined.

(** Two inputs with one row each, at 0 s and at 10 s. *)
Lemma combined_rows_are_samples_witness :
  forallb well_formed [interior_a; interior_b] = true
  /\ compatible [interior_a; interior_b] = true
  /\ exists combined labels tmin,
       combine_srs [interior_a; interior_b] = Ok combined
       /\ _data_source combined = Some labels
       /\ np_min (all_times [interior_a; interior_b]) = Ok tmin
       /\ forall k s,
            nth_error labels k = Some (Site s) ->
            exists t r,
              nth_error (time_range combined) k = Some t
              /\ nth_error (_data combined) k = Some r
              /\ sample_of [interior_a; interior_b] s t r
              /\ Z.abs (t - (tmin + 10 * Z.of_nat k)) < 5.
Proof.
  assert (W : forallb well_formed [interior_a; interior_b] = true) by reflexivity.
  assert (C : compatible [interior_a; interior_b] = true) by reflexivity.
  split; [exact W|]. split; [exact C|].
  destruct (combine_srs [interior_a; interior_b]) as [combined|e|] eqn:E;
    [| vm_compute in E; discriminate ..].
  assert (D : _data_source combined = Some [Site 0; Site 1]).
  { vm_compute in E. now injection E as <-. }
  assert (M : np_min (all_times [interior_a; interior_b]) = Ok 0)
    by (vm_compute; reflexivity).
  exists combined, [Site 0; Site 1], 0.
  split; [reflexivity|]. split; [exact D|]. split; [exact M|].
  exact (combined_rows_are_samples interior_a [interior_b] combined
           [Site 0; Site 1] 0 W C E D M).
Defined.

(** One input with rows at 0 s and 20 s: the row of 10 s is a gap. *)
Lemma combined_gap_rows_witness :
  forallb well_formed [gapped_srs] = true
  /\ compatible [gapped_srs] = true
  /\ exists combined tmin,
       combine_srs [gapped_srs] = Ok combined
       /\ _data_source combined = Some [Site 0; Missing; Site 0]
       /\ np_min (all_times [gapped_srs]) = Ok tmin
       /\ forall k l,
            nth_error [Site 0; Missing; Site 0] k = Some l ->
            (l = Missing
             <-> Forall (fun x => 5 <= Z.abs (x - (tmin + 10 * Z.of_nat k)))
                        (all_times [gapped_srs]))
            /\ (l = Missing ->
                nth_error (time_range combined) k = Some (tmin + 10 * Z.of_nat k)
                /\ nth_error (_data combined) k
                   = Some (repeat NaN (length (axis_values (freq_range gapped_srs))))).
Proof.
  assert (W : forallb well_formed [gapped_srs] = true) by reflexivity.
  assert (C : compatible [gapped_srs] = true) by reflexivity.
  split; [exact W|]. split; [exact C|].
  destruct (combine_srs [gapped_srs]) as [combined|e|] eqn:E;
    [| vm_compute in E; discriminate ..].
  assert (D : _data_source combined = Some [Site 0; Missing; Site 0]).
  { vm_compute in E. now injection E as <-. }
  assert (M : np_min (all_times [gapped_srs]) = Ok 0) by (vm_compute; reflexivity).
  exists combined, 0.
  split; [reflexivity|]. split; [exact D|]. split; [exact M|].
  exact (combined_gap_rows gapped_srs [] combined [Site 0; Missing; Site 0] 0
           W C E D M).
Defined.


Lemma combined_first_row_witness :
  forallb well_formed [gapped_srs] = true
  /\ compatible [gapped_srs] = true
  /\ exists combined,
       combine_srs [gapped_srs] = Ok combined
       /\ exists s labels, _data_source combined = Some (Site s :: labels).
Proof.
  assert (W : forallb well_formed [gapped_srs] = true) by reflexivity.
  assert (C : compatible [gapped_srs] = true) by reflexivity.
  split; [exact W|]. split; [exact C|].
  destruct (combine_srs [gapped_srs]) as [combined|e|] eqn:E;
    [| vm_compute in E; discriminate ..].
  exists combined. split; [reflexivity|].
  exact (combined_first_row gapped_srs [] combined W C E).
Defined.

Lemma combined_is_well_formed_witness :
  forallb well_formed [interior_a; interior_b] = true
  /\ compatible [interior_a; interior_b] = true
  /\ exists combined,
       combine_srs [interior_a; interior_b] = Ok combined
       /\ freq_range combined = freq_range interior_a
       /\ well_formed combined = true
       /\ exists again, combine_srs [combined] = Ok again.
Proof.
  assert (W : forallb well_formed [interior_a; interior_b] = true) by reflexivity.
  assert (C : compatible [interior_a; interior_b] = true) by reflexivity.
  split; [exact W|]. split; [exact C|].
  destruct (combine_srs [interior_a; interior_b]) as [combined|e|] eqn:E;
    [| vm_compute in E; discriminate ..].
  exists combined. split; [reflexivity|].
  exact (combined_is_well_formed interior_a [interior_b] combined W C E).
Defined.

(** One input with rows at 0 s, 10 s and 20 s. *)
Lemma combine_uniform_input_witness :
  well_formed even_srs = true
  /\ time_range even_srs = grid 0 3
  /\ combine_srs [even_srs]
     = Ok (mkSRS (site_id even_srs) (site even_srs) (freq_range even_srs)
                 (time_range even_srs) (_data even_srs)
                 (Some (repeat (Site 0) 3)) None).
Proof.
  assert (W : well_formed even_srs = true) by reflexivity.
  assert (G : time_range even_srs = grid 0 3) by reflexivity.
  split; [exact W|]. split; [exact G|].
  exact (combine_uniform_input even_srs 0 3 W G).
Defined.

Lemma decoded_is_combined_witness :
  (frame_size <= length sample_stream)%nat
  /\ exists srs,
       from_file sample_stream = Ok srs
       /\ well_formed srs = true
       /\ exists combined, combine_srs [srs] = Ok combined.
Proof.
  assert (L : (frame_size <= length sample_stream)%nat)
    by (apply Nat.leb_le; vm_compute; reflexivity).
  split; [exact L|].
  destruct (from_file sample_stream) as [srs|e|] eqn:E;
    [| vm_compute in E; discriminate ..].
  exists srs. split; [reflexivity|].
  exact (decoded_is_combined sample_stream srs L E).
Defined.

(** A header and 350 bytes: a frequency array and no row. *)
Lemma decoded_without_frame_not_combined_witness :
  (length short_stream < frame_size)%nat
  /\ exists srs,
       from_file short_stream = Ok srs
       /\ combine_srs [srs]
          = Raise (if (length short_stream <? 24)%nat
                   then AttributeError "size" else IndexError).
Proof.
  assert (L : (length short_stream < frame_size)%nat)
    by (apply Nat.ltb_lt; vm_compute; reflexivity).
  split; [exact L|].
  destruct (from_file short_stream) as [srs|e|] eqn:E;
    [| vm_compute in E; discriminate ..].
  exists srs. split; [reflexivity|].
  exact (decoded_without_frame_not_combined short_stream srs L E).
Defined.

(** Two rows of one site. *)
Lemma rectify_raises_witness :
  exists h' e,
    rectify_combined one_site two_rows = (h', Raise e)
    /\ (e = not_combined \/ e = IndexError \/ e = stalled).
Proof.
  destruct (rectify_combined one_site two_rows) as [h' o] eqn:E.
  destruct o as [out|e|];
    [vm_compute in E; discriminate | | vm_compute in E; discriminate].
  exists h', e. split; [reflexivity|].
  exact (rectify_raises one_site two_rows h' e E).
Defined.

Lemma decoded_is_not_rectified_witness :
  exists srs,
    from_file sample_stream = Ok srs
    /\ rectify_combined (as_object srs 0%nat) two_rows
       = (two_rows, Raise not_combined).
Proof.
  destruct (from_file sample_stream) as [srs|e|] eqn:E;
    [| vm_compute in E; discriminate ..].
  exists srs. split; [reflexivity|].
  exact (decoded_is_not_rectified sample_stream srs 0%nat two_rows E).
Defined.

(** Two rows, of sites 0 and 1. *)
Lemma rectify_adjusts_every_site_witness :
  _data_source two_sites = Some [Site 0; Site 1]
  /\ hd_error [Site 0; Site 1] = Some (Site 0)
  /\ exists h' out,
       rectify_combined two_sites two_rows = (h', Ok out)
       /\ exists adj,
            _data_adjustments out = Some adj
            /\ forall s, In (Site s) [Site 0; Site 1] ->
                         exists offset, dict_get adj (Site s) = Some offset.
Proof.
  split; [reflexivity|]. split; [reflexivity|].
  destruct (rectify_combined two_sites two_rows) as [h' o] eqn:E.
  destruct o as [out|e|]; [| vm_compute in E; discriminate ..].
  exists h', out. split; [reflexivity|].
  exact (rectify_adjusts_every_site two_sites out two_rows h' [Site 0; Site 1] 0%nat
           eq_refl eq_refl E).
Defined.

Lemma rectify_keeps_shape_witness :
  exists h' o,
    rectify_combined two_sites two_rows = (h', o)
    /\ (forall l, (l < length (lists two_rows))%nat ->
                  list_at h' l = list_at two_rows l)
    /\ (forall a, (a < length (arrays two_rows))%nat ->
                  length (array_at h' a) = length (array_at two_rows a)).
Proof.
  destruct (rectify_combined two_sites two_rows) as [h' o] eqn:E.
  exists h', o. split; [reflexivity|].
  exact (rectify_keeps_shape two_sites two_rows h' o E).
Defined.

Lemma rectify_offsets_rows_witness :
  _data_source two_sites = Some [Site 0; Site 1]
  /\ hd_error [Site 0; Site 1] = Some (Site 0)
  /\ NoDup (list_at two_rows (_data two_sites))
  /\ exists h' out,
       rectify_combined two_sites two_rows = (h', Ok out)
       /\ exists adj,
            _data_adjustments out = Some adj
            /\ forall i a lab,
                 nth_error (list_at two_rows (_data two_sites)) i = Some a ->
                 nth_error [Site 0; Site 1] i = Some lab ->
                 (a < length (arrays two_rows))%nat ->
                 array_at h' a = row_after adj (Site 0) lab (array_at two_rows a).
Proof.
  assert (N : NoDup (list_at two_rows (_data two_sites))).
  { change (NoDup [0; 1]%nat).
    apply NoDup_cons; [intros [F|[]]; discriminate|].
    apply NoDup_cons; [intros [] | apply NoDup_nil]. }
  split; [reflexivity|]. split; [reflexivity|]. split; [exact N|].
  destruct (rectify_combined two_sites two_rows) as [h' o] eqn:E.
  destruct o as [out|e|]; [| vm_compute in E; discriminate ..].
  exists h', out. split; [reflexivity|].
  exact (rectify_offsets_rows two_sites out two_rows h' [Site 0; Site 1] 0%nat
           eq_refl eq_refl N E).
Defined.

(** A request for San Vito. *)
Lemma kept_codes_are_requested_witness :
  find_codes ["San Vito"] [] = Ok ["sv"]
  /\ forall code,
       In code ["sv"]
       <-> exists site name,
             In site ["San Vito"] /\ In (code, name) known_sites
             /\ (site = "all" \/ name = lsite_of site).
Proof.
  assert (E : find_codes ["San Vito"] [] = Ok ["sv"]) by reflexivity.
  split; [exact E|].
  exact (kept_codes_are_requested ["San Vito"] ["sv"] E).
Defined.

Lemma unknown_site_is_refused_witness :
  [sample_url] <> []
  /\ (download_urls "2024-10-01" [sample_url] (Names ["San Vito"; "Palehau"])
      = Raise ValueError
      <-> exists site,
            In site ["San Vito"; "Palehau"] /\ site <> "all"
            /\ forall code, ~ In (code, lsite_of site) known_sites)
  /\ (download_urls "2024-10-01" [sample_url] (Names ["San Vito"; "Palehau"])
      = Raise ValueError
      \/ exists codes,
           find_codes ["San Vito"; "Palehau"] [] = Ok codes
           /\ download_urls "2024-10-01" [sample_url] (Names ["San Vito"; "Palehau"])
              = Ok (weed [sample_url] codes)).
Proof.
  assert (U : [sample_url] <> []) by discriminate.
  split; [exact U|].
  exact (unknown_site_is_refused "2024-10-01" [sample_url] ["San Vito"; "Palehau"] U).
Defined.

(** A request for Palehua with the San Vito file available. *)
Lemma palehua_keeps_every_noaa_url_witness :
  [sample_url] <> []
  /\ lsite_of "Palehua" = "palehua"
  /\ Forall (fun url => exists rest, url = String.append _NOAA_URL rest) [sample_url]
  /\ download_urls "2024-10-01" [sample_url] (Name "Palehua") = Ok [sample_url].
Proof.
  assert (U : [sample_url] <> []) by discriminate.
  assert (L : lsite_of "Palehua" = "palehua") by reflexivity.
  assert (N : Forall (fun url => exists rest, url = String.append _NOAA_URL rest)
                     [sample_url]).
  { constructor; [|constructor].
    exists "/san-vito/2024/10/sv241001.SRS.gz". reflexivity. }
  split; [exact U|]. split; [exact L|]. split; [exact N|].
  exact (palehua_keeps_every_noaa_url "2024-10-01" "Palehua" [sample_url] U L N).
Defined.

Lemma decoded_site_name_accepted_witness :
  [sample_url] <> []
  /\ _SITE_ID_TO_NAME 4 = Some "San Vito"
  /\ (download_urls "2024-10-01" [sample_url] (Name "San Vito") = Raise ValueError
      <-> 4 = 1)
  /\ (4 <> 1 ->
      exists codes,
        codes <> []
        /\ download_urls "2024-10-01" [sample_url] (Name "San Vito")
           = Ok (weed [sample_url] codes)).
Proof.
  assert (U : [sample_url] <> []) by discriminate.
  split; [exact U|]. split; [reflexivity|].
  exact (decoded_site_name_accepted "2024-10-01" [sample_url] 4 "San Vito" U eq_refl).
Defined.

(** ** The site of a combination *)

Lemma combine_srs_site (args : list spectrogram) (combined : spectrogram) :
  combine_srs args = Ok combined ->
  site_id combined = combined_site_id 0 args
  /\ site combined = combined_site args.
Proof.
  unfold combine_srs.
  destruct (getitem args 0) as [first|e|]; cbn [bind]; try discriminate.
  destruct (check_freq_range (freq_range first) args) as [[]|e|];
    cbn [bind]; try discriminate.
  destruct (load 0 args) as [src|e|]; cbn [bind]; try discriminate.
  destruct (concatenate_rows (src_data src)) as [d|e|]; cbn [bind]; try discriminate.
  destruct (np_min _) as [t0|e|]; cbn [bind]; try discriminate.
  destruct (np_max _) as [t1|e|]; cbn [bind]; try discriminate.
  destruct (while _ _ _) as [st|e|]; cbn [bind]; try discriminate.
  cbn [__init__ site_name _SITE_ID_TO_NAME bind].
  intros E. injection E as <-. now split.
Qed.

(** X11. Whenever [combine_srs] returns, the site name of the combination is
    the site names of the inputs joined with plus signs, in the order of
    the inputs. *)
Theorem combination_named_after_inputs (args : list spectrogram)
        (combined : spectrogram) :
  combine_srs args = Ok combined ->
  site combined = String.concat "+" (map site args).
Proof.
  intros E. apply combine_srs_site in E as [_ ->]. apply combined_site_join.
Qed.

(** X12. Whenever [combine_srs] returns from inputs whose site numbers are
    single digits, as those of the vocabulary are, the site number of
    the combination holds the site number of input [i] as its decimal
    digit [i], the first input in the units. *)
Theorem combination_numbered_after_inputs (args : list spectrogram)
        (combined srs : spectrogram) (i : nat) :
  Forall (fun s => 0 <= site_id s <= 9) args ->
  combine_srs args = Ok combined ->
  nth_error args i = Some srs ->
  (site_id combined / 10 ^ Z.of_nat i) mod 10 = site_id srs.
Proof.
  intros R E N. apply combine_srs_site in E as [-> _].
  now apply combined_site_id_digit.
Qed.

Lemma combination_named_after_inputs_witness :
  exists combined,
    combine_srs [interior_a; interior_b] = Ok combined
    /\ site combined = String.concat "+" (map site [interior_a; interior_b]).
Proof.
  destruct (combine_srs [interior_a; interior_b]) as [combined|e|] eqn:E;
    [| vm_compute in E; discriminate ..].
  exists combined. split; [reflexivity|].
  exact (combination_named_after_inputs [interior_a; interior_b] combined E).
Defined.

Lemma combination_numbered_after_inputs_witness :
  Forall (fun s => 0 <= site_id s <= 9) [interior_a; interior_b]
  /\ nth_error [interior_a; interior_b] 1 = Some interior_b
  /\ exists combined,
       combine_srs [interior_a; interior_b] = Ok combined
       /\ (site_id combined / 10 ^ Z.of_nat 1) mod 10 = site_id interior_b.
Proof.
  assert (R : Forall (fun s => 0 <= site_id s <= 9) [interior_a; interior_b]).
  { repeat constructor; simpl; lia. }
  split; [exact R|]. split; [reflexivity|].
  destruct (combine_srs [interior_a; interior_b]) as [combined|e|] eqn:E;
    [| vm_compute in E; discriminate ..].
  exists combined. split; [reflexivity|].
  exact (combination_numbered_after_inputs [interior_a; interior_b] combined
           interior_b 1 R E eq_refl).
Defined.
